(** * Bulk payroll: validation, duplicate detection, payment retries and
      the job life cycle

    A shallow embedding of the payroll core of the repository:
    - lib/validation.ts (second part of src/lib/errors.ts): the two Zod
      schemas [PaymentRowSchema] and [RawPaymentRowSchema], with the
      behaviour of Zod 3.22;
    - lib/csv-parser.ts: [validatePayrollRows];
    - lib/payments-adapter.ts: [FakePaymentsAdapter];
    - worker/index.ts (second part of src/__tests__/e2e/bulk-payroll.spec.ts):
      [processPaymentRow] and the job handler of [startWorker];
    - app/api/bulk-payroll/jobs/[id]/route.ts: the cancel handler [POST];
    and, for the further properties at the end of the file,
    - lib/csv-parser.ts: [detectColumnMapping] and [rowsToCSV];
    - lib/errors.ts: the error classes and [formatError];
    - lib/auth.ts (second part of src/lib/payments-adapter.ts): [verifyAuth]
      and [getUserFromRequest];
    - app/api/bulk-payroll/upload/route.ts: the upload handler [POST];
    - app/api/bulk-payroll/jobs/route.ts (second part of the file of the
      cancel handler): the numbers of the pagination.

    JavaScript strings are represented by [string]; every character stands
    for one UTF-16 code unit, so that the strings of the model are the
    JavaScript strings whose code units are all below 256 (ASCII and
    Latin-1).  A JavaScript number is represented by the decimal numeral
    that [Number.prototype.toString] prints for it (sign, digits, power of
    ten): the shortest numeral that is read back as that double.  That
    numeral determines the number, and order between numbers is order
    between numerals.  [Number(text)] rounds the value of the text to the
    nearest double. *)

From stdpp Require Import gmap strings list fin_maps.
From Stdlib Require Import ZArith Lia Ascii String.

Open Scope string_scope.
Open Scope list_scope.
Open Scope Z_scope.

(** ** JavaScript strings *)

Module Js.

Definition code (c : ascii) : Z := Z.of_N (N_of_ascii c).

Definition is_digit (c : ascii) : bool := (48 <=? code c) && (code c <=? 57).
Definition is_upper (c : ascii) : bool := (65 <=? code c) && (code c <=? 90).
Definition is_lower (c : ascii) : bool := (97 <=? code c) && (code c <=? 122).

(** White space removed by [String.prototype.trim] and skipped by
    [Number(...)] and [parseInt(...)], among the code units below 256:
    TAB, LF, VT, FF, CR, SP and the no-break space U+00A0. *)
Definition is_space (c : ascii) : bool :=
  ((9 <=? code c) && (code c <=? 13)) || (code c =? 32) || (code c =? 160).

(** The small letters of Latin-1 that have a capital 32 places below them:
    U+00E0 to U+00FE without the division sign U+00F7. *)
Definition is_latin1_lower (c : ascii) : bool :=
  (224 <=? code c) && (code c <=? 254) && negb (code c =? 247).

(** The capitals of Latin-1 that have a small letter 32 places above them:
    U+00C0 to U+00DE without the multiplication sign U+00D7. *)
Definition is_latin1_upper (c : ascii) : bool :=
  (192 <=? code c) && (code c <=? 222) && negb (code c =? 215).

(** [String.prototype.toUpperCase] on one code unit.  The sharp s U+00DF
    becomes two letters.  The capitals of the micro sign U+00B5 and of
    U+00FF are the code units U+039C and U+0178, which a [string] cannot
    hold: the character itself stands for its capital (one code unit, not
    an ASCII one, in both cases). *)
Definition upper_char (c : ascii) : string :=
  if is_lower c || is_latin1_lower c
  then String (ascii_of_N (N_of_ascii c - 32)) ""
  else if code c =? 223 then "SS"
  else String c "".

Fixpoint toUpperCase (s : string) : string :=
  match s with
  | EmptyString => EmptyString
  | String c r => upper_char c +:+ toUpperCase r
  end.

Fixpoint trimStart (s : string) : string :=
  match s with
  | EmptyString => EmptyString
  | String c r => if is_space c then trimStart r else s
  end.

Fixpoint all_space (s : string) : bool :=
  match s with
  | EmptyString => true
  | String c r => is_space c && all_space r
  end.

Fixpoint trimEnd (s : string) : string :=
  match s with
  | EmptyString => EmptyString
  | String c r => if all_space s then EmptyString else String c (trimEnd r)
  end.

Definition trim (s : string) : string := trimEnd (trimStart s).

Fixpoint forall_chars (p : ascii -> bool) (s : string) : bool :=
  match s with
  | EmptyString => true
  | String c r => p c && forall_chars p r
  end.

(** [span p s] splits [s] after its longest prefix of characters
    satisfying [p]. *)
Fixpoint span (p : ascii -> bool) (s : string) : string * string :=
  match s with
  | EmptyString => (EmptyString, EmptyString)
  | String c r =>
      if p c then let '(a, b) := span p r in (String c a, b)
      else (EmptyString, s)
  end.

Definition len (s : string) : Z := Z.of_nat (String.length s).

(** ** JavaScript numbers *)

(** [Finite neg s e] is the number [(-1)^neg * s * 10^e].  The numbers of
    JavaScript are the doubles: among the values of this type, those that
    [of_decimal] below returns. *)
Inductive number : Type :=
| NaN
| Infinite (negative : bool)
| Finite (negative : bool) (s : N) (e : Z).

Definition isNaN (x : number) : bool :=
  match x with NaN => true | _ => false end.

Definition of_Z (z : Z) : number := Finite (z <? 0) (Z.abs_N z) 0.

(** Signed significand of a finite number scaled to the exponent [m]
    (for [m] at most the number's own exponent). *)
Definition scaled (neg : bool) (s : N) (e m : Z) : Z :=
  (if neg then -1 else 1) * Z.of_N s * 10 ^ (e - m).

(** [x < y] of JavaScript; false as soon as an operand is [NaN]. *)
Definition lt (x y : number) : bool :=
  match x, y with
  | NaN, _ | _, NaN => false
  | Infinite nx, Infinite ny => nx && negb ny
  | Infinite nx, Finite _ _ _ => nx
  | Finite _ _ _, Infinite ny => negb ny
  | Finite n1 s1 e1, Finite n2 s2 e2 =>
      let m := Z.min e1 e2 in scaled n1 s1 e1 m <? scaled n2 s2 e2 m
  end.

(** [x <= y] of JavaScript. *)
Definition le (x y : number) : bool :=
  match x, y with
  | NaN, _ | _, NaN => false
  | Infinite nx, Infinite ny => nx || negb ny
  | Infinite nx, Finite _ _ _ => nx
  | Finite _ _ _, Infinite ny => negb ny
  | Finite n1 s1 e1, Finite n2 s2 e2 =>
      let m := Z.min e1 e2 in scaled n1 s1 e1 m <=? scaled n2 s2 e2 m
  end.

Definition digit_char (d : N) : ascii := ascii_of_N (48 + d mod 10).

(** Decimal digits of a natural number, most significant first. *)
Fixpoint digits_go (fuel : nat) (x : N) (acc : string) : string :=
  match fuel with
  | O => String (digit_char x) acc
  | S f =>
      if (x <? 10)%N then String (digit_char x) acc
      else digits_go f (x / 10) (String (digit_char x) acc)
  end.

Definition digits (x : N) : string := digits_go (N.to_nat (N.log2 x)) x "".

(** The [w] low decimal digits of [x], padded with zeros on the left. *)
Fixpoint fixed_digits (w : nat) (x : N) : string :=
  match w with
  | O => ""
  | S w' => fixed_digits w' (x / 10) +:+ String (digit_char x) ""
  end.

(** Number of decimal digits of a positive number. *)
Definition ndigits (x : N) : Z := Z.of_nat (String.length (digits x)).

(** Removes the trailing zero digits of the significand. *)
Fixpoint strip_zeros (fuel : nat) (s : N) (e : Z) : N * Z :=
  match fuel with
  | O => (s, e)
  | S f =>
      if ((s mod 10 =? 0) && negb (s =? 0))%N then strip_zeros f (s / 10) (e + 1)
      else (s, e)
  end.

Definition normalize (s : N) (e : Z) : N * Z :=
  if (s =? 0)%N then (0%N, 0) else strip_zeros (N.to_nat (N.log2 s)) s e.

(** [Number.prototype.toString] of a positive finite number with
    significand [s] (no trailing zero) and exponent [e]; [n] is the
    position of the decimal point as in ECMA-262 (Number::toString). *)
Definition positive_toString (s : N) (e : Z) : string :=
  let k := ndigits s in
  let n := k + e in
  if (-6 <? n) && (n <=? 21) then
    if 0 <=? e then digits (s * 10 ^ Z.to_N e)
    else
      let p := (10 ^ Z.to_N (- e))%N in
      digits (s / p) +:+ "." +:+ fixed_digits (Z.to_nat (- e)) (s mod p)
  else
    let x := n - 1 in
    let mant :=
      match digits s with
      | String d EmptyString => String d ""
      | String d r => String d ("." +:+ r)
      | EmptyString => ""
      end in
    mant +:+ "e" +:+ (if x <? 0 then "-" else "+") +:+ digits (Z.abs_N x).

Definition toString (x : number) : string :=
  match x with
  | NaN => "NaN"
  | Infinite neg => if neg then "-Infinity" else "Infinity"
  | Finite neg s e =>
      let '(s', e') := normalize s e in
      if (s' =? 0)%N then "0"
      else (if neg then "-" else "") +:+ positive_toString s' e'
  end.

(** *** Doubles

    A positive double is [m * 2^p] with [2^52 <= m < 2^53] and
    [-1074 <= p <= 971], or [0 < m < 2^52] and [p = -1074]. *)

(** The integer nearest to [a / b], for [0 < b]; of two nearest ones, the
    even one. *)
Definition round_half_even (a b : Z) : Z :=
  let q := a / b in
  let r := a mod b in
  if 2 * r <? b then q
  else if b <? 2 * r then q + 1
  else if Z.even q then q else q + 1.

(** [x * 2^k] for [0 <= k], and [x] otherwise. *)
Definition times_pow (base x k : Z) : Z := x * base ^ Z.max 0 k.

(** The integer part of the binary logarithm of [a / b], for positive [a]
    and [b]. *)
Definition floor_log2 (a b : Z) : Z :=
  let d := Z.log2 a - Z.log2 b in
  if times_pow 2 b d <=? times_pow 2 a (- d) then d else d - 1.

(** The double nearest to [a / b], for positive [a] and [b], as its
    significand and its exponent; an exponent above 971 means that the
    value is out of range (the result is infinite). *)
Definition to_double (a b : Z) : Z * Z :=
  let p := Z.max (floor_log2 a b - 52) (-1074) in
  let m := round_half_even (times_pow 2 a (- p)) (times_pow 2 b p) in
  if m =? 2 ^ 53 then (2 ^ 52, p + 1) else (m, p).

(** The double nearest to [s * 10^e]. *)
Definition decimal_to_double (s e : Z) : Z * Z :=
  to_double (times_pow 10 s e) (times_pow 10 1 (- e)).

Definition reads_back (m p s e : Z) : bool :=
  let '(m', p') := decimal_to_double s e in (m' =? m) && (p' =? p).

(** The digits of [Number::toString] for the double [m * 2^p]: the
    multiples of [10^e] next to it are tried for [e], [e - 1], ... until
    one of them is read back as this double; when both are, the nearer one
    is taken, and the even one when they are as near. *)
Fixpoint shortest_from (fuel : nat) (m p e : Z) : Z * Z :=
  let a := times_pow 10 (times_pow 2 m p) (- e) in
  let b := times_pow 10 (times_pow 2 1 (- p)) e in
  match fuel with
  | O => (round_half_even a b, e)
  | S f =>
      let lo := a / b in
      let hi := lo + 1 in
      let ok_lo := (0 <? lo) && reads_back m p lo e in
      let ok_hi := reads_back m p hi e in
      if ok_lo && ok_hi then (round_half_even a b, e)
      else if ok_lo then (lo, e)
      else if ok_hi then (hi, e)
      else shortest_from f m p (e - 1)
  end.

(** A power of ten above [m * 2^p], from the number of its bits. *)
Definition first_exponent (m p : Z) : Z :=
  let t := Z.log2 m + 1 + p in
  if 0 <=? t then t * 302 / 1000 + 1 else - ((- t) * 301 / 1000).

Definition shortest (m p : Z) : Z * Z :=
  shortest_from 40 m p (first_exponent m p).

(** The number that the numeral [s * 10^e] is read as: the nearest double,
    zero below the half of the least positive double, infinite from
    [2^1024 - 2^970] on. *)
Definition of_decimal (neg : bool) (s : N) (e : Z) : number :=
  if (s =? 0)%N then Finite neg 0 0
  else if 310 <? ndigits s + e then Infinite neg
  else if ndigits s + e <? -330 then Finite neg 0 0
  else
    let '(m, p) := decimal_to_double (Z.of_N s) e in
    if m =? 0 then Finite neg 0 0
    else if 971 <? p then Infinite neg
    else let '(s', e') := shortest m p in Finite neg (Z.to_N s') e'.

(** *** [Number(string)]: StringToNumber of ECMA-262 *)

Definition digit_val (c : ascii) : N := N_of_ascii c - 48.

Fixpoint digits_value (acc : N) (s : string) : N :=
  match s with
  | EmptyString => acc
  | String c r => digits_value (acc * 10 + digit_val c) r
  end.

Definition hex_val (c : ascii) : option N :=
  if is_digit c then Some (digit_val c)
  else if (97 <=? code c) && (code c <=? 102) then Some (N_of_ascii c - 87)%N
  else if (65 <=? code c) && (code c <=? 70) then Some (N_of_ascii c - 55)%N
  else None.

Fixpoint radix_value (radix : N) (acc : N) (s : string) : option N :=
  match s with
  | EmptyString => Some acc
  | String c r =>
      match hex_val c with
      | Some d => if (d <? radix)%N then radix_value radix (acc * radix + d) r else None
      | None => None
      end
  end.

Definition radix_literal (radix : N) (body : string) : number :=
  match body with
  | EmptyString => NaN
  | _ => match radix_value radix 0 body with
         | Some v => of_decimal false v 0
         | None => NaN
         end
  end.

(** ExponentPart: [e] or [E], an optional sign, at least one digit, and
    nothing after it.  [None] when the text is not an exponent part. *)
Definition exponent_part (s : string) : option Z :=
  match s with
  | EmptyString => Some 0
  | String c r =>
      if (code c =? 101) || (code c =? 69) then
        let '(neg, r1) :=
          match r with
          | String "-" r' => (true, r')
          | String "+" r' => (false, r')
          | _ => (false, r)
          end in
        match r1 with
        | EmptyString => None
        | _ => if forall_chars is_digit r1
               then Some ((if neg then -1 else 1) * Z.of_N (digits_value 0 r1))
               else None
        end
      else None
  end.

(** StrUnsignedDecimalLiteral. *)
Definition unsigned_decimal (neg : bool) (s : string) : number :=
  if String.eqb s "Infinity" then Infinite neg
  else
    let '(ip, r1) := span is_digit s in
    let '(fp, r2) :=
      match r1 with
      | String "." r' => span is_digit r'
      | _ => (EmptyString, r1)
      end in
    match ip, fp with
    | EmptyString, EmptyString => NaN
    | _, _ =>
        match exponent_part r2 with
        | Some x => of_decimal neg (digits_value 0 (ip +:+ fp)) (x - len fp)
        | None => NaN
        end
    end.

Definition Number (str : string) : number :=
  match trim str with
  | EmptyString => Finite false 0 0
  | String "0" (String "x" b) | String "0" (String "X" b) => radix_literal 16 b
  | String "0" (String "o" b) | String "0" (String "O" b) => radix_literal 8 b
  | String "0" (String "b" b) | String "0" (String "B" b) => radix_literal 2 b
  | String "-" r => unsigned_decimal true r
  | String "+" r => unsigned_decimal false r
  | t => unsigned_decimal false t
  end.

End Js.

(** ** Dates: [new Date(...)] on date-only strings, local midnight *)

Module JsDate.

Definition msPerDay : Z := 86400000.

(** Days from 1970-01-01 to the civil date [y]-[m]-[d] of the proleptic
    Gregorian calendar (the day number of ECMA-262, MakeDay). *)
Definition days_from_civil (y m d : Z) : Z :=
  let y' := if m <=? 2 then y - 1 else y in
  let era := y' / 400 in
  let yoe := y' - era * 400 in
  let mp := if 2 <? m then m - 3 else m + 9 in
  let doy := (153 * mp + 2) / 5 + d - 1 in
  let doe := yoe * 365 + yoe / 4 - yoe / 100 + doy in
  era * 146097 + doe - 719468.

Definition two_digits (a b : ascii) : Z :=
  Z.of_N (Js.digit_val a) * 10 + Z.of_N (Js.digit_val b).

(** Time value of [new Date(val)] for a date-only string: UTC midnight of
    that date; [None] is the invalid date (time value NaN).  The month must
    be 01..12 and the day 01..31; as in V8 (Node.js) a day beyond the end
    of the month rolls over into the next month. *)
Definition parse (val : string) : option Z :=
  match val with
  | String y1 (String y2 (String y3 (String y4 (String "-"
      (String m1 (String m2 (String "-" (String d1 (String d2 EmptyString))))))))) =>
      if Js.forall_chars Js.is_digit
           (String y1 (String y2 (String y3 (String y4
              (String m1 (String m2 (String d1 (String d2 ""))))))))
      then
        let y := two_digits y1 y2 * 100 + two_digits y3 y4 in
        let m := two_digits m1 m2 in
        let d := two_digits d1 d2 in
        if (1 <=? m) && (m <=? 12) && (1 <=? d) && (d <=? 31)
        then Some ((days_from_civil y m 1 + d - 1) * msPerDay)
        else None
      else None
  | _ => None
  end.

(** The clock of the process: the current time (milliseconds since the
    epoch) and the offset of local time from UTC in minutes, taken as
    constant (no daylight-saving change inside the window). *)
Record Clock := { now : Z; tz_offset_min : Z }.

(** [today.setHours(0, 0, 0, 0)]: local midnight of the current day. *)
Definition local_midnight (c : Clock) : Z :=
  let off := tz_offset_min c * 60000 in
  (now c + off) / msPerDay * msPerDay - off.

(** [d.setDate(d.getDate() + n)]. *)
Definition add_days (t n : Z) : Z := t + n * msPerDay.

End JsDate.

(** ** validation.ts *)

Module Validation.

(** A value of a parsed CSV or JSON row, or of a property that a row
    inherits: an object (an array too) or a function. *)
Inductive value : Type :=
| VUndefined
| VNull
| VStr (s : string)
| VNum (n : Js.number)
| VBool (b : bool)
| VObject
| VFunction.

(** An optional, nullable string of a validated row. *)
Inductive optstr : Type :=
| OUndefined
| ONull
| OStr (s : string).

(** The input of a schema: the seven fields of an object. *)
Record Candidate := {
  in_employee_id : value;
  in_employee_email : value;
  in_amount : value;
  in_currency : value;
  in_pay_date : value;
  in_description : value;
  in_external_reference : value }.

(** [z.infer<typeof PaymentRowSchema>]. *)
Record PaymentRow := {
  employee_id : optstr;
  employee_email : optstr;
  amount : Js.number;
  currency : string;
  pay_date : string;
  description : optstr;
  external_reference : optstr }.

(** A Zod issue: [path[0]] ([None] for an issue of the whole object) and
    the message. *)
Record Issue := { path : option string; message : string }.

(** Outcome of parsing one value (Zod 3: valid, dirty, aborted).  A dirty
    outcome still carries the value; an aborted one does not. *)
Inductive parsed (A : Type) : Type :=
| Valid (v : A)
| Dirty (v : A) (issues : list Issue)
| Aborted (issues : list Issue).
Arguments Valid {A} v.
Arguments Dirty {A} v issues.
Arguments Aborted {A} issues.

Definition issues_of {A} (p : parsed A) : list Issue :=
  match p with
  | Valid _ => []
  | Dirty _ i | Aborted i => i
  end.

Definition is_aborted {A} (p : parsed A) : bool :=
  match p with Aborted _ => true | _ => false end.

Definition value_of {A} (dflt : A) (p : parsed A) : A :=
  match p with
  | Valid v | Dirty v _ => v
  | Aborted _ => dflt
  end.

(** A value with the issues found by its checks. *)
Definition checked {A} (v : A) (issues : list Issue) : parsed A :=
  match issues with
  | [] => Valid v
  | _ => Dirty v issues
  end.

(** One check or refinement: an issue when the condition fails. *)
Definition check (field : string) (ok : bool) (msg : string) : list Issue :=
  if ok then [] else [{| path := Some field; message := msg |}].

Definition ISO4217_CURRENCIES : list string :=
  [ "USD"; "EUR"; "GBP"; "JPY"; "CAD"; "AUD"; "CHF"; "CNY";
    "SEK"; "NZD"; "MXN"; "SGD"; "HKD"; "NOK"; "KRW"; "TRY";
    "RUB"; "INR"; "BRL"; "ZAR"; "AED"; "SAR"; "QAR"; "KWD";
    "BHD"; "OMR"; "JOD"; "ILS"; "BGN"; "HRK"; "CZK"; "DKK";
    "HUF"; "PLN"; "RON"; "HKD"; "IDR"; "MYR"; "PHP"; "THB";
    "VND"; "PKR"; "BDT"; "LKR"; "MMK"; "KHR"; "LAK" ].

Definition includes (l : list string) (s : string) : bool :=
  existsb (String.eqb s) l.

(** [/^[A-Za-z0-9_-]{3,64}$|^$/] *)
Definition id_char (c : ascii) : bool :=
  Js.is_upper c || Js.is_lower c || Js.is_digit c
  || (Js.code c =? 95) || (Js.code c =? 45).

Definition employee_id_regex (s : string) : bool :=
  String.eqb s ""
  || ((3 <=? Js.len s) && (Js.len s <=? 64) && Js.forall_chars id_char s).

(** [/^\d+(\.\d{1,2})?$/] *)
Definition amount_regex (s : string) : bool :=
  let '(ip, r) := Js.span Js.is_digit s in
  match ip with
  | EmptyString => false
  | _ =>
      match r with
      | EmptyString => true
      | String "." f =>
          Js.forall_chars Js.is_digit f && (1 <=? Js.len f) && (Js.len f <=? 2)
      | _ => false
      end
  end.

(** [/^\d{4}-\d{2}-\d{2}$/] *)
Definition pay_date_regex (s : string) : bool :=
  match s with
  | String y1 (String y2 (String y3 (String y4 (String "-"
      (String m1 (String m2 (String "-" (String d1 (String d2 EmptyString))))))))) =>
      Js.forall_chars Js.is_digit
        (String y1 (String y2 (String y3 (String y4
           (String m1 (String m2 (String d1 (String d2 ""))))))))
  | _ => false
  end.

(** The second refinement of [pay_date] on a text of the form YYYY-MM-DD:
    [date >= minDate && date <= maxDate] with [date = new Date(val)],
    [today] the local midnight, [minDate] 30 days before it and [maxDate]
    365 days after it. *)
Definition pay_date_window (clock : JsDate.Clock) (val : string) : bool :=
  let today := JsDate.local_midnight clock in
  let minDate := JsDate.add_days today (-30) in
  let maxDate := JsDate.add_days today 365 in
  match JsDate.parse val with
  | Some date => (minDate <=? date) && (date <=? maxDate)
  | None => false
  end.

(** What the schemas depend on besides the candidate: the clock; the test
    behind [z.string().email()] (Zod's own regular expression); and the
    time value of [new Date(val)] for a text that is not of the form
    YYYY-MM-DD, which the other formats of ECMA-262 and the fallback
    parser of V8 decide ([None] is the invalid date). *)
Record Env := {
  clock : JsDate.Clock;
  is_email : string -> bool;
  other_date : string -> option Z }.

(** The second refinement of [pay_date] on a text that is not of the form
    YYYY-MM-DD. *)
Definition other_date_window (env : Env) (val : string) : bool :=
  let today := JsDate.local_midnight (clock env) in
  let minDate := JsDate.add_days today (-30) in
  let maxDate := JsDate.add_days today 365 in
  match other_date env val with
  | Some date => (minDate <=? date) && (date <=? maxDate)
  | None => false
  end.

Definition received (v : value) : string :=
  match v with
  | VUndefined => "undefined"
  | VNull => "null"
  | VStr _ => "string"
  | VNum Js.NaN => "nan"
  | VNum _ => "number"
  | VBool _ => "boolean"
  | VObject => "object"
  | VFunction => "function"
  end.

(** Zod's [invalid_type] issue. *)
Definition invalid_type (field expected : string) (v : value) : list Issue :=
  [{| path := Some field;
      message := match v with
                 | VUndefined => "Required"
                 | _ => "Expected " +:+ expected +:+ ", received " +:+ received v
                 end |}].

(** [z.string()<checks>.optional().nullable()] *)
Definition optional_nullable_string (field : string)
    (checks : string -> list Issue) (v : value) : parsed optstr :=
  match v with
  | VUndefined => Valid OUndefined
  | VNull => Valid ONull
  | VStr s => checked (OStr s) (checks s)
  | _ => Aborted (invalid_type field "string" v)
  end.

Definition no_checks (s : string) : list Issue := [].

(** *** PaymentRowSchema, field by field *)

Definition schema_employee_id (v : value) : parsed optstr :=
  optional_nullable_string "employee_id"
    (fun s => check "employee_id" (employee_id_regex s) "Invalid") v.

Definition schema_employee_email (env : Env) (v : value) : parsed optstr :=
  optional_nullable_string "employee_email"
    (fun s => check "employee_email" (is_email env s) "Invalid email") v.

Definition amount_checks (n : Js.number) : list Issue :=
  check "amount" (Js.lt (Js.of_Z 0) n) "Amount must be greater than 0"
  ++ check "amount" (Js.le n (Js.of_Z 1000000)) "Amount cannot exceed 1,000,000"
  ++ check "amount" (amount_regex (Js.toString n))
       "Amount must have at most 2 decimal places".

Definition schema_amount (v : value) : parsed Js.number :=
  match v with
  | VNum Js.NaN => Aborted (invalid_type "amount" "number" v)
  | VNum n => checked n (amount_checks n)
  | _ => Aborted (invalid_type "amount" "number" v)
  end.

Definition currency_checks (val : string) : list Issue :=
  check "currency" (Js.len val =? 3) "Currency code must be 3 characters"
  ++ check "currency"
       (includes ISO4217_CURRENCIES
          (if Js.len val =? 3 then Js.toUpperCase val else val))
       "Invalid ISO 4217 currency code".

(** The transform to upper case runs when the length check passed; the
    refinement runs on the value it is handed in both cases. *)
Definition schema_currency (v : value) : parsed string :=
  match v with
  | VStr val =>
      checked (if Js.len val =? 3 then Js.toUpperCase val else val)
              (currency_checks val)
  | _ => Aborted (invalid_type "currency" "string" v)
  end.

(** Both refinements run, the second one also on a text that the first
    one rejects. *)
Definition pay_date_checks (env : Env) (val : string) : list Issue :=
  check "pay_date" (pay_date_regex val) "pay_date must be in YYYY-MM-DD format"
  ++ check "pay_date"
       (if pay_date_regex val then pay_date_window (clock env) val
        else other_date_window env val)
       "pay_date must be within ±30 days from today (past) and +365 days (future)".

Definition schema_pay_date (env : Env) (v : value) : parsed string :=
  match v with
  | VStr val => checked val (pay_date_checks env val)
  | _ => Aborted (invalid_type "pay_date" "string" v)
  end.

Definition schema_description (v : value) : parsed optstr :=
  optional_nullable_string "description"
    (fun s => check "description" (Js.len s <=? 255)
                "String must contain at most 255 character(s)") v.

Definition schema_external_reference (v : value) : parsed optstr :=
  optional_nullable_string "external_reference" no_checks v.

(** JavaScript truthiness of an optional string. *)
Definition truthy (o : optstr) : bool :=
  match o with
  | OStr s => negb (String.eqb s "")
  | _ => false
  end.

(** [a || b] on optional strings. *)
Definition or_else (a b : optstr) : optstr := if truthy a then a else b.

Definition cross_field_issue : Issue :=
  {| path := None;
     message := "At least one of employee_id or employee_email must be provided" |}.

(** The refinement of the whole object:
    [(data) => data.employee_id || data.employee_email]. *)
Definition cross_field (data : PaymentRow) : list Issue :=
  if truthy (or_else (employee_id data) (employee_email data)) then []
  else [cross_field_issue].

Inductive SafeParseResult : Type :=
| Success (data : PaymentRow)
| Failure (issues : list Issue).

(** The outcomes of the seven fields of [PaymentRowSchema], in the order
    of the shape. *)
Record FieldResults := {
  p_employee_id : parsed optstr;
  p_employee_email : parsed optstr;
  p_amount : parsed Js.number;
  p_currency : parsed string;
  p_pay_date : parsed string;
  p_description : parsed optstr;
  p_external_reference : parsed optstr }.

Definition parse_fields (env : Env) (c : Candidate) : FieldResults :=
  {| p_employee_id := schema_employee_id (in_employee_id c);
     p_employee_email := schema_employee_email env (in_employee_email c);
     p_amount := schema_amount (in_amount c);
     p_currency := schema_currency (in_currency c);
     p_pay_date := schema_pay_date env (in_pay_date c);
     p_description := schema_description (in_description c);
     p_external_reference := schema_external_reference (in_external_reference c) |}.

Definition field_issues (r : FieldResults) : list Issue :=
  issues_of (p_employee_id r) ++ issues_of (p_employee_email r)
  ++ issues_of (p_amount r) ++ issues_of (p_currency r)
  ++ issues_of (p_pay_date r) ++ issues_of (p_description r)
  ++ issues_of (p_external_reference r).

Definition any_aborted (r : FieldResults) : bool :=
  is_aborted (p_employee_id r) || is_aborted (p_employee_email r)
  || is_aborted (p_amount r) || is_aborted (p_currency r)
  || is_aborted (p_pay_date r) || is_aborted (p_description r)
  || is_aborted (p_external_reference r).

Definition parsed_data (r : FieldResults) : PaymentRow :=
  {| employee_id := value_of OUndefined (p_employee_id r);
     employee_email := value_of OUndefined (p_employee_email r);
     amount := value_of Js.NaN (p_amount r);
     currency := value_of "" (p_currency r);
     pay_date := value_of "" (p_pay_date r);
     description := value_of OUndefined (p_description r);
     external_reference := value_of OUndefined (p_external_reference r) |}.

(** [PaymentRowSchema.safeParse]: every field is parsed and its issues
    collected in the order of the shape; when a field is aborted (wrong
    type) the object is aborted and the refinement of the object does not
    run; otherwise it runs, on the parsed values. *)
Definition PaymentRowSchema (env : Env) (c : Candidate) : SafeParseResult :=
  let r := parse_fields env c in
  if any_aborted r then Failure (field_issues r)
  else
    match field_issues r ++ cross_field (parsed_data r) with
    | [] => Success (parsed_data r)
    | issues => Failure issues
    end.

(** *** RawPaymentRowSchema: coercion, then [.pipe(PaymentRowSchema)] *)

(** [z.string().optional().nullable().default('')] *)
Definition raw_optional_string (field : string) (v : value) : parsed value :=
  match v with
  | VUndefined => Valid (VStr "")
  | VNull => Valid VNull
  | VStr s => Valid (VStr s)
  | _ => Aborted (invalid_type field "string" v)
  end.

(** [z.string().or(z.number()).refine(!isNaN(Number(val))).transform(Number)] *)
Definition raw_amount (v : value) : parsed value :=
  match v with
  | VStr s =>
      if Js.isNaN (Js.Number s)
      then Dirty v [{| path := Some "amount"; message := "amount must be a valid number" |}]
      else Valid (VNum (Js.Number s))
  | VNum Js.NaN => Aborted [{| path := Some "amount"; message := "Invalid input" |}]
  | VNum n => Valid (VNum n)
  | _ => Aborted [{| path := Some "amount"; message := "Invalid input" |}]
  end.

(** [z.string().transform(f)] *)
Definition raw_string (field : string) (f : string -> string) (v : value)
  : parsed value :=
  match v with
  | VStr s => Valid (VStr (f s))
  | _ => Aborted (invalid_type field "string" v)
  end.

(** The input stage of [RawPaymentRowSchema]: its issues and the object it
    hands over. *)
Definition coercion_issues (c : Candidate) : list Issue :=
  issues_of (raw_optional_string "employee_id" (in_employee_id c))
  ++ issues_of (raw_optional_string "employee_email" (in_employee_email c))
  ++ issues_of (raw_amount (in_amount c))
  ++ issues_of (raw_string "currency" (fun val => Js.toUpperCase (Js.trim val))
                  (in_currency c))
  ++ issues_of (raw_string "pay_date" Js.trim (in_pay_date c))
  ++ issues_of (raw_optional_string "description" (in_description c))
  ++ issues_of (raw_optional_string "external_reference" (in_external_reference c)).

Definition coerced (c : Candidate) : Candidate :=
  {| in_employee_id :=
       value_of VUndefined (raw_optional_string "employee_id" (in_employee_id c));
     in_employee_email :=
       value_of VUndefined (raw_optional_string "employee_email" (in_employee_email c));
     in_amount := value_of VUndefined (raw_amount (in_amount c));
     in_currency :=
       value_of VUndefined
         (raw_string "currency" (fun val => Js.toUpperCase (Js.trim val)) (in_currency c));
     in_pay_date := value_of VUndefined (raw_string "pay_date" Js.trim (in_pay_date c));
     in_description :=
       value_of VUndefined (raw_optional_string "description" (in_description c));
     in_external_reference :=
       value_of VUndefined
         (raw_optional_string "external_reference" (in_external_reference c)) |}.

(** [RawPaymentRowSchema.safeParse]: the second schema runs only on an
    input stage without any issue ([ZodPipeline]). *)
Definition RawPaymentRowSchema (env : Env) (c : Candidate) : SafeParseResult :=
  match coercion_issues c with
  | [] => PaymentRowSchema env (coerced c)
  | issues => Failure issues
  end.

End Validation.

(** ** csv-parser.ts *)

Module CsvParser.
Import Validation.

(** The column of the input mapped to each field; [None] is [null]. *)
Record ColumnMapping := {
  map_employee_id : option string;
  map_employee_email : option string;
  map_amount : option string;
  map_currency : option string;
  map_pay_date : option string;
  map_description : option string;
  map_external_reference : option string }.

(** The functions that every object inherits from [Object.prototype]. *)
Definition prototype_functions : list string :=
  [ "constructor"; "__defineGetter__"; "__defineSetter__"; "hasOwnProperty";
    "__lookupGetter__"; "__lookupSetter__"; "isPrototypeOf";
    "propertyIsEnumerable"; "toString"; "valueOf"; "toLocaleString" ].

(** The value of a property that an object does not have of its own: the
    prototype itself for [__proto__], a function of the prototype, or
    [undefined]. *)
Definition inherited (name : string) : value :=
  if String.eqb name "__proto__" then VObject
  else if includes prototype_functions name then VFunction
  else VUndefined.

(** [rawRow[name]]: a row is an object whose own properties are the
    entries of the map. *)
Definition get (rawRow : gmap string value) (name : string) : value :=
  match rawRow !! name with
  | Some v => v
  | None => inherited name
  end.

(** [if (csvColumn && rawRow[csvColumn] !== undefined)
      mappedRow[field] = rawRow[csvColumn]] *)
Definition mapped_field (rawRow : gmap string value) (csvColumn : option string)
  : value :=
  match csvColumn with
  | Some col => if String.eqb col "" then VUndefined else get rawRow col
  | None => VUndefined
  end.

Definition mappedRow (columnMapping : ColumnMapping) (rawRow : gmap string value)
  : Candidate :=
  {| in_employee_id := mapped_field rawRow (map_employee_id columnMapping);
     in_employee_email := mapped_field rawRow (map_employee_email columnMapping);
     in_amount := mapped_field rawRow (map_amount columnMapping);
     in_currency := mapped_field rawRow (map_currency columnMapping);
     in_pay_date := mapped_field rawRow (map_pay_date columnMapping);
     in_description := mapped_field rawRow (map_description columnMapping);
     in_external_reference :=
       mapped_field rawRow (map_external_reference columnMapping) |}.

Record ValidationError := {
  ve_rowIndex : nat;
  ve_field : option string;
  ve_error : string }.

Record InvalidRow := {
  inv_rowIndex : nat;
  inv_data : gmap string value;
  inv_errors : list ValidationError }.

Record DuplicateRow := {
  dup_rowIndex : nat;
  dup_data : gmap string value;
  duplicateOf : nat }.

(** [ParsedPayrollCSV] (without [headers], which no rule reads). *)
Record ParsedPayrollCSV := {
  totalRows : nat;
  validRows : list PaymentRow;
  invalidRows : list InvalidRow;
  duplicates : list DuplicateRow }.

(** Conversion of an optional string inside a template literal. *)
Definition template (o : optstr) : string :=
  match o with
  | OUndefined => "undefined"
  | ONull => "null"
  | OStr s => s
  end.

(** [`${employee_id || employee_email}:${amount}:${pay_date}`] *)
Definition paymentKey (data : PaymentRow) : string :=
  template (or_else (employee_id data) (employee_email data))
  +:+ ":" +:+ Js.toString (amount data) +:+ ":" +:+ pay_date data.

Definition issue_error (i : nat) (issue : Issue) : ValidationError :=
  {| ve_rowIndex := i; ve_field := path issue; ve_error := message issue |}.

(** The variables of the loop of [validatePayrollRows]. *)
Record LoopState := {
  st_validRows : list PaymentRow;
  st_invalidRows : list InvalidRow;
  st_duplicates : list DuplicateRow;
  seenPayments : gmap string nat }.

(** One iteration of the loop, for row [i]. *)
Definition validate_row (env : Env) (columnMapping : ColumnMapping)
    (i : nat) (rawRow : gmap string value) (st : LoopState) : LoopState :=
  match RawPaymentRowSchema env (mappedRow columnMapping rawRow) with
  | Failure issues =>
      {| st_validRows := st_validRows st;
         st_invalidRows :=
           st_invalidRows st
           ++ [{| inv_rowIndex := i; inv_data := rawRow;
                  inv_errors := map (issue_error i) issues |}];
         st_duplicates := st_duplicates st;
         seenPayments := seenPayments st |}
  | Success data =>
      match seenPayments st !! paymentKey data with
      | Some first =>
          {| st_validRows := st_validRows st;
             st_invalidRows := st_invalidRows st;
             st_duplicates :=
               st_duplicates st
               ++ [{| dup_rowIndex := i; dup_data := rawRow; duplicateOf := first |}];
             seenPayments := seenPayments st |}
      | None =>
          {| st_validRows := st_validRows st ++ [data];
             st_invalidRows := st_invalidRows st;
             st_duplicates := st_duplicates st;
             seenPayments := <[paymentKey data := i]> (seenPayments st) |}
      end
  end.

(** [for (let i = 0; i < rows.length; i++)], from index [i] on. *)
Fixpoint validate_loop (env : Env) (columnMapping : ColumnMapping)
    (rows : list (gmap string value)) (i : nat) (st : LoopState) : LoopState :=
  match rows with
  | [] => st
  | rawRow :: rest =>
      validate_loop env columnMapping rest (S i)
        (validate_row env columnMapping i rawRow st)
  end.

Definition validatePayrollRows (env : Env) (rows : list (gmap string value))
    (columnMapping : ColumnMapping) : ParsedPayrollCSV :=
  let st :=
    validate_loop env columnMapping rows 0%nat
      {| st_validRows := []; st_invalidRows := []; st_duplicates := [];
         seenPayments := ∅ |} in
  {| totalRows := List.length rows;
     validRows := st_validRows st;
     invalidRows := st_invalidRows st;
     duplicates := st_duplicates st |}.

End CsvParser.

(** ** payments-adapter.ts *)

Module PaymentsAdapter.
Import Validation.

(** The [rawResponse] objects of the fake adapter ([provider] is always
    ["fake"]). *)
Inductive RawResponse : Type :=
| RawCompleted (timestamp : string) (amount : Js.number) (currency : string)
| RawFailed (timestamp : string) (reason : string).

Record PaymentResult := {
  success : bool;
  id : option string;
  error : option string;
  rawResponse : option RawResponse }.

Record FakePaymentsAdapter := {
  successRate : Js.number;
  latencyMs : Z;
  seed : Z }.

Record Options := {
  opt_successRate : option Js.number;
  opt_latencyMs : option Z;
  opt_seed : option Z }.

(** The constructor: [options.x ?? default]. *)
Definition new_FakePaymentsAdapter (options : Options) : FakePaymentsAdapter :=
  {| successRate := default (Js.Finite false 8 (-1)) (opt_successRate options);
     latencyMs := default 100 (opt_latencyMs options);
     seed := default 42 (opt_seed options) |}.

(** Conversion to a 32-bit signed integer, as done by [<<] and [&]. *)
Definition ToInt32 (x : Z) : Z := (x + 2 ^ 31) mod 2 ^ 32 - 2 ^ 31.

(** The body of the loop of [seededRandom]:
    [hash = (hash << 5) - hash + input.charCodeAt(i); hash = hash & hash]. *)
Definition hash_step (hash : Z) (c : ascii) : Z :=
  ToInt32 (ToInt32 (ToInt32 hash * 32) - hash + Js.code c).

Fixpoint hash_loop (hash : Z) (input : string) : Z :=
  match input with
  | EmptyString => hash
  | String c r => hash_loop (hash_step hash c) r
  end.

(** [Math.abs(hash) % 1000], the numerator of the result of
    [seededRandom]. *)
Definition seededRandom_milli (this : FakePaymentsAdapter) (input : string) : Z :=
  Z.abs (hash_loop (seed this) input) mod 1000.

(** [seededRandom]: [(Math.abs(hash) % 1000) / 1000]. *)
Definition seededRandom (this : FakePaymentsAdapter) (input : string) : Js.number :=
  Js.Finite false (Z.to_N (seededRandom_milli this input)) (-3).

Definition errors : list string :=
  [ "Insufficient funds"; "Invalid account"; "Daily limit exceeded";
    "Temporary service unavailable"; "Invalid currency for recipient" ].

(** What a call reads from outside the adapter: [Date.now()], the text
    [Math.random().toString(36).substr(2, 9)] and
    [new Date().toISOString()]. *)
Record Ambient := {
  date_now : Z;
  random_text : string;
  iso_timestamp : string }.

Definition payment_key (input : PaymentRow) : string :=
  CsvParser.template (or_else (employee_id input) (employee_email input))
  +:+ ":" +:+ Js.toString (amount input) +:+ ":" +:+ pay_date input.

(** [createPayment]: the time waited ([this.delay(this.latencyMs)]) and the
    result. *)
Definition createPayment (this : FakePaymentsAdapter) (amb : Ambient)
    (input : PaymentRow) : Z * PaymentResult :=
  let key := payment_key input in
  let rand := seededRandom this key in
  (latencyMs this,
   if Js.lt rand (successRate this) then
     {| success := true;
        id := Some ("fake_" +:+ Js.toString (Js.of_Z (date_now amb)) +:+ "_"
                    +:+ random_text amb);
        error := None;
        rawResponse :=
          Some (RawCompleted (iso_timestamp amb) (amount input) (currency input)) |}
   else
     let errorIndex :=
       seededRandom_milli this (key +:+ "_error") * Z.of_nat (List.length errors) / 1000 in
     let e := nth_error errors (Z.to_nat errorIndex) in
     {| success := false;
        id := None;
        error := e;
        rawResponse :=
          match e with
          | Some reason => Some (RawFailed (iso_timestamp amb) reason)
          | None => Some (RawFailed (iso_timestamp amb) "")
          end |}).

End PaymentsAdapter.

(** ** The database (prisma/schema.prisma) *)

Module Job.

Inductive Status : Type := QUEUED | PROCESSING | COMPLETED | FAILED | CANCELLED.

(** [BulkPayrollJob] (without the two JSON snapshots). *)
Record t := {
  id : string;
  uploaderId : string;
  status : Status;
  totalRows : Z;
  validRows : Z;
  invalidRows : Z;
  processedRows : Z;
  failedRows : Z;
  startedAt : option Z;
  completedAt : option Z }.

Definition terminal (s : Status) : bool :=
  match s with
  | COMPLETED | FAILED | CANCELLED => true
  | QUEUED | PROCESSING => false
  end.

Definition Status_eqb (a b : Status) : bool :=
  match a, b with
  | QUEUED, QUEUED | PROCESSING, PROCESSING | COMPLETED, COMPLETED
  | FAILED, FAILED | CANCELLED, CANCELLED => true
  | _, _ => false
  end.

End Job.

Module Row.

Inductive Status : Type := PENDING | SUCCESS | FAILED.

(** [BulkPayrollRow] (without the snapshot of the input). *)
Record t := {
  id : string;
  jobId : string;
  rowIndex : Z;
  normalized : Validation.PaymentRow;
  status : Status;
  attempts : Z;
  maxRetries : Z;
  providerResponse : option PaymentsAdapter.RawResponse;
  errorMessage : option string }.

Definition Status_eqb (a b : Status) : bool :=
  match a, b with
  | PENDING, PENDING | SUCCESS, SUCCESS | FAILED, FAILED => true
  | _, _ => false
  end.

End Row.

Module Prisma.

Record Db := {
  bulkPayrollJob : gmap string Job.t;
  bulkPayrollRow : list Row.t }.

(** [findUnique({ where: { id }, include: { rows: true } })] *)
Definition findUnique_with_rows (db : Db) (jobId : string)
  : option (Job.t * list Row.t) :=
  match bulkPayrollJob db !! jobId with
  | Some job =>
      Some (job, filter (fun r => Row.jobId r = jobId) (bulkPayrollRow db))
  | None => None
  end.

(** [bulkPayrollJob.update({ where: { id }, data })] on an existing job. *)
Definition update_job (db : Db) (jobId : string) (data : Job.t -> Job.t) : Db :=
  {| bulkPayrollJob := alter data jobId (bulkPayrollJob db);
     bulkPayrollRow := bulkPayrollRow db |}.

(** [bulkPayrollRow.update({ where: { id }, data })] on an existing row. *)
Definition update_row (db : Db) (rowId : string) (data : Row.t -> Row.t) : Db :=
  {| bulkPayrollJob := bulkPayrollJob db;
     bulkPayrollRow :=
       map (fun r => if String.eqb (Row.id r) rowId then data r else r)
         (bulkPayrollRow db) |}.

(** A field of [data] that is [undefined] is left as it is. *)
Definition set_unless_undefined {A} (new old : option A) : option A :=
  match new with
  | Some v => Some v
  | None => old
  end.

End Prisma.

(** ** worker/index.ts *)

Module Worker.
Import PaymentsAdapter Prisma.

(** What one call of [paymentsAdapter.createPayment] does: it resolves with
    a result, or throws ([Some m]: an [Error] with message [m]; [None]: a
    value that is not an [Error]). *)
Inductive AdapterOutcome : Type :=
| Resolves (result : PaymentResult)
| Throws (message : option string).

(** An adapter, by the row it is given and the number of the attempt. *)
Definition Adapter := Validation.PaymentRow -> Z -> AdapterOutcome.

(** The worker's adapter when it is a [FakePaymentsAdapter]. *)
Definition fake_adapter (this : FakePaymentsAdapter)
    (amb : Validation.PaymentRow -> Z -> Ambient) : Adapter :=
  fun input attempt => Resolves (snd (createPayment this (amb input attempt) input)).

Inductive Event : Type :=
| Call (attempt : Z)
| Sleep (ms : Z).

Record RowResult := {
  r_success : bool;
  r_providerResponse : option RawResponse;
  r_errorMessage : option string;
  r_attempts : Z }.

(** [lastError?.message || 'Payment processing failed'] *)
Definition final_message (lastError : option string) : string :=
  match lastError with
  | Some m => if String.eqb m "" then "Payment processing failed" else m
  | None => "Payment processing failed"
  end.

(** [Math.pow(2, attempts - 1) * 1000] *)
Definition backoff_delay (attempts : Z) : Z := 2 ^ (attempts - 1) * 1000.

(** The loop [while (attempts < maxRetries)] of [processPaymentRow];
    [lastError] holds the message of the last error.  [None]: the fuel ran
    out before the loop ended. *)
Fixpoint retry_loop (fuel : nat) (adapter : Adapter) (row : Row.t)
    (maxRetries attempts : Z) (lastError : option string) (trace : list Event)
  : option (RowResult * list Event) :=
  if attempts <? maxRetries then
    match fuel with
    | O => None
    | S fuel' =>
        let attempts := attempts + 1 in
        let trace := trace ++ [Call attempts] in
        let retry (message : string) :=
          retry_loop fuel' adapter row maxRetries attempts (Some message)
            (if attempts <? maxRetries
             then trace ++ [Sleep (backoff_delay attempts)]
             else trace) in
        match adapter (Row.normalized row) attempts with
        | Resolves result =>
            if success result then
              Some ({| r_success := true;
                       r_providerResponse := rawResponse result;
                       r_errorMessage := None;
                       r_attempts := attempts |}, trace)
            else
              (* lastError = new Error(result.error) *)
              retry (default "" (error result))
        | Throws message =>
            (* error instanceof Error ? error : new Error('Unknown error') *)
            retry (default "Unknown error" message)
        end
    end
  else
    Some ({| r_success := false;
             r_providerResponse := None;
             r_errorMessage := Some (final_message lastError);
             r_attempts := attempts |}, trace).

Definition processPaymentRow (adapter : Adapter) (row : Row.t) (maxRetries : Z)
  : option (RowResult * list Event) :=
  retry_loop (Z.to_nat maxRetries) adapter row maxRetries 0 None [].

Record Config := { BATCH_SIZE : Z; MAX_RETRIES : Z }.

(** A settled promise of [Promise.allSettled]; the reason of a rejection
    is [Some m] for an [Error] with message [m]. *)
Inductive Settled : Type :=
| Fulfilled (value : RowResult)
| Rejected (reason : option string).

Record Counters := {
  processedCount : Z;
  successCount : Z;
  failedCount : Z }.

Definition relative_index (len k : Z) : Z :=
  if k <? 0 then Z.max (len + k) 0 else Z.min k len.

(** [Array.prototype.slice(start, end)] *)
Definition slice {A} (l : list A) (start end_ : Z) : list A :=
  let len := Z.of_nat (List.length l) in
  let a := relative_index len start in
  let b := relative_index len end_ in
  take (Z.to_nat (b - a)) (drop (Z.to_nat a) l).

(** [await Promise.allSettled(batch.map((row) => processPaymentRow(...)))] *)
Definition settle_all (cfg : Config) (adapter : Adapter) (batch : list Row.t)
  : option (list Settled) :=
  mapM (fun row =>
          match processPaymentRow adapter row (MAX_RETRIES cfg) with
          | Some (value, _) => Some (Fulfilled value)
          | None => None
          end) batch.

(** The body of [for (let j = 0; j < results.length; j++)]. *)
Definition record_result (cfg : Config) (st : Db * Counters)
    (item : Row.t * Settled) : Db * Counters :=
  let '(db, c) := st in
  let '(row, result) := item in
  match result with
  | Fulfilled value =>
      let db' :=
        update_row db (Row.id row) (fun r =>
          {| Row.id := Row.id r; Row.jobId := Row.jobId r;
             Row.rowIndex := Row.rowIndex r; Row.normalized := Row.normalized r;
             Row.status := if r_success value then Row.SUCCESS else Row.FAILED;
             Row.attempts := r_attempts value;
             Row.maxRetries := Row.maxRetries r;
             Row.providerResponse :=
               set_unless_undefined (r_providerResponse value) (Row.providerResponse r);
             Row.errorMessage :=
               set_unless_undefined (r_errorMessage value) (Row.errorMessage r) |}) in
      (db',
       {| processedCount := processedCount c + 1;
          successCount := if r_success value then successCount c + 1 else successCount c;
          failedCount := if r_success value then failedCount c else failedCount c + 1 |})
  | Rejected reason =>
      let db' :=
        update_row db (Row.id row) (fun r =>
          {| Row.id := Row.id r; Row.jobId := Row.jobId r;
             Row.rowIndex := Row.rowIndex r; Row.normalized := Row.normalized r;
             Row.status := Row.FAILED;
             Row.attempts := MAX_RETRIES cfg;
             Row.maxRetries := Row.maxRetries r;
             Row.providerResponse := Row.providerResponse r;
             Row.errorMessage := Some (default "Unknown error" reason) |}) in
      (db',
       {| processedCount := processedCount c + 1;
          successCount := successCount c;
          failedCount := failedCount c + 1 |})
  end.

(** [data: { processedRows: processedCount, failedRows: failedCount }] *)
Definition progress (c : Counters) (j : Job.t) : Job.t :=
  {| Job.id := Job.id j; Job.uploaderId := Job.uploaderId j;
     Job.status := Job.status j; Job.totalRows := Job.totalRows j;
     Job.validRows := Job.validRows j; Job.invalidRows := Job.invalidRows j;
     Job.processedRows := processedCount c; Job.failedRows := failedCount c;
     Job.startedAt := Job.startedAt j; Job.completedAt := Job.completedAt j |}.

(** [data: { status: 'PROCESSING', startedAt: new Date() }] *)
Definition processing (now : Z) (j : Job.t) : Job.t :=
  {| Job.id := Job.id j; Job.uploaderId := Job.uploaderId j;
     Job.status := Job.PROCESSING; Job.totalRows := Job.totalRows j;
     Job.validRows := Job.validRows j; Job.invalidRows := Job.invalidRows j;
     Job.processedRows := Job.processedRows j; Job.failedRows := Job.failedRows j;
     Job.startedAt := Some now; Job.completedAt := Job.completedAt j |}.

(** [data: { status: 'COMPLETED', completedAt: new Date(), processedRows,
    failedRows }] *)
Definition completed (now : Z) (c : Counters) (j : Job.t) : Job.t :=
  {| Job.id := Job.id j; Job.uploaderId := Job.uploaderId j;
     Job.status := Job.COMPLETED; Job.totalRows := Job.totalRows j;
     Job.validRows := Job.validRows j; Job.invalidRows := Job.invalidRows j;
     Job.processedRows := processedCount c; Job.failedRows := failedCount c;
     Job.startedAt := Job.startedAt j; Job.completedAt := Some now |}.

(** [data: { status: 'FAILED', completedAt: new Date() }] *)
Definition failed (now : Z) (j : Job.t) : Job.t :=
  {| Job.id := Job.id j; Job.uploaderId := Job.uploaderId j;
     Job.status := Job.FAILED; Job.totalRows := Job.totalRows j;
     Job.validRows := Job.validRows j; Job.invalidRows := Job.invalidRows j;
     Job.processedRows := Job.processedRows j; Job.failedRows := Job.failedRows j;
     Job.startedAt := Job.startedAt j; Job.completedAt := Some now |}.

(** One iteration of [for (let i = 0; i < rows.length; i += BATCH_SIZE)]:
    the batch is processed, its rows are updated, the progress of the job
    is written. *)
Definition process_batch (cfg : Config) (adapter : Adapter) (jobId : string)
    (rows : list Row.t) (i : Z) (c : Counters) (db : Db) : option (Db * Counters) :=
  let batch := slice rows i (i + BATCH_SIZE cfg) in
  match settle_all cfg adapter batch with
  | Some results =>
      let '(db1, c1) := foldl (record_result cfg) (db, c) (zip batch results) in
      Some (update_job db1 jobId (progress c1), c1)
  | None => None
  end.

(** The loop over the batches from index [i] on; the third component
    collects the database as it is after each write of the progress. *)
Fixpoint batch_loop (fuel : nat) (cfg : Config) (adapter : Adapter)
    (jobId : string) (rows : list Row.t) (i : Z) (c : Counters) (db : Db)
    (persisted : list Db) : option (Db * Counters * list Db) :=
  if i <? Z.of_nat (List.length rows) then
    match fuel with
    | O => None
    | S fuel' =>
        match process_batch cfg adapter jobId rows i c db with
        | Some (db', c') =>
            batch_loop fuel' cfg adapter jobId rows (i + BATCH_SIZE cfg) c' db'
              (persisted ++ [db'])
        | None => None
        end
    end
  else Some (db, c, persisted).

Inductive HandlerResult : Type :=
| Returned (processed succeeded failed : Z)
| Threw (message : string).

(** The job handler given to [new Worker(...)], run without interference;
    [t_start] and [t_end] are the two readings of [new Date()].  A job
    that is not found is thrown into the [catch] block, whose update of
    the missing job throws in turn. *)
Definition jobHandler (cfg : Config) (adapter : Adapter) (t_start t_end : Z)
    (jobId : string) (db : Db) : option (Db * HandlerResult * list Db) :=
  match findUnique_with_rows db jobId with
  | None => Some (db, Threw "Record to update not found", [])
  | Some (_, rows) =>
      let db1 := update_job db jobId (processing t_start) in
      match batch_loop (List.length rows) cfg adapter jobId rows 0
              {| processedCount := 0; successCount := 0; failedCount := 0 |}
              db1 [] with
      | Some (db2, c, persisted) =>
          Some (update_job db2 jobId (completed t_end c),
                Returned (processedCount c) (successCount c) (failedCount c),
                persisted)
      | None => None
      end
  end.

End Worker.

(** ** api/bulk-payroll/jobs/[id]/route.ts: the cancel handler *)

Module CancelRoute.
Import Prisma.

Inductive Response : Type :=
| Ok (id : string) (status : Job.Status)       (* 200, 'Job cancelled successfully' *)
| Error (code : string) (statusCode : Z).

(** [data: { status: 'CANCELLED' }] *)
Definition cancelled (j : Job.t) : Job.t :=
  {| Job.id := Job.id j; Job.uploaderId := Job.uploaderId j;
     Job.status := Job.CANCELLED; Job.totalRows := Job.totalRows j;
     Job.validRows := Job.validRows j; Job.invalidRows := Job.invalidRows j;
     Job.processedRows := Job.processedRows j; Job.failedRows := Job.failedRows j;
     Job.startedAt := Job.startedAt j; Job.completedAt := Job.completedAt j |}.

(** [POST]: [user] is the outcome of [getUserFromRequest] ([None] when it
    throws), [redis] tells whether [REDIS_URL] is set, [queue] lists the
    job ids of the units of work that wait in the queue. *)
Definition POST (redis : bool) (user : option string) (jobId : string)
    (db : Db) (queue : list string) : Response * Db * list string :=
  match user with
  | None => (Error "UNAUTHORIZED" 401, db, queue)
  | Some userId =>
      match bulkPayrollJob db !! jobId with
      | None => (Error "NOT_FOUND" 404, db, queue)
      | Some job =>
          if negb (String.eqb (Job.uploaderId job) userId)
          then (Error "NOT_FOUND" 404, db, queue)
          else
            match Job.status job with
            | Job.QUEUED | Job.PROCESSING =>
                let queue' :=
                  if Job.Status_eqb (Job.status job) Job.QUEUED && redis
                  then filter (fun q => q <> jobId) queue
                  else queue in
                let db' := update_job db jobId cancelled in
                (Ok jobId Job.CANCELLED, db', queue')
            | _ => (Error "INVALID_STATE" 409, db, queue)
            end
      end
  end.

(** The first part of [POST], up to the tests on the job that
    [findUnique] returns: the response that ends the request there, or the
    status that was read. *)
Definition read (user : option string) (jobId : string) (db : Db)
  : Response + Job.Status :=
  match user with
  | None => inl (Error "UNAUTHORIZED" 401)
  | Some userId =>
      match bulkPayrollJob db !! jobId with
      | None => inl (Error "NOT_FOUND" 404)
      | Some job =>
          if negb (String.eqb (Job.uploaderId job) userId)
          then inl (Error "NOT_FOUND" 404)
          else
            match Job.status job with
            | Job.QUEUED | Job.PROCESSING => inr (Job.status job)
            | _ => inl (Error "INVALID_STATE" 409)
            end
      end
  end.

(** Whether a request that has read the status [seen] removes the unit of
    work from the queue: [job.status === 'QUEUED' && process.env.REDIS_URL]. *)
Definition removes (redis : bool) (seen : Job.Status) : bool :=
  Job.Status_eqb seen Job.QUEUED && redis.

End CancelRoute.

(** ** The job under the worker and cancel requests *)

Module System.
Import Prisma Worker.

(** Where the worker is with the unit of work of the job. *)
Inductive Phase : Type :=
| Idle
| Running (rows : list Row.t) (i : Z) (c : Counters)
| Finished.

Record Sys := { db : Db; queue : list string; worker : Phase }.

Inductive Label : Type :=
| WorkerStart (now : Z)
| WorkerBatch
| WorkerComplete (now : Z)
| WorkerFault (now : Z)
| CancelRequest (user : option string).

Definition in_queue (jobId : string) (queue : list string) : bool :=
  existsb (String.eqb jobId) queue.

Definition dequeue (jobId : string) (queue : list string) : list string :=
  filter (fun q => q <> jobId) queue.

(** One step of the system for the job [jobId]:
    - [WorkerStart]: the worker takes the unit of work from the queue,
      loads the job and writes PROCESSING (taken as one step);
    - [WorkerBatch]: one iteration of the loop over the batches;
    - [WorkerComplete]: the write of COMPLETED after the loop;
    - [WorkerFault]: an operation of the [try] block throws (the database
      is unavailable, say) and the [catch] block writes FAILED;
    - [CancelRequest]: a cancel request that is served while nothing else
      happens, from its read of the job to its write; requests that run
      beside the worker are the matter of [Concurrent] below. *)
Definition step (cfg : Config) (adapter : Adapter) (redis : bool)
    (jobId : string) (l : Label) (s : Sys) : option Sys :=
  match l, worker s with
  | WorkerStart now, Idle =>
      if in_queue jobId (queue s) then
        match findUnique_with_rows (db s) jobId with
        | None =>
            Some {| db := db s; queue := dequeue jobId (queue s); worker := Finished |}
        | Some (_, rows) =>
            Some {| db := update_job (db s) jobId (processing now);
                    queue := dequeue jobId (queue s);
                    worker := Running rows 0
                      {| processedCount := 0; successCount := 0; failedCount := 0 |} |}
        end
      else None
  | WorkerBatch, Running rows i c =>
      if i <? Z.of_nat (List.length rows) then
        match process_batch cfg adapter jobId rows i c (db s) with
        | Some (db', c') =>
            Some {| db := db'; queue := queue s;
                    worker := Running rows (i + BATCH_SIZE cfg) c' |}
        | None => None
        end
      else None
  | WorkerComplete now, Running rows i c =>
      if i <? Z.of_nat (List.length rows) then None
      else Some {| db := update_job (db s) jobId (completed now c);
                   queue := queue s; worker := Finished |}
  | WorkerFault now, Idle =>
      if in_queue jobId (queue s) then
        Some {| db := update_job (db s) jobId (failed now);
                queue := dequeue jobId (queue s); worker := Finished |}
      else None
  | WorkerFault now, Running _ _ _ =>
      Some {| db := update_job (db s) jobId (failed now);
              queue := queue s; worker := Finished |}
  | CancelRequest user, w =>
      let '(_, db', queue') := CancelRoute.POST redis user jobId (db s) (queue s) in
      Some {| db := db'; queue := queue'; worker := w |}
  | _, _ => None
  end.

Fixpoint run (cfg : Config) (adapter : Adapter) (redis : bool)
    (jobId : string) (ls : list Label) (s : Sys) : option Sys :=
  match ls with
  | [] => Some s
  | l :: ls' =>
      match step cfg adapter redis jobId l s with
      | Some s' => run cfg adapter redis jobId ls' s'
      | None => None
      end
  end.

Definition job_status (jobId : string) (s : Sys) : option Job.Status :=
  Job.status <$> bulkPayrollJob (db s) !! jobId.

(** A dispatched job: QUEUED in the database, its unit of work in the
    queue, the worker idle. *)
Definition initial (jobId : string) (s : Sys) : Prop :=
  job_status jobId s = Some Job.QUEUED
  /\ queue s = [jobId]
  /\ worker s = Idle.

(** A job is COMPLETED or FAILED only once the worker has finished. *)
Definition settled_means_finished (jobId : string) (s : Sys) : Prop :=
  forall st, job_status jobId s = Some st ->
             st = Job.COMPLETED \/ st = Job.FAILED -> worker s = Finished.

Definition worker_write (l : Label) : bool :=
  match l with
  | WorkerStart _ | WorkerComplete _ | WorkerFault _ => true
  | WorkerBatch | CancelRequest _ => false
  end.

End System.

(** ** Notions used to state the properties *)

Module Spec.
Import Validation PaymentsAdapter Prisma Worker.

(** *** Retries *)

(** The message kept in [lastError] after a call that did not succeed. *)
Definition failure_message (o : AdapterOutcome) : string :=
  match o with
  | Resolves result => default "" (error result)
  | Throws message => default "Unknown error" message
  end.

Definition succeeds (o : AdapterOutcome) : bool :=
  match o with
  | Resolves result => success result
  | Throws _ => false
  end.

(** The calls and waits of the attempts [a + 1, ..., a + n] when all of
    them fail: after attempt [k], if attempts remain, a wait of
    [2 ^ (k - 1)] seconds. *)
Fixpoint failing_trace (maxRetries : Z) (n : nat) (a : Z) : list Event :=
  match n with
  | O => []
  | S n' =>
      Call (a + 1)
      :: (if a + 1 <? maxRetries then [Sleep (1000 * 2 ^ (a + 1 - 1))] else [])
      ++ failing_trace maxRetries n' (a + 1)
  end.

(** *** Jobs and their counters *)

(** The statuses in which a job can be cancelled. *)
Definition cancellable (s : Job.Status) : bool :=
  match s with
  | Job.QUEUED | Job.PROCESSING => true
  | _ => false
  end.

(** The result of [processPaymentRow] for a row. *)
Definition row_result (adapter : Adapter) (maxRetries : Z) (row : Row.t) : RowResult :=
  match processPaymentRow adapter row maxRetries with
  | Some (value, _) => value
  | None => {| r_success := false; r_providerResponse := None;
               r_errorMessage := None; r_attempts := 0 |}
  end.

Definition is_terminal (r : Row.t) : bool :=
  match Row.status r with
  | Row.SUCCESS | Row.FAILED => true
  | Row.PENDING => false
  end.

Definition is_failed (r : Row.t) : bool :=
  match Row.status r with
  | Row.FAILED => true
  | _ => false
  end.

(** Number of the rows of the job [jobId] that satisfy [p]. *)
Fixpoint count_rows (p : Row.t -> bool) (jobId : string) (rows : list Row.t) : Z :=
  match rows with
  | [] => 0
  | r :: rest =>
      (if String.eqb (Row.jobId r) jobId && p r then 1 else 0)
      + count_rows p jobId rest
  end.

(** Number of the rows for which [processPaymentRow] returns a failure. *)
Fixpoint failures (adapter : Adapter) (maxRetries : Z) (rows : list Row.t) : Z :=
  match rows with
  | [] => 0
  | r :: rest =>
      (if r_success (row_result adapter maxRetries r) then 0 else 1)
      + failures adapter maxRetries rest
  end.

(** The counters of the job agree with the rows: [processedRows] is the
    number of its rows that are SUCCESS or FAILED, [failedRows] the number
    of its rows that are FAILED. *)
Definition counters_consistent (jobId : string) (db : Db) : Prop :=
  exists job,
    bulkPayrollJob db !! jobId = Some job
    /\ Job.processedRows job = count_rows is_terminal jobId (bulkPayrollRow db)
    /\ Job.failedRows job = count_rows is_failed jobId (bulkPayrollRow db).

(** The rows of a job are processed one after the other, in order. *)
Definition record_rows (cfg : Config) (adapter : Adapter) (rows : list Row.t)
    (st : Db * Counters) : Db * Counters :=
  foldl (fun st row =>
           record_result cfg st
             (row, Fulfilled (row_result adapter (MAX_RETRIES cfg) row)))
        st rows.

(** What the loop over the batches maintains, for the rows [todo] that are
    still to be processed. *)
Definition loop_invariant (jobId : string) (todo : list Row.t)
    (db : Db) (c : Counters) : Prop :=
  List.NoDup (map Row.id (bulkPayrollRow db))
  /\ List.NoDup (map Row.id todo)
  /\ (forall r, In r todo ->
        exists x, In x (bulkPayrollRow db) /\ Row.id x = Row.id r
                  /\ Row.jobId x = jobId /\ Row.status x = Row.PENDING)
  /\ count_rows is_terminal jobId (bulkPayrollRow db) = processedCount c
  /\ count_rows is_failed jobId (bulkPayrollRow db) = failedCount c.

(** *** Acceptance by the schemas *)

(** The candidate [c] with another amount. *)
Definition with_amount (c : Candidate) (a : value) : Candidate :=
  {| in_employee_id := in_employee_id c;
     in_employee_email := in_employee_email c;
     in_amount := a;
     in_currency := in_currency c;
     in_pay_date := in_pay_date c;
     in_description := in_description c;
     in_external_reference := in_external_reference c |}.

Definition accepted (r : SafeParseResult) : bool :=
  match r with
  | Success _ => true
  | Failure _ => false
  end.

(** The number that a raw amount parses to: a string through [Number],
    a number as it is; [None] when it does not parse as a number. *)
Definition parsed_amount (a : value) : option Js.number :=
  match a with
  | VStr s => if Js.isNaN (Js.Number s) then None else Some (Js.Number s)
  | VNum Js.NaN => None
  | VNum n => Some n
  | _ => None
  end.

(** At most two digits after the decimal point: a hundred times the number
    [s * 10^e] is an integer. *)
Definition at_most_two_decimals (n : Js.number) : bool :=
  match n with
  | Js.Finite _ s e => (-2 <=? e) || (Z.of_N s mod 10 ^ (- e - 2) =? 0)
  | _ => false
  end.

(** The count of C5 in the words of the specification, on the text of the
    input: the digits written after the decimal point. *)
Definition written_decimals (text : string) : Z :=
  match snd (Js.span (fun c => negb (Js.code c =? 46)) text) with
  | String _ fraction => Js.len (fst (Js.span Js.is_digit fraction))
  | EmptyString => 0
  end.

(** The rule of amounts, as a test. *)
Definition amount_rule (a : value) : bool :=
  match parsed_amount a with
  | Some n =>
      Js.lt (Js.of_Z 0) n && Js.le n (Js.of_Z 1000000) && at_most_two_decimals n
  | None => false
  end.

(** An identifier that is missing or empty. *)
Definition missing_or_empty (v : value) : Prop :=
  v = VUndefined \/ v = VNull \/ v = VStr "".

Definition issues (r : SafeParseResult) : list Issue :=
  match r with
  | Success _ => []
  | Failure l => l
  end.

(** *** The three partitions of a batch *)

(** The outcome of the schema for a raw row. *)
Definition parse_row (env : Env) (columnMapping : CsvParser.ColumnMapping)
    (rawRow : gmap string value) : SafeParseResult :=
  RawPaymentRowSchema env (CsvParser.mappedRow columnMapping rawRow).

(** The index of the first accepted row with the key [key] among [rows],
    which start at index [i]. *)
Fixpoint first_with_key (env : Env) (columnMapping : CsvParser.ColumnMapping)
    (key : string) (rows : list (gmap string value)) (i : nat) : option nat :=
  match rows with
  | [] => None
  | r :: rest =>
      match parse_row env columnMapping r with
      | Success d =>
          if String.eqb (CsvParser.paymentKey d) key then Some i
          else first_with_key env columnMapping key rest (S i)
      | Failure _ => first_with_key env columnMapping key rest (S i)
      end
  end.

Inductive Class : Type :=
| IsValid (data : PaymentRow)
| IsInvalid (issues : list Issue)
| IsDuplicate (first : nat).

(** The partition of a row, given the rows [before] it. *)
Definition classify (env : Env) (columnMapping : CsvParser.ColumnMapping)
    (before : list (gmap string value)) (rawRow : gmap string value) : Class :=
  match parse_row env columnMapping rawRow with
  | Failure issues => IsInvalid issues
  | Success d =>
      match first_with_key env columnMapping (CsvParser.paymentKey d) before 0 with
      | Some first => IsDuplicate first
      | None => IsValid d
      end
  end.

(** Every row of [rest] with its index and its partition; [before] are
    the rows before [rest]. *)
Fixpoint classified_from (env : Env) (columnMapping : CsvParser.ColumnMapping)
    (before rest : list (gmap string value))
  : list (nat * gmap string value * Class) :=
  match rest with
  | [] => []
  | r :: rest' =>
      (List.length before, r, classify env columnMapping before r)
      :: classified_from env columnMapping (before ++ [r]) rest'
  end.

Definition valid_of (x : nat * gmap string value * Class)
  : option (nat * PaymentRow) :=
  match x with
  | (i, _, IsValid d) => Some (i, d)
  | _ => None
  end.

Definition invalid_of (x : nat * gmap string value * Class)
  : option CsvParser.InvalidRow :=
  match x with
  | (i, r, IsInvalid l) =>
      Some {| CsvParser.inv_rowIndex := i; CsvParser.inv_data := r;
              CsvParser.inv_errors := map (CsvParser.issue_error i) l |}
  | _ => None
  end.

Definition duplicate_of (x : nat * gmap string value * Class)
  : option CsvParser.DuplicateRow :=
  match x with
  | (i, r, IsDuplicate first) =>
      Some {| CsvParser.dup_rowIndex := i; CsvParser.dup_data := r;
              CsvParser.duplicateOf := first |}
  | _ => None
  end.

End Spec.

(** ** The job under the worker and cancel requests that run beside it

    The cancel handler runs in the web server, the job handler in the
    process of the worker, and the handler awaits between its operations:
    it reads the job, later removes the unit of work from the queue, later
    writes CANCELLED, and the worker and other requests can write in
    between.  A request in flight has read the job and passed the tests on
    it, and has not written CANCELLED yet. *)

Module Concurrent.
Import Prisma Worker.

(** A request in flight: the status that it has read, and whether its
    removal from the queue is done. *)
Record Request := { seen : Job.Status; removed : bool }.

Record Sys := { sys : System.Sys; inflight : list Request }.

Inductive Label : Type :=
| Atomic (l : System.Label)
| CancelRead (user : option string)
| CancelRemove (k : nat)
| CancelUpdate (k : nat)
| CancelFault (k : nat).

(** The removal from the queue is still to be done. *)
Definition to_remove (redis : bool) (r : Request) : bool :=
  CancelRoute.removes redis (seen r) && negb (removed r).

(** One step of the system for the job [jobId]:
    - [Atomic l]: a step of [System.step], that is a step of the worker,
      or a cancel request during which nothing else happens;
    - [CancelRead user]: a request reads the job; it ends there when a
      test fails, and is in flight otherwise;
    - [CancelRemove k]: the request [k] in flight removes the unit of work
      from the queue;
    - [CancelUpdate k]: the request [k] in flight writes CANCELLED, which
      [update] does whatever the status is by then, and ends;
    - [CancelFault k]: an operation of the request [k] in flight throws
      (the queue or the database is unavailable, or the queue refuses to
      remove a unit of work that the worker holds) and the request ends
      without its write. *)
Definition step (cfg : Config) (adapter : Adapter) (redis : bool)
    (jobId : string) (l : Label) (s : Sys) : option Sys :=
  match l with
  | Atomic l0 =>
      match System.step cfg adapter redis jobId l0 (sys s) with
      | Some s1 => Some {| sys := s1; inflight := inflight s |}
      | None => None
      end
  | CancelRead user =>
      match CancelRoute.read user jobId (System.db (sys s)) with
      | inr status =>
          Some {| sys := sys s;
                  inflight := inflight s ++ [{| seen := status; removed := false |}] |}
      | inl _ => Some s
      end
  | CancelRemove k =>
      match inflight s !! k with
      | Some r =>
          if to_remove redis r then
            Some {| sys := {| System.db := System.db (sys s);
                              System.queue := System.dequeue jobId (System.queue (sys s));
                              System.worker := System.worker (sys s) |};
                    inflight := <[k := {| seen := seen r; removed := true |}]> (inflight s) |}
          else None
      | None => None
      end
  | CancelUpdate k =>
      match inflight s !! k with
      | Some r =>
          if to_remove redis r then None
          else
            Some {| sys := {| System.db :=
                                update_job (System.db (sys s)) jobId CancelRoute.cancelled;
                              System.queue := System.queue (sys s);
                              System.worker := System.worker (sys s) |};
                    inflight := delete k (inflight s) |}
      | None => None
      end
  | CancelFault k =>
      match inflight s !! k with
      | Some _ => Some {| sys := sys s; inflight := delete k (inflight s) |}
      | None => None
      end
  end.

Fixpoint run (cfg : Config) (adapter : Adapter) (redis : bool)
    (jobId : string) (ls : list Label) (s : Sys) : option Sys :=
  match ls with
  | [] => Some s
  | l :: ls' =>
      match step cfg adapter redis jobId l s with
      | Some s' => run cfg adapter redis jobId ls' s'
      | None => None
      end
  end.

Definition job_status (jobId : string) (s : Sys) : option Job.Status :=
  System.job_status jobId (sys s).

(** A dispatched job, and no request in flight. *)
Definition initial (jobId : string) (s : Sys) : Prop :=
  System.initial jobId (sys s) /\ inflight s = [].

(** Every request in flight has read QUEUED or PROCESSING. *)
Definition read_while_cancellable (s : Sys) : Prop :=
  Forall (fun r => Spec.cancellable (seen r) = true) (inflight s).

(** The steps of a request that is served while nothing else happens. *)
Definition request_steps (redis : bool) (user : option string)
    (jobId : string) (s : Sys) : list Label :=
  match CancelRoute.read user jobId (System.db (sys s)) with
  | inr status =>
      CancelRead user
      :: (if CancelRoute.removes redis status
          then [CancelRemove (List.length (inflight s))] else [])
      ++ [CancelUpdate (List.length (inflight s))]
  | inl _ => [CancelRead user]
  end.

End Concurrent.

(** ** Sample data *)

Module Sample.
Import Validation PaymentsAdapter Prisma Worker.

Definition sample_payment : PaymentRow :=
  {| employee_id := OStr "";
     employee_email := OStr "jane.doe@example.com";
     amount := Js.Finite false 1500 0;
     currency := "USD";
     pay_date := "2025-11-01";
     description := OStr "";
     external_reference := OStr "" |}.

Definition sample_row (rowId : string) (index : Z) : Row.t :=
  {| Row.id := rowId; Row.jobId := "job-1"; Row.rowIndex := index;
     Row.normalized := sample_payment; Row.status := Row.PENDING;
     Row.attempts := 0; Row.maxRetries := 3;
     Row.providerResponse := None; Row.errorMessage := None |}.

Definition sample_job (st : Job.Status) : Job.t :=
  {| Job.id := "job-1"; Job.uploaderId := "user-1"; Job.status := st;
     Job.totalRows := 2; Job.validRows := 2; Job.invalidRows := 0;
     Job.processedRows := 0; Job.failedRows := 0;
     Job.startedAt := None; Job.completedAt := None |}.

Definition sample_db (st : Job.Status) : Db :=
  {| bulkPayrollJob := {[ "job-1" := sample_job st ]};
     bulkPayrollRow := [sample_row "row-0" 0; sample_row "row-1" 1] |}.

Definition sample_config : Config := {| BATCH_SIZE := 10; MAX_RETRIES := 3 |}.

(** An adapter that reports a failure with the given error, always. *)
Definition declines (e : option string) : Adapter :=
  fun _ _ =>
    Resolves {| success := false; id := None; error := e; rawResponse := None |}.

(** A job of twelve PENDING rows, and a fake adapter that always succeeds. *)
Definition twelve_rows : list Row.t :=
  map (fun k => sample_row ("row-" +:+ Js.digits (N.of_nat k)) (Z.of_nat k))
      (seq 0 12).

Definition twelve_db : Db :=
  {| bulkPayrollJob := {[ "job-1" := sample_job Job.QUEUED ]};
     bulkPayrollRow := twelve_rows |}.

Definition sample_fake (rate : Js.number) : Adapter :=
  fake_adapter {| successRate := rate; latencyMs := 0; seed := 42 |}
    (fun _ _ => {| date_now := 1760700000000; random_text := "k3j9x0q1z";
                   iso_timestamp := "2025-10-17T11:20:00.000Z" |}).

(** A sample environment: noon UTC of 2025-10-17 on a clock at the given
    offset, a crude stand-in for the e-mail test of Zod (some text, an
    [@], some text without [@]), and no date for a text that is not of the
    form YYYY-MM-DD. *)
Definition sample_clock (tz : Z) : JsDate.Clock :=
  {| JsDate.now := JsDate.days_from_civil 2025 10 17 * JsDate.msPerDay + 43200000;
     JsDate.tz_offset_min := tz |}.

Definition sample_is_email (s : string) : bool :=
  let '(name, rest) := Js.span (fun c => negb (Js.code c =? 64)) s in
  negb (String.eqb name "")
  && match rest with
     | String _ domain =>
         negb (String.eqb domain "")
         && Js.forall_chars (fun c => negb (Js.code c =? 64)) domain
     | EmptyString => false
     end.

Definition sample_env (tz : Z) : Env :=
  {| clock := sample_clock tz; is_email := sample_is_email;
     other_date := fun _ => None |}.

Definition sample_candidate (id email : value) (amount pay_date : string) : Candidate :=
  {| in_employee_id := id;
     in_employee_email := email;
     in_amount := VStr amount;
     in_currency := VStr "usd";
     in_pay_date := VStr pay_date;
     in_description := VUndefined;
     in_external_reference := VUndefined |}.

(** A row of the test of duplicates, and its mapping. *)
Definition sample_raw_row : gmap string value :=
  {[ "employee_email" := VStr "test@example.com";
     "amount" := VStr "1500.00";
     "currency" := VStr "USD";
     "pay_date" := VStr "2025-11-01" ]}.

Definition sample_mapping : CsvParser.ColumnMapping :=
  {| CsvParser.map_employee_id := None;
     CsvParser.map_employee_email := Some "employee_email";
     CsvParser.map_amount := Some "amount";
     CsvParser.map_currency := Some "currency";
     CsvParser.map_pay_date := Some "pay_date";
     CsvParser.map_description := None;
     CsvParser.map_external_reference := None |}.

End Sample.

(** ** More of JavaScript's strings and arrays *)

Module JsText.

(** [String.prototype.toLowerCase] on one code unit below 256. *)
Definition lower_char (c : ascii) : ascii :=
  if Js.is_upper c || Js.is_latin1_upper c
  then ascii_of_N (N_of_ascii c + 32) else c.

Fixpoint toLowerCase (s : string) : string :=
  match s with
  | EmptyString => EmptyString
  | String c r => String (lower_char c) (toLowerCase r)
  end.

Definition comma : ascii := "044"%char.
Definition dquote : ascii := "034"%char.
Definition newline : ascii := "010"%char.

(** [s.includes(c)] for a string [c] of one character. *)
Fixpoint includes_char (c : ascii) (s : string) : bool :=
  match s with
  | EmptyString => false
  | String d r => Ascii.eqb d c || includes_char c r
  end.

(** [Array.prototype.join(sep)] on an array of strings. *)
Fixpoint join (sep : string) (l : list string) : string :=
  match l with
  | [] => ""
  | [x] => x
  | x :: rest => x +:+ sep +:+ join sep rest
  end.

(** [Array.prototype.indexOf]; [None] stands for [-1]. *)
Fixpoint indexOf (l : list string) (x : string) : option nat :=
  match l with
  | [] => None
  | y :: rest => if String.eqb y x then Some 0%nat else S <$> indexOf rest x
  end.






End JsText.

(** ** errors.ts *)

Module Errors.

(** What a handler can throw: an [AppError] (or one of its subclasses),
    another [Error], or a value that is not an [Error]. *)
Inductive Thrown : Type :=
| AppError (code message : string) (statusCode : Z)
| OtherError (message : string)
| NotAnError.

Definition ValidationError (message : string) : Thrown :=
  AppError "VALIDATION_ERROR" message 400.
Definition UnauthorizedError (message : option string) : Thrown :=
  AppError "UNAUTHORIZED" (default "Unauthorized" message) 401.
Definition NotFoundError (resource : string) : Thrown :=
  AppError "NOT_FOUND" (resource +:+ " not found") 404.
Definition ConflictError (message : string) : Thrown :=
  AppError "CONFLICT" message 409.
Definition InternalServerError (message : option string) : Thrown :=
  AppError "INTERNAL_ERROR" (default "Internal Server Error" message) 500.
Definition RateLimitError (message : option string) : Thrown :=
  AppError "RATE_LIMIT" (default "Too many requests" message) 429.

(** [ErrorResponse] (without [details] and [timestamp]). *)
Record ErrorResponse := {
  code : string;
  message : string;
  statusCode : Z }.

Definition formatError (error : Thrown) : ErrorResponse :=
  match error with
  | AppError c m s => {| code := c; message := m; statusCode := s |}
  | OtherError m => {| code := "INTERNAL_ERROR"; message := m; statusCode := 500 |}
  | NotAnError =>
      {| code := "UNKNOWN_ERROR"; message := "An unknown error occurred";
         statusCode := 500 |}
  end.

End Errors.

(** ** csv-parser.ts: detection of the columns, export *)

Module ColumnDetection.
Import CsvParser JsText.

Definition commonAliases (field : string) : option (list string) :=
  if String.eqb field "employee_id" then
    Some ["emp_id"; "empid"; "id"; "employee id"; "emp"; "employee_code"]
  else if String.eqb field "employee_email" then
    Some ["email"; "emp_email"; "empemail"; "employee email"; "recipient_email"]
  else if String.eqb field "amount" then
    Some ["salary"; "payment"; "pay_amount"; "payroll_amount"; "value"]
  else if String.eqb field "currency" then
    Some ["curr"; "code"; "currency_code"; "iso_code"]
  else if String.eqb field "pay_date" then
    Some ["date"; "paydate"; "payment_date"; "salary_date"; "pay_period"]
  else if String.eqb field "description" then
    Some ["notes"; "reason"; "comment"]
  else if String.eqb field "external_reference" then
    Some ["reference"; "ref"; "external_ref"; "ref_no"; "reference_id"]
  else None.

(** [headers.map((h) => h.toLowerCase().trim())] *)
Definition normalizedHeaders (headers : list string) : list string :=
  map (fun h => Js.trim (toLowerCase h)) headers.

(** [for (const alias of commonAliases[field])], up to its [break]. *)
Fixpoint first_alias (headers : list string) (aliases : list string)
  : option string :=
  match aliases with
  | [] => None
  | alias :: rest =>
      match indexOf (normalizedHeaders headers) alias with
      | Some aliasIdx => headers !! aliasIdx
      | None => first_alias headers rest
      end
  end.

(** The body of the loop over the fields: the value of [mapping[field]]
    after it. *)
Definition detect_field (headers : list string) (field : string) : option string :=
  let normalized := toLowerCase field in
  match indexOf (normalizedHeaders headers) normalized with
  | Some directIdx => headers !! directIdx
  | None =>
      match commonAliases field with
      | Some aliases => first_alias headers aliases
      | None => None
      end
  end.

Definition detectColumnMapping (headers : list string) : ColumnMapping :=
  {| map_employee_id := detect_field headers "employee_id";
     map_employee_email := detect_field headers "employee_email";
     map_amount := detect_field headers "amount";
     map_currency := detect_field headers "currency";
     map_pay_date := detect_field headers "pay_date";
     map_description := detect_field headers "description";
     map_external_reference := detect_field headers "external_reference" |}.

End ColumnDetection.

Module CsvExport.
Import JsText.

(** [value.replace] of every double quote by two double quotes. *)
Fixpoint double_quotes (value : string) : string :=
  match value with
  | EmptyString => EmptyString
  | String c r =>
      if Ascii.eqb c dquote then String dquote (String dquote (double_quotes r))
      else String c (double_quotes r)
  end.

Definition needs_quotes (value : string) : bool :=
  includes_char comma value || includes_char dquote value
  || includes_char newline value.

(** The text written for one value. *)
Definition escape (value : string) : string :=
  if needs_quotes value
  then String dquote (double_quotes value +:+ String dquote "")
  else value.

(** The text written for the header [h] of a row: [data[h] || ''] is the
    empty string for a key that the row neither has nor inherits; on an
    inherited property, which is not a string, [value.includes] is not a
    function and the code throws a [TypeError] ([None]). *)
Definition cell (data : gmap string string) (h : string) : option string :=
  match data !! h with
  | Some value => Some (escape value)
  | None =>
      match CsvParser.inherited h with
      | Validation.VUndefined => Some (escape "")
      | _ => None
      end
  end.

(** [rowsToCSV]; [None] when it throws. *)
Definition rowsToCSV (rows : list (nat * gmap string string))
    (allHeaders : list string) : option string :=
  let header := join "," allHeaders in
  match mapM (fun row => join "," <$> mapM (cell (snd row)) allHeaders) rows with
  | Some lines => Some (join (String newline "") (header :: lines))
  | None => None
  end.

End CsvExport.

(** ** auth.ts (second part of src/lib/payments-adapter.ts) *)

Module Auth.

(** [s.startsWith(prefix)] *)
Fixpoint startsWith (prefix s : string) : bool :=
  match prefix, s with
  | EmptyString, _ => true
  | String a p, String b r => Ascii.eqb a b && startsWith p r
  | String _ _, EmptyString => false
  end.

(** [s.substring(n)] *)
Fixpoint substring (n : nat) (s : string) : string :=
  match n, s with
  | O, _ => s
  | S n', String _ r => substring n' r
  | S _, EmptyString => EmptyString
  end.

(** [s.includes(needle)] *)
Fixpoint includes (needle s : string) : bool :=
  startsWith needle s
  || match s with
     | EmptyString => false
     | String _ r => includes needle r
     end.

Record User := { userId : string; email : string; role : string }.

(** What the functions read besides the header [authorization]: whether
    [NODE_ENV] is [production]; [jwtVerify] of jose with the secret key,
    giving the payload of a token or [None] when it throws; the outcomes
    of the two queries [prisma.user.findFirst], [None] when the query
    throws. *)
Record World := {
  production : bool;
  jwtVerify : string -> option User;
  findFirstAdmin : option (option User);
  findFirstUser : option (option User) }.

Definition verifyAuth (w : World) (authHeader : option string)
  : Errors.Thrown + User :=
  match authHeader with
  | Some h =>
      if startsWith "Bearer " h then
        match jwtVerify w (substring 7 h) with
        | Some payload => inr payload
        | None => inl (Errors.UnauthorizedError (Some "Invalid token"))
        end
      else inl (Errors.UnauthorizedError (Some "Missing or invalid authorization header"))
  | None => inl (Errors.UnauthorizedError (Some "Missing or invalid authorization header"))
  end.

(** The end of the development branch: the first user of the database, or
    the fallback. *)
Definition first_user_or_fallback (w : World) : User :=
  match findFirstUser w with
  | Some (Some user) => user
  | _ => {| userId := "dev-user-fallback"; email := "dev@example.com";
            role := "ADMIN" |}
  end.

Definition getUserFromRequest (w : World) (authHeader : option string)
  : Errors.Thrown + User :=
  if negb (production w) then
    match authHeader with
    | Some h =>
        if startsWith "Bearer " h then
          let token := substring 7 h in
          if String.eqb token "dev-token" || includes "dev" token then
            match findFirstAdmin w with
            | Some (Some adminUser) => inr adminUser
            | _ => inr {| userId := "dev-admin-fallback";
                          email := "dev-admin@example.com"; role := "ADMIN" |}
            end
          else
            match verifyAuth w authHeader with
            | inr user => inr user
            | inl _ => inr (first_user_or_fallback w)
            end
        else inr (first_user_or_fallback w)
    | None => inr (first_user_or_fallback w)
    end
  else verifyAuth w authHeader.

(** The user id that the handlers work with, or what
    [getUserFromRequest] throws. *)
Definition user_of (w : World) (authHeader : option string)
  : Errors.Thrown + string :=
  match getUserFromRequest w authHeader with
  | inr user => inr (userId user)
  | inl error => inl error
  end.

End Auth.

(** ** api/bulk-payroll/upload/route.ts *)

Module UploadRoute.
Import Validation CsvParser Prisma.

(** An entry of [errorSummary]: the index of the row and the text of its
    [errors] or [error]. *)
Record SummaryItem := { sum_rowIndex : nat; sum_text : string }.

Inductive Response : Type :=
| Accepted (jobId : string) (totalRows validRows invalidRows : Z)
    (errorSummary : list SummaryItem)                       (* 202 *)
| Error (e : Errors.ErrorResponse).

(** What the request carries once its body is read: no usable body (no
    file, a file above the size limit, a text that [parseCSV] or
    [request.json] cannot read and on which they throw an [Error], [rows]
    that is not an array, another content type), or the parsed rows with
    [Object.keys(parsedRows[0])], the keys of the first row in their
    order. *)
Inductive Body : Type :=
| NoFile
| FileTooLarge
| Unreadable (message : string)
| RowsNotArray
| UnsupportedContentType
| Rows (parsedRows : list (gmap string value)) (headers : list string).

(** What the database generates for the new records, and what the worker
    takes the column [normalized] of a row for: the route writes the JSON
    text of the validated row into it, and the worker casts what it reads
    back to a [PaymentRow] without parsing it, so that what the adapter is
    handed is left open here ([stored_normalized]). *)
Record Generated := {
  new_job_id : string;
  new_row_id : nat -> string;
  stored_normalized : PaymentRow -> PaymentRow }.

(** [MAX_ROWS_PER_UPLOAD], and [MAX_FILE_SIZE_MB] of which [MAX_FILE_SIZE]
    is the product by [1024 * 1024]. *)
Record Limits := { MAX_ROWS_PER_UPLOAD : Z; MAX_FILE_SIZE_MB : Z }.

Definition errorSummary (parsed : ParsedPayrollCSV) : list SummaryItem :=
  map (fun r => {| sum_rowIndex := inv_rowIndex r;
                   sum_text := JsText.join "; " (map ve_error (inv_errors r)) |})
      (Worker.slice (invalidRows parsed) 0 10)
  ++ map (fun r => {| sum_rowIndex := dup_rowIndex r;
                      sum_text := "Duplicate of row "
                                  +:+ Js.toString (Js.of_Z (Z.of_nat (duplicateOf r))) |})
       (Worker.slice (duplicates parsed) 0 10).

(** [parsed.validRows.map((row, idx) => ({ jobId, rowIndex: idx, ...,
    status: 'PENDING' }))], with the defaults of the schema. *)
Definition rowsToCreate (gen : Generated) (jobId : string)
    (validRows : list PaymentRow) : list Row.t :=
  imap (fun idx row =>
          {| Row.id := new_row_id gen idx; Row.jobId := jobId;
             Row.rowIndex := Z.of_nat idx;
             Row.normalized := stored_normalized gen row;
             Row.status := Row.PENDING; Row.attempts := 0; Row.maxRetries := 3;
             Row.providerResponse := None; Row.errorMessage := None |})
       validRows.

Definition fail (db : Db) (queue : list string) (message : string)
  : Response * Db * list string :=
  (Error (Errors.formatError (Errors.ValidationError message)), db, queue).

(** [POST]: [user] is the outcome of [getUserFromRequest], the id of the
    user or what it throws, which the [catch] block formats; [redis] tells
    whether [REDIS_URL] is set; the database accepts the new records. *)
Definition POST (env : Env) (limits : Limits) (redis : bool) (gen : Generated)
    (user : Errors.Thrown + string) (body : Body) (db : Db) (queue : list string)
  : Response * Db * list string :=
  match user with
  | inl error => (Error (Errors.formatError error), db, queue)
  | inr userId =>
      match body with
      | NoFile => fail db queue "No file provided"
      | FileTooLarge =>
          fail db queue
            ("File size exceeds limit of "
             +:+ Js.toString (Js.of_Z (MAX_FILE_SIZE_MB limits)) +:+ "MB")
      | Unreadable message =>
          (Error (Errors.formatError (Errors.OtherError message)), db, queue)
      | RowsNotArray => fail db queue "Invalid request body: rows must be an array"
      | UnsupportedContentType =>
          fail db queue
            "Unsupported content type. Use multipart/form-data or application/json"
      | Rows parsedRows headers =>
          if Z.of_nat (List.length parsedRows) =? 0 then
            fail db queue "CSV file is empty"
          else if MAX_ROWS_PER_UPLOAD limits <? Z.of_nat (List.length parsedRows) then
            fail db queue
              ("Exceeded maximum rows per upload ("
               +:+ Js.toString (Js.of_Z (MAX_ROWS_PER_UPLOAD limits)) +:+ ")")
          else
            let columnMapping := ColumnDetection.detectColumnMapping headers in
            let parsed := validatePayrollRows env parsedRows columnMapping in
            let summary := errorSummary parsed in
            let nvalid := Z.of_nat (List.length (validRows parsed)) in
            let ninvalid :=
              Z.of_nat (List.length (invalidRows parsed))
              + Z.of_nat (List.length (duplicates parsed)) in
            let job :=
              {| Job.id := new_job_id gen; Job.uploaderId := userId;
                 Job.status := Job.QUEUED;
                 Job.totalRows := Z.of_nat (totalRows parsed);
                 Job.validRows := nvalid; Job.invalidRows := ninvalid;
                 Job.processedRows := 0; Job.failedRows := 0;
                 Job.startedAt := None; Job.completedAt := None |} in
            let db' :=
              {| bulkPayrollJob := <[new_job_id gen := job]> (bulkPayrollJob db);
                 bulkPayrollRow :=
                   bulkPayrollRow db
                   ++ rowsToCreate gen (new_job_id gen) (validRows parsed) |} in
            let queue' := if redis then queue ++ [new_job_id gen] else queue in
            (Accepted (new_job_id gen) (Z.of_nat (totalRows parsed)) nvalid ninvalid
               (Worker.slice summary 0 20),
             db', queue')
      end
  end.

End UploadRoute.

(** ** api/bulk-payroll/jobs/route.ts: the numbers of the pagination *)

Module JobsRoute.





End JobsRoute.

(** ** More notions used to state the properties *)

Module Props.

(** *** Detection of the columns *)

(** The seven fields of a payroll row, in the order of the mapping. *)
Definition fields : list string :=
  [ "employee_id"; "employee_email"; "amount"; "currency"; "pay_date";
    "description"; "external_reference" ].

(** [mapping[field]] *)
Definition column (mapping : CsvParser.ColumnMapping) (field : string)
  : option string :=
  if String.eqb field "employee_id" then CsvParser.map_employee_id mapping
  else if String.eqb field "employee_email" then CsvParser.map_employee_email mapping
  else if String.eqb field "amount" then CsvParser.map_amount mapping
  else if String.eqb field "currency" then CsvParser.map_currency mapping
  else if String.eqb field "pay_date" then CsvParser.map_pay_date mapping
  else if String.eqb field "description" then CsvParser.map_description mapping
  else if String.eqb field "external_reference"
       then CsvParser.map_external_reference mapping
  else None.

(** A header as it is compared: in lower case, trimmed. *)
Definition normalize_header (h : string) : string :=
  Js.trim (JsText.toLowerCase h).

(** The names under which a field is recognised: its own, then its aliases
    in their order. *)
Definition names (field : string) : list string :=
  field :: default [] (ColumnDetection.commonAliases field).

(** *** Attempts and waits *)

(** The numbers of the attempts for which the adapter was called. *)
Definition calls (trace : list Worker.Event) : list Z :=
  omap (fun e => match e with
                 | Worker.Call k => Some k
                 | Worker.Sleep _ => None
                 end) trace.

(** The time spent waiting between the attempts, in milliseconds. *)
Definition total_sleep (trace : list Worker.Event) : Z :=
  foldr (fun e acc => match e with
                      | Worker.Sleep ms => ms + acc
                      | Worker.Call _ => acc
                      end) 0 trace.

(** *** What the handler of a job may change *)

(** What identifies a row and what it has to pay: the columns that the
    worker never writes. *)
Definition row_key (r : Row.t)
  : string * string * Z * Validation.PaymentRow * Z :=
  (Row.id r, Row.jobId r, Row.rowIndex r, Row.normalized r, Row.maxRetries r).

(** The columns of a job that are fixed at its creation. *)
Definition job_key (j : Job.t) : string * string * Z * Z * Z :=
  (Job.id j, Job.uploaderId j, Job.totalRows j, Job.validRows j, Job.invalidRows j).

(** [db'] differs from [db] at most in the columns of the job [jobId] that
    are not fixed at its creation and in the outcome of the rows of that
    job. *)
Definition frame (jobId : string) (db db' : Prisma.Db) : Prop :=
  (forall j, j <> jobId ->
             Prisma.bulkPayrollJob db' !! j = Prisma.bulkPayrollJob db !! j)
  /\ job_key <$> Prisma.bulkPayrollJob db' !! jobId
     = job_key <$> Prisma.bulkPayrollJob db !! jobId
  /\ Forall2 (fun r r' => row_key r' = row_key r
                          /\ (Row.jobId r <> jobId -> r' = r))
       (Prisma.bulkPayrollRow db) (Prisma.bulkPayrollRow db').

(** The row [x] carries the outcome of [processPaymentRow] for its
    payment: the status, the count of attempts, the message of a failure,
    the response of the provider when there is one. *)
Definition settled (cfg : Worker.Config) (adapter : Worker.Adapter) (x : Row.t)
  : Prop :=
  let value := Spec.row_result adapter (Worker.MAX_RETRIES cfg) x in
  Row.status x = (if Worker.r_success value then Row.SUCCESS else Row.FAILED)
  /\ Row.attempts x = Worker.r_attempts value
  /\ (Worker.r_success value = false ->
      Row.errorMessage x = Worker.r_errorMessage value)
  /\ (forall p, Worker.r_providerResponse value = Some p ->
                Row.providerResponse x = Some p).

(** Every row of the table that has the id of a row of [processed] carries
    its outcome. *)
Definition processed_settled (cfg : Worker.Config) (adapter : Worker.Adapter)
    (processed : list Row.t) (db : Prisma.Db) : Prop :=
  forall x, In x (Prisma.bulkPayrollRow db) ->
            (exists p, In p processed /\ Row.id p = Row.id x) ->
            settled cfg adapter x.

(** The job is CANCELLED, the queue is empty, the worker has not taken the
    unit of work and the rows are [rows]. *)
Definition withdrawn (jobId : string) (rows : list Row.t) (s : System.Sys) : Prop :=
  System.job_status jobId s = Some Job.CANCELLED
  /\ System.queue s = []
  /\ System.worker s = System.Idle
  /\ Prisma.bulkPayrollRow (System.db s) = rows.

(** *** Keys of payments *)

(** A text without a colon. *)
Definition no_colon (s : string) : bool :=
  Js.forall_chars (fun c => negb (Ascii.eqb c ":")) s.

(** Two numbers are the same number: for finite ones, the same sign and
    the same value of [s * 10^e]. *)
Definition same_value (x y : Js.number) : Prop :=
  match x, y with
  | Js.Finite n1 s1 e1, Js.Finite n2 s2 e2 =>
      n1 = n2
      /\ Z.of_N s1 * 10 ^ (e1 - Z.min e1 e2) = Z.of_N s2 * 10 ^ (e2 - Z.min e1 e2)
  | _, _ => x = y
  end.

End Props.

(** ** More sample data *)

Module Examples.
Import Validation Prisma.

(** Headers in which an alias of the employee id comes before its own
    name. *)
Definition sample_headers : list string :=
  [ "emp_id"; "Employee_ID "; "Email"; "Salary"; "curr"; "date" ].

Definition sample_limits : UploadRoute.Limits :=
  {| UploadRoute.MAX_ROWS_PER_UPLOAD := 5000; UploadRoute.MAX_FILE_SIZE_MB := 10 |}.

Definition sample_generated : UploadRoute.Generated :=
  {| UploadRoute.new_job_id := "job-2";
     UploadRoute.new_row_id := fun k => "new-" +:+ Js.digits (N.of_nat k);
     UploadRoute.stored_normalized := fun row => row |}.

(** An upload of three rows: a valid one, the same again, and one whose
    amount has three decimals. *)
Definition sample_upload : list (gmap string value) :=
  [ Sample.sample_raw_row; Sample.sample_raw_row;
    <[ "amount" := VStr "100.999" ]> Sample.sample_raw_row ].

Definition sample_upload_headers : list string :=
  [ "employee_email"; "amount"; "currency"; "pay_date" ].

(** A mapping without a column for the e-mail address. *)
Definition mapping_without_email : CsvParser.ColumnMapping :=
  {| CsvParser.map_employee_id := Some "employee_id";
     CsvParser.map_employee_email := None;
     CsvParser.map_amount := Some "amount";
     CsvParser.map_currency := Some "currency";
     CsvParser.map_pay_date := Some "pay_date";
     CsvParser.map_description := None;
     CsvParser.map_external_reference := None |}.

(** An adapter that fails twice, then succeeds. *)
Definition succeeds_at_third : Worker.Adapter :=
  fun input attempt =>
    Worker.Resolves
      (if attempt <? 3
       then {| PaymentsAdapter.success := false; PaymentsAdapter.id := None;
               PaymentsAdapter.error := Some "Temporary service unavailable";
               PaymentsAdapter.rawResponse := None |}
       else {| PaymentsAdapter.success := true; PaymentsAdapter.id := Some "fake_1";
               PaymentsAdapter.error := None;
               PaymentsAdapter.rawResponse :=
                 Some (PaymentsAdapter.RawCompleted "2025-10-17T11:20:00.000Z"
                         (amount input) (currency input)) |}).

End Examples.

(** Tactics: a concatenation that is empty, a disjunction that is false,
    are split into their parts. *)
Ltac split_nil :=
  repeat match goal with
         | H : _ ++ _ = [] |- _ => apply app_eq_nil in H as [? H]
         end.

Ltac split_orb :=
  repeat match goal with
         | H : _ || _ = false |- _ => apply Bool.orb_false_iff in H as [H ?]
         end.

(** ** The model on some inputs *)

Example toString_1500 : Js.toString (Js.Number "1500.00") = "1500".
Proof. reflexivity. Qed.
Example toString_frac : Js.toString (Js.Number " 100.999 ") = "100.999".
Proof. reflexivity. Qed.
Example toString_small : Js.toString (Js.Number "0.0000001") = "1e-7".
Proof. reflexivity. Qed.
Example toString_small2 : Js.toString (Js.Number "0.00000123") = "0.00000123".
Proof. reflexivity. Qed.
Example toString_big : Js.toString (Js.Number "12e21") = "1.2e+22".
Proof. reflexivity. Qed.
Example toString_neg : Js.toString (Js.Number "-5") = "-5".
Proof. reflexivity. Qed.
Example toString_hex : Js.toString (Js.Number "0x1F") = "31".
Proof. reflexivity. Qed.
Example toString_abc : Js.toString (Js.Number "abc") = "NaN".
Proof. reflexivity. Qed.
Example toString_dot : Js.toString (Js.Number ".5e1") = "5".
Proof. reflexivity. Qed.
Example toString_001 : Js.toString (Js.Number "0.01") = "0.01".
Proof. reflexivity. Qed.
Example toString_rounded :
  Js.toString (Js.Number "100.10000000000000001") = "100.1".
Proof. vm_compute. reflexivity. Qed.
Example toString_sum :
  Js.toString (Js.Number "0.1000000000000000055511151231257827") = "0.1"
  /\ Js.toString (Js.Number "0.30000000000000004") = "0.30000000000000004"
  /\ Js.toString (Js.Number "0.3000000000000000444089209850062616") = "0.30000000000000004".
Proof. repeat split; vm_compute; reflexivity. Qed.
Example toString_tie :
  Js.toString (Js.Number "9007199254740993") = "9007199254740992"
  /\ Js.toString (Js.Number "9007199254740995") = "9007199254740996".
Proof. split; vm_compute; reflexivity. Qed.
Example toString_range :
  Js.toString (Js.Number "1e400") = "Infinity"
  /\ Js.toString (Js.Number "-1e400") = "-Infinity"
  /\ Js.toString (Js.Number "1e-400") = "0"
  /\ Js.toString (Js.Number "0x20000000000001") = "9007199254740992".
Proof. repeat split; vm_compute; reflexivity. Qed.
Example trim_no_break_space :
  Js.trim (String "160" " usd" +:+ String "160" "") = "usd"
  /\ Js.toString (Js.Number (String "160" "12.50")) = "12.5".
Proof. split; vm_compute; reflexivity. Qed.
Example toUpperCase_latin1 :
  Js.toUpperCase (String "224" (String "223" "d")) = String "192" "SSD".
Proof. reflexivity. Qed.

(** * Properties *)

(** ** processPaymentRow *)

Section RetryLoop.
Import PaymentsAdapter Worker Spec Sample.

Variable adapter : Adapter.
Variable row : Row.t.
Variable maxRetries : Z.

Lemma retry_loop_exit fuel attempts lastError trace :
  maxRetries <= attempts ->
  retry_loop fuel adapter row maxRetries attempts lastError trace
  = Some ({| r_success := false; r_providerResponse := None;
             r_errorMessage := Some (final_message lastError);
             r_attempts := attempts |}, trace).
Proof.
  intros H. destruct fuel; simpl;
    destruct (attempts <? maxRetries) eqn:E; try reflexivity; lia.
Qed.

(** With enough fuel the loop ends, and the count of attempts it returns
    is above the count it started from and at most [maxRetries]. *)
Lemma retry_loop_total fuel : forall attempts lastError trace,
  (Z.to_nat (maxRetries - attempts) <= fuel)%nat ->
  attempts < maxRetries ->
  exists r tr,
    retry_loop fuel adapter row maxRetries attempts lastError trace = Some (r, tr)
    /\ attempts < r_attempts r <= maxRetries.
Proof.
  induction fuel as [|fuel IH]; intros attempts lastError trace Hfuel Hlt.
  - lia.
  - simpl. destruct (attempts <? maxRetries) eqn:E; [|lia].
    assert (Hnext : forall m tr',
      exists r tr,
        retry_loop fuel adapter row maxRetries (attempts + 1) (Some m) tr'
        = Some (r, tr) /\ attempts < r_attempts r <= maxRetries).
    { intros m tr'. destruct (Z_lt_dec (attempts + 1) maxRetries) as [Hl|Hl].
      - destruct (IH (attempts + 1) (Some m) tr') as (r & tr & Hr & Hb); [lia|lia|].
        exists r, tr. split; [exact Hr|lia].
      - rewrite retry_loop_exit by lia. eexists _, _. split; [reflexivity|].
        simpl. lia. }
    destruct (adapter (Row.normalized row) (attempts + 1)) as [result|message].
    + destruct (success result).
      * eexists _, _. split; [reflexivity|]. simpl. lia.
      * apply Hnext.
    + apply Hnext.
Qed.

(** When the attempts [a + 1, ..., maxRetries] all fail, the loop makes all
    of them, waits between them and returns the failure built from the
    last error. *)
Lemma retry_loop_all_fail (n : nat) : forall attempts lastError trace,
  attempts + Z.of_nat n = maxRetries ->
  (n > 0)%nat ->
  (forall k, attempts < k <= maxRetries ->
             succeeds (adapter (Row.normalized row) k) = false) ->
  retry_loop n adapter row maxRetries attempts lastError trace
  = Some ({| r_success := false; r_providerResponse := None;
             r_errorMessage :=
               Some (final_message
                       (Some (failure_message
                                (adapter (Row.normalized row) maxRetries))));
             r_attempts := maxRetries |},
          trace ++ failing_trace maxRetries n attempts).
Proof.
  induction n as [|n IH]; intros attempts lastError trace Hn Hpos Hfail; [lia|].
  simpl retry_loop. destruct (attempts <? maxRetries) eqn:E; [|lia].
  assert (Hk := Hfail (attempts + 1) ltac:(lia)).
  assert (Hstep : forall m,
    m = failure_message (adapter (Row.normalized row) (attempts + 1)) ->
    retry_loop n adapter row maxRetries (attempts + 1) (Some m)
      (if attempts + 1 <? maxRetries
       then (trace ++ [Call (attempts + 1)]) ++ [Sleep (backoff_delay (attempts + 1))]
       else trace ++ [Call (attempts + 1)])
    = Some ({| r_success := false; r_providerResponse := None;
               r_errorMessage :=
                 Some (final_message
                         (Some (failure_message
                                  (adapter (Row.normalized row) maxRetries))));
               r_attempts := maxRetries |},
            trace ++ failing_trace maxRetries (S n) attempts)).
  { intros m Hm. destruct n as [|n'].
    - assert (attempts + 1 = maxRetries) as Heq by lia.
      rewrite retry_loop_exit by lia.
      destruct (attempts + 1 <? maxRetries) eqn:E2; [lia|].
      simpl. rewrite E2. simpl. rewrite Hm, Heq. reflexivity.
    - rewrite IH; [|lia|lia|intros; apply Hfail; lia].
      destruct (attempts + 1 <? maxRetries) eqn:E2; [|lia].
      f_equal. f_equal.
      change (failing_trace maxRetries (S (S n')) attempts)
        with (Call (attempts + 1)
              :: (if attempts + 1 <? maxRetries
                  then [Sleep (1000 * 2 ^ (attempts + 1 - 1))] else [])
              ++ failing_trace maxRetries (S n') (attempts + 1)).
      replace (1000 * 2 ^ (attempts + 1 - 1)) with (backoff_delay (attempts + 1))
        by (unfold backoff_delay; lia).
      rewrite E2. rewrite <- !app_assoc. reflexivity. }
  destruct (adapter (Row.normalized row) (attempts + 1)) as [result|message] eqn:Ea;
    simpl in Hk.
  - rewrite Hk. apply Hstep. reflexivity.
  - apply Hstep. reflexivity.
Qed.

(** One failed attempt: the call, the wait if attempts remain, and the
    loop again. *)
Lemma retry_loop_fail_step fuel attempts lastError trace :
  attempts < maxRetries ->
  succeeds (adapter (Row.normalized row) (attempts + 1)) = false ->
  retry_loop (S fuel) adapter row maxRetries attempts lastError trace
  = retry_loop fuel adapter row maxRetries (attempts + 1)
      (Some (failure_message (adapter (Row.normalized row) (attempts + 1))))
      ((trace ++ [Call (attempts + 1)])
       ++ (if attempts + 1 <? maxRetries
           then [Sleep (1000 * 2 ^ (attempts + 1 - 1))] else [])).
Proof.
  intros Hlt Hfail. simpl retry_loop.
  destruct (attempts <? maxRetries) eqn:E; [|lia].
  replace (backoff_delay (attempts + 1)) with (1000 * 2 ^ (attempts + 1 - 1))
    by (unfold backoff_delay; lia).
  destruct (adapter (Row.normalized row) (attempts + 1)) as [result|message];
    simpl in Hfail |- *.
  - rewrite Hfail. destruct (attempts + 1 <? maxRetries);
      [reflexivity|rewrite app_nil_r; reflexivity].
  - destruct (attempts + 1 <? maxRetries);
      [reflexivity|rewrite app_nil_r; reflexivity].
Qed.

(** One successful attempt ends the loop. *)
Lemma retry_loop_success_step fuel attempts lastError trace result :
  attempts < maxRetries ->
  adapter (Row.normalized row) (attempts + 1) = Resolves result ->
  success result = true ->
  retry_loop (S fuel) adapter row maxRetries attempts lastError trace
  = Some ({| r_success := true; r_providerResponse := rawResponse result;
             r_errorMessage := None; r_attempts := attempts + 1 |},
          trace ++ [Call (attempts + 1)]).
Proof.
  intros Hlt Ha Hs. simpl. destruct (attempts <? maxRetries) eqn:E; [|lia].
  rewrite Ha, Hs. reflexivity.
Qed.

(** When the attempts before [k] fail and attempt [k] succeeds, the loop
    retries after each failure, waiting in between, and returns the success
    of attempt [k]. *)
Lemma retry_loop_until_success (n : nat) :
  forall fuel attempts lastError trace k result,
  k = attempts + Z.of_nat n + 1 ->
  k <= maxRetries ->
  (n < fuel)%nat ->
  (forall j, attempts < j < k ->
             succeeds (adapter (Row.normalized row) j) = false) ->
  adapter (Row.normalized row) k = Resolves result ->
  success result = true ->
  retry_loop fuel adapter row maxRetries attempts lastError trace
  = Some ({| r_success := true; r_providerResponse := rawResponse result;
             r_errorMessage := None; r_attempts := k |},
          trace ++ failing_trace maxRetries n attempts ++ [Call k]).
Proof.
  induction n as [|n IH];
    intros fuel attempts lastError trace k result Hk Hmax Hfuel Hfail Ha Hs;
    (destruct fuel as [|fuel]; [lia|]).
  - assert (k = attempts + 1) as -> by lia.
    apply retry_loop_success_step; [lia|exact Ha|exact Hs].
  - rewrite retry_loop_fail_step; [|lia|apply Hfail; lia].
    rewrite (IH fuel (attempts + 1) _ _ k result);
      [|lia|lia|lia|intros; apply Hfail; lia|exact Ha|exact Hs].
    f_equal. f_equal. cbn [failing_trace].
    destruct (attempts + 1 <? maxRetries); simpl;
      rewrite <- ?app_assoc; simpl; reflexivity.
Qed.

End RetryLoop.

Section Retries.
Import PaymentsAdapter Prisma Worker Spec Sample.

(** Every promise of a batch is fulfilled. *)
Lemma settle_all_fulfilled cfg adapter batch :
  exists results,
    settle_all cfg adapter batch = Some results
    /\ Forall2 (fun row s =>
                  exists v tr,
                    processPaymentRow adapter row (MAX_RETRIES cfg) = Some (v, tr)
                    /\ s = Fulfilled v) batch results.
Proof.
  unfold settle_all. induction batch as [|row batch IH].
  - exists []. split; [reflexivity|constructor].
  - destruct IH as (results & Hres & Hall).
    assert (exists v tr,
      processPaymentRow adapter row (MAX_RETRIES cfg) = Some (v, tr))
      as (v & tr & Hv).
    { unfold processPaymentRow.
      destruct (Z_lt_dec 0 (MAX_RETRIES cfg)) as [Hpos|Hneg].
      - destruct (retry_loop_total adapter row (MAX_RETRIES cfg)
                    (Z.to_nat (MAX_RETRIES cfg)) 0 None [])
          as (r & tr & Hr & _); [lia|lia|eauto].
      - rewrite retry_loop_exit by lia. eauto. }
    exists (Fulfilled v :: results). split.
    + rewrite mapM_Some. constructor.
      * rewrite Hv. reflexivity.
      * rewrite <- mapM_Some. exact Hres.
    + constructor; [exists v, tr; auto|exact Hall].
Qed.

(** C10. [processPaymentRow] always returns a result, whatever the row, the
    bound and the adapter do (an adapter that throws included), so that
    every promise of a batch is fulfilled; for [maxRetries >= 1] the count
    of attempts lies between 1 and [maxRetries]; for [maxRetries = 0] the
    adapter is not called and the result is the failure with 0 attempts and
    the message 'Payment processing failed'. *)
Theorem processPaymentRow_total (adapter : Adapter) (row : Row.t) (maxRetries : Z) :
  (exists r tr,
     processPaymentRow adapter row maxRetries = Some (r, tr)
     /\ (1 <= maxRetries -> 1 <= r_attempts r <= maxRetries)
     /\ (maxRetries = 0 ->
         r = {| r_success := false; r_providerResponse := None;
                r_errorMessage := Some "Payment processing failed";
                r_attempts := 0 |}
         /\ tr = []))
  /\ (forall cfg batch,
        exists results,
          settle_all cfg adapter batch = Some results
          /\ Forall (fun s => exists v, s = Fulfilled v) results).
Proof.
  split.
  - unfold processPaymentRow.
    destruct (Z_lt_dec 0 maxRetries) as [Hpos|Hneg].
    + destruct (retry_loop_total adapter row maxRetries
                  (Z.to_nat maxRetries) 0 None [])
        as (r & tr & Hr & Hb); [lia|lia|].
      exists r, tr. split; [exact Hr|]. split; [lia|lia].
    + rewrite retry_loop_exit by lia. eexists _, _. split; [reflexivity|].
      split; [lia|]. intros ->. split; reflexivity.
  - intros cfg batch.
    destruct (settle_all_fulfilled cfg adapter batch) as (results & Hres & Hall).
    exists results. split; [exact Hres|].
    clear Hres. induction Hall as [|row' s batch' results' (v & tr & _ & ->) _ IH];
      constructor; eauto.
Qed.

Lemma processPaymentRow_total_witness :
  exists r tr,
    processPaymentRow (declines (Some "Invalid account")) (sample_row "row-0" 0) 3
    = Some (r, tr)
    /\ 1 <= r_attempts r <= 3.
Proof.
  destruct (processPaymentRow_total (declines (Some "Invalid account"))
              (sample_row "row-0" 0) 3) as [(r & tr & Hr & Hb & _) _].
  exists r, tr. split; [exact Hr|]. apply Hb. lia.
Defined.

(** The claim of C1 fails as it is stated: an adapter whose failures carry
    an empty error text is retried three times, and the result does not
    carry that last message but the fallback text. *)
Lemma last_error_message_replaced :
  exists r tr,
    processPaymentRow (declines (Some "")) (sample_row "row-0" 0) 3 = Some (r, tr)
    /\ r_success r = false
    /\ r_attempts r = 3
    /\ r_errorMessage r = Some "Payment processing failed"
    /\ r_errorMessage r
       <> Some (failure_message
                  (declines (Some "") (Row.normalized (sample_row "row-0" 0)) 3)).
Proof.
  eexists _, _. split; [reflexivity|]. simpl. repeat split. discriminate.
Qed.

(** C1 (amended). For [maxRetries >= 1] and an adapter none of whose
    attempts succeeds (reported failure or exception), [processPaymentRow]
    calls the adapter [maxRetries] times, waits [2 ^ (k - 1)] seconds after
    the failed attempt [k] while attempts remain, and returns a failure with
    [attempts = maxRetries] whose message is the message of the last error,
    or 'Payment processing failed' when that message is empty; the worker
    then stores FAILED and that count of attempts in the row.  When the
    attempts before [k] fail and attempt [k] succeeds, the adapter is
    called [k] times with the same waits and the success is returned with
    [attempts = k]. *)
Theorem processPaymentRow_exhausts_retries
    (adapter : Adapter) (row : Row.t) (maxRetries : Z) :
  1 <= maxRetries ->
  ((forall k, 1 <= k <= maxRetries ->
              succeeds (adapter (Row.normalized row) k) = false) ->
   let last := failure_message (adapter (Row.normalized row) maxRetries) in
   let result :=
     {| r_success := false; r_providerResponse := None;
        r_errorMessage :=
          Some (if String.eqb last "" then "Payment processing failed" else last);
        r_attempts := maxRetries |} in
   processPaymentRow adapter row maxRetries
   = Some (result, failing_trace maxRetries (Z.to_nat maxRetries) 0)
   /\ forall cfg db c x,
        x ∈ bulkPayrollRow (fst (record_result cfg (db, c) (row, Fulfilled result))) ->
        Row.id x = Row.id row ->
        Row.status x = Row.FAILED /\ Row.attempts x = maxRetries)
  /\ (forall k response,
        1 <= k <= maxRetries ->
        (forall j, 1 <= j < k ->
                   succeeds (adapter (Row.normalized row) j) = false) ->
        adapter (Row.normalized row) k = Resolves response ->
        success response = true ->
        processPaymentRow adapter row maxRetries
        = Some ({| r_success := true; r_providerResponse := rawResponse response;
                   r_errorMessage := None; r_attempts := k |},
                failing_trace maxRetries (Z.to_nat (k - 1)) 0 ++ [Call k])).
Proof.
  intros Hpos. split.
  - intros Hfail last result. split.
    + unfold processPaymentRow.
      rewrite (retry_loop_all_fail adapter row maxRetries (Z.to_nat maxRetries));
        [reflexivity|lia|lia|intros; apply Hfail; lia].
    + intros cfg db c x Hx Hid. simpl in Hx.
      apply list_elem_of_fmap in Hx as (y & -> & Hy).
      destruct (String.eqb (Row.id y) (Row.id row)) eqn:E.
      * simpl. auto.
      * apply String.eqb_neq in E. contradiction.
  - intros k response Hk Hfail Hres Hsucc. unfold processPaymentRow.
    rewrite (retry_loop_until_success adapter row maxRetries (Z.to_nat (k - 1))
               (Z.to_nat maxRetries) 0 None [] k response);
      [reflexivity|lia|lia|lia| |exact Hres|exact Hsucc].
    intros j Hj. apply Hfail. lia.
Qed.

Lemma processPaymentRow_exhausts_retries_witness :
  processPaymentRow (declines (Some "Invalid account")) (sample_row "row-0" 0) 3
  = Some ({| r_success := false; r_providerResponse := None;
             r_errorMessage := Some "Invalid account"; r_attempts := 3 |},
          [Call 1; Sleep 1000; Call 2; Sleep 2000; Call 3]).
Proof.
  exact (proj1 (proj1 (processPaymentRow_exhausts_retries
                         (declines (Some "Invalid account")) (sample_row "row-0" 0) 3
                         ltac:(lia))
                 (fun k _ => eq_refl))).
Defined.

End Retries.

(** ** FakePaymentsAdapter *)

Section Determinism.
Import Validation PaymentsAdapter.

Lemma seededRandom_milli_seed a1 a2 input :
  seed a1 = seed a2 -> seededRandom_milli a1 input = seededRandom_milli a2 input.
Proof. unfold seededRandom_milli. intros ->. reflexivity. Qed.

(** C9. Two fake adapters with the same seed and the same success rate
    give, for the same row, the same success flag and the same error text,
    whatever their latencies and whatever the clock and the random source
    return at each call; the latency is the time waited and nothing else. *)
Theorem createPayment_deterministic
    (a1 a2 : FakePaymentsAdapter) (amb1 amb2 : Ambient) (input : PaymentRow) :
  seed a1 = seed a2 ->
  successRate a1 = successRate a2 ->
  success (snd (createPayment a1 amb1 input))
  = success (snd (createPayment a2 amb2 input))
  /\ error (snd (createPayment a1 amb1 input))
     = error (snd (createPayment a2 amb2 input))
  /\ fst (createPayment a1 amb1 input) = latencyMs a1
  /\ fst (createPayment a2 amb2 input) = latencyMs a2.
Proof.
  intros Hseed Hrate. unfold createPayment, seededRandom. cbn [fst snd].
  rewrite <- Hrate.
  rewrite <- !(seededRandom_milli_seed a1 a2) by exact Hseed.
  set (rand := Js.Finite false (Z.to_N (seededRandom_milli a1 (payment_key input))) (-3)).
  destruct (Js.lt rand (successRate a1)); cbn [success error]; auto.
Qed.

Lemma createPayment_deterministic_witness :
  let a1 := {| successRate := Js.Finite false 5 (-1); latencyMs := 0; seed := 42 |} in
  let a2 := {| successRate := Js.Finite false 5 (-1); latencyMs := 250; seed := 42 |} in
  let amb1 := {| date_now := 1760700000000; random_text := "k3j9x0q1z";
                 iso_timestamp := "2025-10-17T11:20:00.000Z" |} in
  let amb2 := {| date_now := 1760700009999; random_text := "a8s7d6f5g";
                 iso_timestamp := "2025-10-17T11:20:09.999Z" |} in
  success (snd (createPayment a1 amb1 Sample.sample_payment))
  = success (snd (createPayment a2 amb2 Sample.sample_payment))
  /\ error (snd (createPayment a1 amb1 Sample.sample_payment))
     = error (snd (createPayment a2 amb2 Sample.sample_payment)).
Proof.
  intros a1 a2 amb1 amb2.
  destruct (createPayment_deterministic a1 a2 amb1 amb2 Sample.sample_payment
              eq_refl eq_refl) as (H1 & H2 & _).
  split; [exact H1|exact H2].
Defined.

End Determinism.

(** ** The cancel handler *)

Section Cancel.
Import Prisma CancelRoute Spec Sample.

Lemma POST_conflict redis userId jobId db queue job :
  bulkPayrollJob db !! jobId = Some job ->
  Job.uploaderId job = userId ->
  cancellable (Job.status job) = false ->
  POST redis (Some userId) jobId db queue = (Error "INVALID_STATE" 409, db, queue).
Proof.
  intros Hjob Hown Hst. unfold POST. rewrite Hjob, Hown.
  rewrite String.eqb_refl. simpl.
  destruct (Job.status job); simpl in Hst; try discriminate; reflexivity.
Qed.

Lemma POST_accepted redis userId jobId db queue job :
  bulkPayrollJob db !! jobId = Some job ->
  Job.uploaderId job = userId ->
  cancellable (Job.status job) = true ->
  POST redis (Some userId) jobId db queue
  = (Ok jobId Job.CANCELLED, update_job db jobId cancelled,
     if Job.Status_eqb (Job.status job) Job.QUEUED && redis
     then filter (fun q => q <> jobId) queue else queue).
Proof.
  intros Hjob Hown Hst. unfold POST. rewrite Hjob, Hown.
  rewrite String.eqb_refl. simpl.
  destruct (Job.status job); simpl in Hst; try discriminate; reflexivity.
Qed.

(** C8. For a job of the requesting user, the cancel handler answers 200
    and writes CANCELLED exactly when the status is QUEUED or PROCESSING;
    in every other status, CANCELLED included, it answers 409 and changes
    neither the database nor the queue, so that a second cancel request on
    a job just cancelled gets the 409. *)
Theorem cancel_accepted_iff_queued_or_processing
    (redis : bool) (userId jobId : string) (db : Db) (queue : list string)
    (job : Job.t) (response : Response) (db' : Db) (queue' : list string) :
  bulkPayrollJob db !! jobId = Some job ->
  Job.uploaderId job = userId ->
  POST redis (Some userId) jobId db queue = (response, db', queue') ->
  (response = Ok jobId Job.CANCELLED
   <-> Job.status job = Job.QUEUED \/ Job.status job = Job.PROCESSING)
  /\ (response = Ok jobId Job.CANCELLED ->
      bulkPayrollJob db' !! jobId = Some (cancelled job)
      /\ Job.status (cancelled job) = Job.CANCELLED
      /\ bulkPayrollRow db' = bulkPayrollRow db
      /\ forall redis' queue2,
           POST redis' (Some userId) jobId db' queue2
           = (Error "INVALID_STATE" 409, db', queue2))
  /\ (response <> Ok jobId Job.CANCELLED ->
      response = Error "INVALID_STATE" 409 /\ db' = db /\ queue' = queue).
Proof.
  intros Hjob Hown HP.
  destruct (cancellable (Job.status job)) eqn:Hc.
  - rewrite (POST_accepted _ _ _ _ _ _ Hjob Hown Hc) in HP.
    injection HP as <- <- <-.
    assert (Hl : bulkPayrollJob (update_job db jobId cancelled) !! jobId
                 = Some (cancelled job)).
    { unfold update_job. simpl. rewrite lookup_alter_eq, Hjob. reflexivity. }
    split; [|split].
    + split; [|reflexivity]. intros _.
      destruct (Job.status job); simpl in Hc; try discriminate; auto.
    + intros _. split; [exact Hl|]. split; [reflexivity|]. split; [reflexivity|].
      intros redis' queue2. apply (POST_conflict _ _ _ _ _ _ Hl); [exact Hown|reflexivity].
    + intros Hne. contradiction.
  - rewrite (POST_conflict _ _ _ _ _ _ Hjob Hown Hc) in HP.
    injection HP as <- <- <-.
    split; [|split].
    + split; [discriminate|].
      intros [H|H]; rewrite H in Hc; discriminate.
    + discriminate.
    + auto.
Qed.

Lemma cancel_accepted_iff_queued_or_processing_witness :
  fst (fst (POST true (Some "user-1") "job-1" (sample_db Job.QUEUED) ["job-1"]))
  = Ok "job-1" Job.CANCELLED
  /\ forall queue2,
       POST true (Some "user-1") "job-1"
         (snd (fst (POST true (Some "user-1") "job-1" (sample_db Job.QUEUED) ["job-1"])))
         queue2
       = (Error "INVALID_STATE" 409,
          snd (fst (POST true (Some "user-1") "job-1" (sample_db Job.QUEUED) ["job-1"])),
          queue2).
Proof.
  pose proof (cancel_accepted_iff_queued_or_processing true "user-1" "job-1"
                (sample_db Job.QUEUED) ["job-1"] (sample_job Job.QUEUED)
                (Ok "job-1" Job.CANCELLED)
                (update_job (sample_db Job.QUEUED) "job-1" cancelled) []
                eq_refl eq_refl eq_refl) as (_ & H & _).
  split; [reflexivity|].
  intros queue2. exact (proj2 (proj2 (proj2 (H eq_refl))) true queue2).
Defined.

End Cancel.

(** ** The status of a job under the worker and cancel requests *)

Section Lifecycle.
Import Prisma Worker System Spec Sample.

Variable cfg : Config.
Variable adapter : Adapter.
Variable redis : bool.
Variable jobId : string.

Lemma record_results_jobs items : forall db c,
  bulkPayrollJob (fst (foldl (record_result cfg) (db, c) items)) = bulkPayrollJob db.
Proof.
  induction items as [|[row result] items IH]; intros db c; [reflexivity|].
  simpl foldl. destruct result; simpl record_result; rewrite IH; reflexivity.
Qed.

Lemma process_batch_status rows i c db db' c' :
  process_batch cfg adapter jobId rows i c db = Some (db', c') ->
  Job.status <$> bulkPayrollJob db' !! jobId = Job.status <$> bulkPayrollJob db !! jobId.
Proof.
  unfold process_batch. destruct (settle_all _ _ _) as [results|]; [|discriminate].
  pose proof (record_results_jobs
                (zip (slice rows i (i + BATCH_SIZE cfg)) results) db c) as Hj.
  destruct (foldl _ _ _) as [db1 c1]. simpl in Hj.
  intros [= <- <-]. unfold update_job. simpl.
  rewrite lookup_alter_eq, Hj. destruct (bulkPayrollJob db !! jobId); reflexivity.
Qed.

Lemma POST_status user db q resp db' q' :
  CancelRoute.POST redis user jobId db q = (resp, db', q') ->
  Job.status <$> bulkPayrollJob db' !! jobId = Job.status <$> bulkPayrollJob db !! jobId
  \/ (exists st, Job.status <$> bulkPayrollJob db !! jobId = Some st
                 /\ cancellable st = true
                 /\ Job.status <$> bulkPayrollJob db' !! jobId = Some Job.CANCELLED).
Proof.
  unfold CancelRoute.POST. intros HP.
  destruct user as [userId|]; [|injection HP as <- <- <-; auto].
  destruct (bulkPayrollJob db !! jobId) as [job|] eqn:Hjob;
    [|injection HP as <- <- <-; rewrite Hjob; auto].
  destruct (negb _); [injection HP as <- <- <-; rewrite Hjob; auto|].
  destruct (Job.status job) eqn:Hs; injection HP as <- <- <-;
    try (left; rewrite Hjob; reflexivity);
    right; exists (Job.status job); rewrite Hs; simpl; rewrite Hs;
    (split; [reflexivity|]); (split; [reflexivity|]);
    rewrite lookup_alter_eq, Hjob; reflexivity.
Qed.

(** What a step does to the status of the job and to the worker: a step of
    the worker needs a worker that has not finished, and either leaves the
    status as it is (a batch), or finishes the worker, or writes
    PROCESSING; a cancel request leaves the worker as it is and the status
    too, unless the status was QUEUED or PROCESSING. *)
Lemma step_effect l s s' :
  step cfg adapter redis jobId l s = Some s' ->
  worker s <> Finished
  /\ ((l = WorkerBatch /\ job_status jobId s' = job_status jobId s
       /\ worker s' <> Finished)
      \/ (worker_write l = true
          /\ (worker s' = Finished
              \/ job_status jobId s' = Some Job.PROCESSING)))
  \/ (worker_write l = false /\ worker s' = worker s
      /\ (job_status jobId s' = job_status jobId s
          \/ exists st, job_status jobId s = Some st /\ cancellable st = true
                        /\ job_status jobId s' = Some Job.CANCELLED)).
Proof.
  unfold step, job_status. intros Hstep.
  destruct l as [now| |now|now|user].
  - left. destruct (worker s); try discriminate. split; [discriminate|].
    destruct (in_queue _ _); [|discriminate]. right. split; [reflexivity|].
    unfold findUnique_with_rows in Hstep.
    destruct (bulkPayrollJob (db s) !! jobId) as [j|] eqn:Hj;
      injection Hstep as <-; simpl; [right|left; reflexivity].
    rewrite lookup_alter_eq, Hj. reflexivity.
  - left. destruct (worker s) as [|rows i c|]; try discriminate.
    split; [discriminate|]. left.
    destruct (_ <? _); [|discriminate].
    destruct (process_batch _ _ _ _ _ _ _) as [[db' c']|] eqn:Hb; [|discriminate].
    injection Hstep as <-. simpl. split; [reflexivity|]. split; [|discriminate].
    apply (process_batch_status _ _ _ _ _ _ Hb).
  - left. destruct (worker s) as [|rows i c|]; try discriminate.
    split; [discriminate|]. right. split; [reflexivity|].
    destruct (_ <? _); [discriminate|]. injection Hstep as <-. left. reflexivity.
  - left. destruct (worker s) as [|rows i c|]; try discriminate.
    + split; [discriminate|]. right. split; [reflexivity|].
      destruct (in_queue _ _); [|discriminate]. injection Hstep as <-. left. reflexivity.
    + split; [discriminate|]. right. split; [reflexivity|].
      injection Hstep as <-. left. reflexivity.
  - right. split; [reflexivity|].
    assert (Hc : exists resp db' q',
      CancelRoute.POST redis user jobId (db s) (queue s) = (resp, db', q')
      /\ s' = {| db := db'; queue := q'; worker := worker s |}).
    { destruct (CancelRoute.POST _ _ _ _ _) as [[resp db'] q'].
      exists resp, db', q'. split; [reflexivity|].
      destruct (worker s); injection Hstep as <-; reflexivity. }
    destruct Hc as (resp & db' & q' & HP & ->). simpl. split; [reflexivity|].
    apply (POST_status _ _ _ _ _ _ HP).
Qed.

Lemma step_preserves_invariant l s s' :
  step cfg adapter redis jobId l s = Some s' ->
  settled_means_finished jobId s -> settled_means_finished jobId s'.
Proof.
  intros Hstep Hinv st Hst Hsettled.
  destruct (step_effect _ _ _ Hstep)
    as [[Hw [(_ & Hs & _)|(_ & [Hf|Hp])]]|(_ & Hw & [Hs|(st0 & _ & _ & Hs)])].
  - rewrite Hs in Hst. exfalso. apply Hw. eapply Hinv; eauto.
  - exact Hf.
  - rewrite Hp in Hst. injection Hst as <-. destruct Hsettled; discriminate.
  - rewrite Hw. rewrite Hs in Hst. eapply Hinv; eauto.
  - rewrite Hs in Hst. injection Hst as <-. destruct Hsettled; discriminate.
Qed.

Lemma run_preserves_invariant ls : forall s s',
  run cfg adapter redis jobId ls s = Some s' ->
  settled_means_finished jobId s -> settled_means_finished jobId s'.
Proof.
  induction ls as [|l ls IH]; intros s s' Hrun Hinv; simpl in Hrun.
  - injection Hrun as <-. exact Hinv.
  - destruct (step _ _ _ _ _ _) as [s1|] eqn:Hstep; [|discriminate].
    eapply IH; [exact Hrun|]. eapply step_preserves_invariant; eauto.
Qed.

Lemma initial_invariant s : initial jobId s -> settled_means_finished jobId s.
Proof.
  intros (Hq & _ & _) st Hst [-> | ->]; rewrite Hq in Hst; discriminate.
Qed.

End Lifecycle.

(** The claim of C3 fails as it is stated: a job cancelled while the worker
    processes it is CANCELLED, a terminal status, and the write of the
    worker after its last batch turns it into COMPLETED. *)
Lemma cancelled_job_becomes_completed :
  let s0 := {| System.db := Sample.sample_db Job.QUEUED;
               System.queue := ["job-1"]; System.worker := System.Idle |} in
  let go := System.run Sample.sample_config (Sample.declines (Some "Invalid account"))
              true "job-1" in
  System.initial "job-1" s0
  /\ exists s1 s2,
       go [System.WorkerStart 10; System.WorkerBatch;
           System.CancelRequest (Some "user-1")] s0 = Some s1
       /\ System.job_status "job-1" s1 = Some Job.CANCELLED
       /\ Job.terminal Job.CANCELLED = true
       /\ System.step Sample.sample_config (Sample.declines (Some "Invalid account"))
            true "job-1" (System.WorkerComplete 20) s1 = Some s2
       /\ System.job_status "job-1" s2 = Some Job.COMPLETED.
Proof.
  split; [repeat split|].
  eexists _, _. split; [vm_compute; reflexivity|].
  split; [vm_compute; reflexivity|]. split; [reflexivity|].
  split; vm_compute; reflexivity.
Qed.

(** ** Cancel requests that run beside the worker *)

Section Interleaving.
Import Prisma Worker Spec Sample.

Variable cfg : Config.
Variable adapter : Adapter.
Variable redis : bool.
Variable jobId : string.

(** A request goes on after its read only when it has read QUEUED or
    PROCESSING, the status of the job at that time. *)
Lemma read_inr user db status :
  CancelRoute.read user jobId db = inr status ->
  cancellable status = true
  /\ Job.status <$> bulkPayrollJob db !! jobId = Some status.
Proof.
  unfold CancelRoute.read. destruct user as [userId|]; [|discriminate].
  destruct (bulkPayrollJob db !! jobId) as [job|]; [|discriminate].
  destruct (negb _); [discriminate|].
  destruct (Job.status job) eqn:E; try discriminate; intros [= <-]; simpl;
    rewrite E; auto.
Qed.

(** [POST] is its read followed by the removal from the queue and by the
    write. *)
Lemma POST_read user db queue :
  CancelRoute.POST redis user jobId db queue
  = match CancelRoute.read user jobId db with
    | inl response => (response, db, queue)
    | inr status =>
        (CancelRoute.Ok jobId Job.CANCELLED,
         update_job db jobId CancelRoute.cancelled,
         if CancelRoute.removes redis status then System.dequeue jobId queue else queue)
    end.
Proof.
  unfold CancelRoute.POST, CancelRoute.read, CancelRoute.removes.
  destruct user as [userId|]; [|reflexivity].
  destruct (bulkPayrollJob db !! jobId) as [job|]; [|reflexivity].
  destruct (negb _); [reflexivity|].
  destruct (Job.status job); reflexivity.
Qed.

(** A request during which nothing else happens has the effect of [POST]
    in one step. *)
Lemma request_without_interleaving user s :
  Concurrent.run cfg adapter redis jobId
    (Concurrent.request_steps redis user jobId s) s
  = Concurrent.step cfg adapter redis jobId
      (Concurrent.Atomic (System.CancelRequest user)) s.
Proof.
  unfold Concurrent.request_steps.
  cbn [Concurrent.step]. unfold System.step.
  rewrite POST_read.
  destruct s as [[db queue w] fl]. cbn [Concurrent.sys Concurrent.inflight System.db
    System.queue System.worker] in *.
  destruct (CancelRoute.read user jobId db) as [resp|status] eqn:Hr.
  - cbn [Concurrent.run Concurrent.step Concurrent.sys System.db]. rewrite Hr.
    destruct w; reflexivity.
  - assert (Hl : forall r, (fl ++ [r]) !! List.length fl = Some r).
    { intros r. apply list_lookup_middle. reflexivity. }
    assert (Hd : forall r, delete (List.length fl) (fl ++ [r]) = fl).
    { intros r. rewrite (delete_middle fl [] r). apply app_nil_r. }
    assert (Hi : forall r r', <[List.length fl := r']> (fl ++ [r]) = fl ++ [r']).
    { intros r r'. rewrite insert_app_r_alt by lia.
      rewrite Nat.sub_diag. reflexivity. }
    destruct (CancelRoute.removes redis status) eqn:Hrem.
    + cbn [app Concurrent.run Concurrent.step Concurrent.sys Concurrent.inflight
        System.db System.queue System.worker].
      rewrite Hr. cbn [Concurrent.sys Concurrent.inflight]. rewrite Hl.
      unfold Concurrent.to_remove. cbn [Concurrent.seen Concurrent.removed].
      rewrite Hrem. cbn [andb negb Concurrent.sys Concurrent.inflight System.db
        System.queue System.worker].
      rewrite Hi, Hl. cbn [Concurrent.seen Concurrent.removed].
      rewrite Hrem. cbn [andb negb]. rewrite Hd. destruct w; reflexivity.
    + cbn [app Concurrent.run Concurrent.step Concurrent.sys Concurrent.inflight
        System.db System.queue System.worker].
      rewrite Hr. cbn [Concurrent.sys Concurrent.inflight]. rewrite Hl.
      unfold Concurrent.to_remove. cbn [Concurrent.seen Concurrent.removed].
      rewrite Hrem. cbn [andb negb Concurrent.sys Concurrent.inflight System.db
        System.queue System.worker].
      rewrite Hd. destruct w; reflexivity.
Qed.


(** What holds of every state reached from a dispatched job. *)
Lemma concurrent_step_invariant l s s' :
  Concurrent.step cfg adapter redis jobId l s = Some s' ->
  System.settled_means_finished jobId (Concurrent.sys s)
  /\ Concurrent.read_while_cancellable s ->
  System.settled_means_finished jobId (Concurrent.sys s')
  /\ Concurrent.read_while_cancellable s'.
Proof.
  unfold Concurrent.read_while_cancellable.
  intros Hstep [Hinv Hfl]. destruct l as [l0|user|k|k|k]; cbn [Concurrent.step] in Hstep.
  - destruct (System.step _ _ _ _ _ _) as [s1|] eqn:E; [|discriminate].
    injection Hstep as <-. split; [|exact Hfl].
    eapply step_preserves_invariant; eauto.
  - destruct (CancelRoute.read _ _ _) as [resp|status] eqn:E;
      injection Hstep as <-; [auto|].
    split; [exact Hinv|]. cbn [Concurrent.inflight].
    apply Forall_app. split; [exact Hfl|].
    apply Forall_singleton. cbn [Concurrent.seen]. apply (read_inr _ _ _ E).
  - destruct (Concurrent.inflight s !! k) as [r|] eqn:Hk; [|discriminate].
    destruct (Concurrent.to_remove redis r); [|discriminate].
    injection Hstep as <-. split.
    + exact Hinv.
    + cbn [Concurrent.inflight]. apply Forall_insert; [exact Hfl|].
      cbn [Concurrent.seen]. exact (proj1 (Forall_lookup _ _) Hfl k r Hk).
  - destruct (Concurrent.inflight s !! k) as [r|] eqn:Hk; [|discriminate].
    destruct (Concurrent.to_remove redis r); [discriminate|].
    injection Hstep as <-. split.
    + intros st Hst Hsettled. unfold System.job_status in Hst.
      cbn [Concurrent.sys System.db] in Hst. unfold update_job in Hst.
      cbn [bulkPayrollJob] in Hst. rewrite lookup_alter_eq in Hst.
      destruct (bulkPayrollJob (System.db (Concurrent.sys s)) !! jobId);
        [|discriminate].
      injection Hst as <-. destruct Hsettled; discriminate.
    + cbn [Concurrent.inflight]. apply Forall_delete. exact Hfl.
  - destruct (Concurrent.inflight s !! k) as [r|] eqn:Hk; [|discriminate].
    injection Hstep as <-. split; [exact Hinv|].
    cbn [Concurrent.inflight]. apply Forall_delete. exact Hfl.
Qed.

Lemma concurrent_run_invariant ls : forall s s',
  Concurrent.run cfg adapter redis jobId ls s = Some s' ->
  System.settled_means_finished jobId (Concurrent.sys s)
  /\ Concurrent.read_while_cancellable s ->
  System.settled_means_finished jobId (Concurrent.sys s')
  /\ Concurrent.read_while_cancellable s'.
Proof.
  induction ls as [|l ls IH]; intros s s' Hrun Hinv; simpl in Hrun.
  - injection Hrun as <-. exact Hinv.
  - destruct (Concurrent.step _ _ _ _ _ _) as [s1|] eqn:Hstep; [|discriminate].
    eapply IH; [exact Hrun|]. eapply concurrent_step_invariant; eauto.
Qed.

End Interleaving.

(** The write of a cancel request is not guarded either: a request that
    has read PROCESSING writes CANCELLED over the COMPLETED that the
    worker has written in between. *)
Lemma completed_job_becomes_cancelled :
  let s0 := {| Concurrent.sys :=
                 {| System.db := Sample.sample_db Job.QUEUED;
                    System.queue := ["job-1"]; System.worker := System.Idle |};
               Concurrent.inflight := [] |} in
  let go := Concurrent.run Sample.sample_config
              (Sample.declines (Some "Invalid account")) true "job-1" in
  Concurrent.initial "job-1" s0
  /\ exists s1 s2,
       go [Concurrent.Atomic (System.WorkerStart 10);
           Concurrent.CancelRead (Some "user-1");
           Concurrent.Atomic System.WorkerBatch;
           Concurrent.Atomic (System.WorkerComplete 20)] s0 = Some s1
       /\ Concurrent.job_status "job-1" s1 = Some Job.COMPLETED
       /\ go [Concurrent.CancelUpdate 0] s1 = Some s2
       /\ Concurrent.job_status "job-1" s2 = Some Job.CANCELLED.
Proof.
  split; [repeat split|].
  eexists _, _. split; [vm_compute; reflexivity|].
  split; [vm_compute; reflexivity|].
  split; vm_compute; reflexivity.
Qed.

(** C3 (amended). Along every sequence of steps of the worker and of
    cancel requests on a dispatched job, where a request reads the job,
    removes the unit of work from the queue and writes CANCELLED in
    separate steps: a request that reads a terminal status ends there and
    changes nothing; a step that changes a terminal status is either a
    status write of the worker on a CANCELLED job (PROCESSING at the start
    of the unit of work, COMPLETED after the last batch, FAILED from the
    catch block), or the write of a request in flight, which had read
    QUEUED or PROCESSING, on a job that is COMPLETED or FAILED by now and
    becomes CANCELLED.  Neither write looks at the current status. *)
Theorem terminal_status_left_only_by_unguarded_write
    (cfg : Worker.Config) (adapter : Worker.Adapter) (redis : bool)
    (jobId : string) (s0 s s' : Concurrent.Sys) (ls : list Concurrent.Label)
    (l : Concurrent.Label) (st : Job.Status) :
  Concurrent.initial jobId s0 ->
  Concurrent.run cfg adapter redis jobId ls s0 = Some s ->
  Concurrent.step cfg adapter redis jobId l s = Some s' ->
  Concurrent.job_status jobId s = Some st ->
  Job.terminal st = true ->
  (forall user, l = Concurrent.CancelRead user -> s' = s)
  /\ (Concurrent.job_status jobId s' = Some st
      \/ (st = Job.CANCELLED
          /\ exists l0, l = Concurrent.Atomic l0 /\ System.worker_write l0 = true)
      \/ ((st = Job.COMPLETED \/ st = Job.FAILED)
          /\ Concurrent.job_status jobId s' = Some Job.CANCELLED
          /\ exists k r, l = Concurrent.CancelUpdate k
                         /\ Concurrent.inflight s !! k = Some r
                         /\ Spec.cancellable (Concurrent.seen r) = true)).
Proof.
  intros [Hinit Hnone] Hrun Hstep Hst Hterm.
  assert (Hinv0 : System.settled_means_finished jobId (Concurrent.sys s0)
                  /\ Concurrent.read_while_cancellable s0).
  { split; [apply initial_invariant; exact Hinit|].
    unfold Concurrent.read_while_cancellable. rewrite Hnone. constructor. }
  destruct (concurrent_run_invariant cfg adapter redis jobId ls s0 s Hrun Hinv0)
    as [Hinv Hfl].
  unfold Concurrent.job_status in *.
  destruct l as [l0|user|k|k|k]; cbn [Concurrent.step] in Hstep.
  - split; [discriminate|].
    destruct (System.step _ _ _ _ _ _) as [s1|] eqn:E; [|discriminate].
    injection Hstep as <-. cbn [Concurrent.sys].
    destruct (step_effect _ _ _ _ _ _ _ E)
      as [[Hw [(_ & Hs & _)|(Hl & _)]]|(_ & _ & [Hs|(st0 & Hst0 & Hc & _)])].
    + left. rewrite Hs. exact Hst.
    + right. left. split; [|exists l0; auto].
      destruct st; try discriminate; try reflexivity;
        exfalso; apply Hw; eapply Hinv; eauto.
    + left. rewrite Hs. exact Hst.
    + rewrite Hst in Hst0. injection Hst0 as <-. destruct st; discriminate.
  - assert (Hsame : s' = s).
    { destruct (CancelRoute.read _ _ _) as [resp|status] eqn:E;
        [injection Hstep as <-; reflexivity|].
      apply read_inr in E as [Hc Hjob]. unfold System.job_status in Hst.
      rewrite Hst in Hjob. injection Hjob as <-. destruct st; discriminate. }
    split; [intros _ _; exact Hsame|]. left. rewrite Hsame. exact Hst.
  - split; [discriminate|]. left.
    destruct (Concurrent.inflight s !! k) as [r|]; [|discriminate].
    destruct (Concurrent.to_remove redis r); [|discriminate].
    injection Hstep as <-. exact Hst.
  - split; [discriminate|].
    destruct (Concurrent.inflight s !! k) as [r|] eqn:Hk; [|discriminate].
    destruct (Concurrent.to_remove redis r); [discriminate|].
    injection Hstep as <-.
    assert (Hnew : System.job_status jobId
                     {| System.db := Prisma.update_job (System.db (Concurrent.sys s)) jobId
                                       CancelRoute.cancelled;
                        System.queue := System.queue (Concurrent.sys s);
                        System.worker := System.worker (Concurrent.sys s) |}
                   = Some Job.CANCELLED).
    { unfold System.job_status in *. cbn [System.db]. unfold Prisma.update_job.
      cbn [Prisma.bulkPayrollJob]. rewrite lookup_alter_eq.
      destruct (Prisma.bulkPayrollJob (System.db (Concurrent.sys s)) !! jobId);
        [reflexivity|discriminate]. }
    cbn [Concurrent.sys]. rewrite Hnew.
    destruct st; try discriminate.
    + right. right. split; [auto|]. split; [reflexivity|]. exists k, r.
      split; [reflexivity|]. split; [exact Hk|].
      exact (proj1 (Forall_lookup _ _) Hfl k r Hk).
    + right. right. split; [auto|]. split; [reflexivity|]. exists k, r.
      split; [reflexivity|]. split; [exact Hk|].
      exact (proj1 (Forall_lookup _ _) Hfl k r Hk).
    + left. reflexivity.
  - split; [discriminate|]. left.
    destruct (Concurrent.inflight s !! k) as [r|]; [|discriminate].
    injection Hstep as <-. exact Hst.
Qed.

Lemma terminal_status_left_only_by_unguarded_write_witness :
  let s0 := {| Concurrent.sys :=
                 {| System.db := Sample.sample_db Job.QUEUED;
                    System.queue := ["job-1"]; System.worker := System.Idle |};
               Concurrent.inflight := [] |} in
  let ls := [Concurrent.Atomic (System.WorkerStart 10);
             Concurrent.CancelRead (Some "user-1");
             Concurrent.Atomic System.WorkerBatch;
             Concurrent.Atomic (System.WorkerComplete 20)] in
  exists s s',
    Concurrent.run Sample.sample_config (Sample.declines None) true "job-1" ls s0
    = Some s
    /\ Concurrent.step Sample.sample_config (Sample.declines None) true "job-1"
         (Concurrent.CancelUpdate 0) s = Some s'
    /\ Concurrent.job_status "job-1" s = Some Job.COMPLETED
    /\ Concurrent.job_status "job-1" s' = Some Job.CANCELLED
    /\ exists r, Concurrent.inflight s !! 0%nat = Some r
                 /\ Spec.cancellable (Concurrent.seen r) = true.
Proof.
  intros s0 ls. eexists _, _.
  split; [vm_compute; reflexivity|].
  split; [vm_compute; reflexivity|].
  split; [vm_compute; reflexivity|].
  match goal with
  | |- Concurrent.job_status _ ?s' = _ /\ (exists r, Concurrent.inflight ?s !! _ = _ /\ _) =>
      destruct (terminal_status_left_only_by_unguarded_write Sample.sample_config
                  (Sample.declines None) true "job-1" s0 s s' ls
                  (Concurrent.CancelUpdate 0) Job.COMPLETED
                  ltac:(repeat split)
                  ltac:(vm_compute; reflexivity)
                  ltac:(vm_compute; reflexivity)
                  ltac:(vm_compute; reflexivity)
                  eq_refl) as [_ [H|[[H _]|(_ & H & k & r & Hl & Hk & Hc)]]]
  end.
  - vm_compute in H. discriminate H.
  - discriminate H.
  - split; [exact H|]. injection Hl as <-. exists r. split; [exact Hk|exact Hc].
Defined.

(** ** The job handler *)

Section JobHandler.
Import PaymentsAdapter Prisma Worker Spec Sample.

Variable cfg : Config.
Variable adapter : Adapter.
Variable jobId : string.

Lemma slice_take_drop {A} (l : list A) (i b : Z) :
  0 <= i -> 1 <= b ->
  slice l i (i + b) = take (Z.to_nat b) (drop (Z.to_nat i) l).
Proof.
  intros Hi Hb. unfold slice, relative_index.
  destruct (i <? 0) eqn:E1; [lia|]. destruct (i + b <? 0) eqn:E2; [lia|].
  set (len := Z.of_nat (List.length l)).
  destruct (Z_le_dec i len) as [Hle|Hgt].
  - rewrite (Z.min_l i len) by lia.
    destruct (Z_le_dec (i + b) len) as [Hle2|Hgt2].
    + rewrite Z.min_l by lia. f_equal. lia.
    + rewrite Z.min_r by lia.
      rewrite !take_ge; [reflexivity| |]; rewrite length_drop; unfold len; lia.
  - rewrite !drop_ge by (unfold len in *; lia). rewrite !take_nil. reflexivity.
Qed.

Lemma settle_all_map batch :
  settle_all cfg adapter batch
  = Some (map (fun row => Fulfilled (row_result adapter (MAX_RETRIES cfg) row)) batch).
Proof.
  destruct (settle_all_fulfilled cfg adapter batch) as (results & Hres & Hall).
  rewrite Hres. f_equal.
  clear Hres. induction Hall as [|row s batch' results' (v & tr & Hv & ->) _ IH].
  - reflexivity.
  - simpl. unfold row_result at 1. rewrite Hv, IH. reflexivity.
Qed.

Lemma foldl_zip_map {A B S} (f : S -> A * B -> S) (g : A -> B) (l : list A) :
  forall st, foldl f st (zip l (map g l)) = foldl (fun st a => f st (a, g a)) st l.
Proof. induction l as [|a l IH]; intros st; simpl; [reflexivity|apply IH]. Qed.

Lemma process_batch_rows rows i c db :
  0 <= i -> 1 <= BATCH_SIZE cfg ->
  process_batch cfg adapter jobId rows i c db
  = let st := record_rows cfg adapter
                (take (Z.to_nat (BATCH_SIZE cfg)) (drop (Z.to_nat i) rows)) (db, c) in
    Some (update_job (fst st) jobId (progress (snd st)), snd st).
Proof.
  intros Hi Hb. unfold process_batch.
  rewrite slice_take_drop by lia. rewrite settle_all_map.
  unfold record_rows. rewrite (foldl_zip_map (record_result cfg)).
  destruct (foldl _ _ _) as [db1 c1]. reflexivity.
Qed.

(** Counting the rows of a job after the update of one row. *)
Lemma count_rows_untouched p rid f l :
  (forall x, In x l -> Row.id x <> rid) ->
  count_rows p jobId (map (fun r => if String.eqb (Row.id r) rid then f r else r) l)
  = count_rows p jobId l.
Proof.
  induction l as [|h l IH]; intros Hne; [reflexivity|]. simpl.
  destruct (String.eqb (Row.id h) rid) eqn:E.
  - apply String.eqb_eq in E. exfalso. apply (Hne h); [left; reflexivity|exact E].
  - rewrite IH; [reflexivity|]. intros x Hx. apply Hne. right. exact Hx.
Qed.

Lemma count_rows_update p rid f l x0 :
  List.NoDup (map Row.id l) ->
  In x0 l -> Row.id x0 = rid -> Row.jobId x0 = jobId ->
  Row.jobId (f x0) = jobId ->
  p x0 = false ->
  count_rows p jobId (map (fun r => if String.eqb (Row.id r) rid then f r else r) l)
  = count_rows p jobId l + (if p (f x0) then 1 else 0).
Proof.
  induction l as [|h l IH]; intros Hnd Hin Hid Hjob Hjob' Hp; [destruct Hin|].
  simpl in Hnd. apply List.NoDup_cons_iff in Hnd as [Hnotin Hnd]. simpl.
  destruct Hin as [->|Hin].
  - rewrite Hid, String.eqb_refl, Hjob', Hjob, String.eqb_refl, Hp. simpl.
    rewrite count_rows_untouched; [lia|].
    intros x Hx Hxid. apply Hnotin. rewrite Hid, <- Hxid.
    apply in_map. exact Hx.
  - destruct (String.eqb (Row.id h) rid) eqn:E.
    + apply String.eqb_eq in E. exfalso. apply Hnotin. rewrite E, <- Hid.
      apply in_map. exact Hin.
    + rewrite IH by assumption. lia.
Qed.

Lemma update_row_ids db rid f :
  (forall r, Row.id (f r) = Row.id r) ->
  map Row.id (bulkPayrollRow (update_row db rid f)) = map Row.id (bulkPayrollRow db).
Proof.
  intros Hf. unfold update_row. simpl. rewrite List.map_map.
  apply List.map_ext. intros r. destruct (String.eqb _ _); [apply Hf|reflexivity].
Qed.

(** Processing one row that is still to be processed. *)
Lemma record_result_invariant row todo db c :
  loop_invariant jobId (row :: todo) db c ->
  let value := row_result adapter (MAX_RETRIES cfg) row in
  let st := record_result cfg (db, c) (row, Fulfilled value) in
  loop_invariant jobId todo (fst st) (snd st)
  /\ bulkPayrollJob (fst st) = bulkPayrollJob db
  /\ processedCount (snd st) = processedCount c + 1
  /\ failedCount (snd st) = failedCount c + (if r_success value then 0 else 1).
Proof.
  intros (Hnd & Hndt & Hpending & Hterm & Hfail) value st.
  simpl in Hndt. apply List.NoDup_cons_iff in Hndt as [Hnotin Hndt].
  destruct (Hpending row (or_introl eq_refl)) as (x0 & Hx0 & Hid & Hjob & Hst).
  subst st. cbn [record_result fst snd processedCount failedCount].
  split; [|split; [reflexivity|split; [reflexivity|]]].
  - split; [|split; [exact Hndt|split; [|split]]].
    + rewrite update_row_ids; [exact Hnd|reflexivity].
    + intros r Hr. destruct (Hpending r (or_intror Hr)) as (x & Hx & Hxid & Hxjob & Hxst).
      exists x. split; [|auto]. unfold update_row. simpl.
      apply in_map_iff. exists x. split; [|exact Hx].
      destruct (String.eqb (Row.id x) (Row.id row)) eqn:E; [|reflexivity].
      apply String.eqb_eq in E. exfalso. apply Hnotin.
      rewrite <- E, Hxid. apply in_map. exact Hr.
    + unfold update_row. cbn [bulkPayrollRow].
      rewrite (count_rows_update is_terminal (Row.id row) _ _ x0 Hnd Hx0 Hid Hjob);
        [| exact Hjob | unfold is_terminal; rewrite Hst; reflexivity].
      rewrite Hterm. unfold is_terminal. simpl. destruct (r_success value); lia.
    + unfold update_row. cbn [bulkPayrollRow].
      rewrite (count_rows_update is_failed (Row.id row) _ _ x0 Hnd Hx0 Hid Hjob);
        [| exact Hjob | unfold is_failed; rewrite Hst; reflexivity].
      rewrite Hfail. unfold is_failed. simpl. destruct (r_success value); simpl; lia.
  - destruct (r_success value); lia.
Qed.

Lemma record_rows_invariant batch : forall todo db c,
  loop_invariant jobId (batch ++ todo) db c ->
  let st := record_rows cfg adapter batch (db, c) in
  loop_invariant jobId todo (fst st) (snd st)
  /\ bulkPayrollJob (fst st) = bulkPayrollJob db
  /\ processedCount (snd st) = processedCount c + Z.of_nat (List.length batch)
  /\ failedCount (snd st) = failedCount c + failures adapter (MAX_RETRIES cfg) batch.
Proof.
  induction batch as [|row batch IH]; intros todo db c Hinv.
  - simpl. repeat split; try apply Hinv; lia.
  - simpl app in Hinv.
    destruct (record_result_invariant row (batch ++ todo) db c Hinv)
      as (Hinv1 & Hjobs1 & Hp1 & Hf1).
    unfold record_rows. cbn [foldl].
    destruct (record_result cfg (db, c) _) as [db1 c1] eqn:E1.
    cbn [fst snd] in *.
    destruct (IH todo db1 c1 Hinv1) as (Hinv2 & Hjobs2 & Hp2 & Hf2).
    unfold record_rows in *.
    split; [exact Hinv2|]. split; [congruence|].
    split; [rewrite Hp2, Hp1; simpl List.length; lia|].
    rewrite Hf2, Hf1. simpl failures. lia.
Qed.

Lemma loop_invariant_update_job todo db c f :
  loop_invariant jobId todo db c -> loop_invariant jobId todo (update_job db jobId f) c.
Proof. intros H. exact H. Qed.

Lemma progress_consistent db c :
  is_Some (bulkPayrollJob db !! jobId) ->
  loop_invariant jobId [] db c \/ (exists todo, loop_invariant jobId todo db c) ->
  counters_consistent jobId (update_job db jobId (progress c)).
Proof.
  intros [j Hj] Hinv.
  assert (Hc : count_rows is_terminal jobId (bulkPayrollRow db) = processedCount c
               /\ count_rows is_failed jobId (bulkPayrollRow db) = failedCount c).
  { destruct Hinv as [H|[todo H]]; destruct H as (_ & _ & _ & H1 & H2); auto. }
  exists (progress c j). unfold update_job. simpl.
  rewrite lookup_alter_eq, Hj. simpl. destruct Hc as [-> ->]. auto.
Qed.

Lemma batch_loop_spec rows : forall fuel i c db persisted,
  let n := Z.of_nat (List.length rows) in
  1 <= BATCH_SIZE cfg ->
  0 <= i < n + BATCH_SIZE cfg ->
  (Z.to_nat (n - i) <= fuel)%nat ->
  loop_invariant jobId (drop (Z.to_nat i) rows) db c ->
  is_Some (bulkPayrollJob db !! jobId) ->
  Forall (counters_consistent jobId) persisted ->
  exists db' c' persisted',
    batch_loop fuel cfg adapter jobId rows i c db persisted
    = Some (db', c', persisted')
    /\ loop_invariant jobId [] db' c'
    /\ is_Some (bulkPayrollJob db' !! jobId)
    /\ Forall (counters_consistent jobId) persisted'
    /\ List.length persisted'
       = (List.length persisted
          + Z.to_nat ((n - i + BATCH_SIZE cfg - 1) / BATCH_SIZE cfg))%nat
    /\ processedCount c' = processedCount c + Z.max 0 (n - i)
    /\ failedCount c'
       = failedCount c + failures adapter (MAX_RETRIES cfg) (drop (Z.to_nat i) rows).
Proof.
  intros fuel. induction fuel as [|fuel IH];
    intros i c db persisted n Hb Hi Hfuel Hinv Hjob Hpers.
  - assert (n <= i) by lia.
    assert (Hdrop : drop (Z.to_nat i) rows = []) by (apply drop_ge; lia).
    simpl. destruct (i <? Z.of_nat (List.length rows)) eqn:E; [lia|].
    exists db, c, persisted. rewrite Hdrop in *. simpl.
    split; [reflexivity|]. split; [exact Hinv|]. split; [exact Hjob|].
    split; [exact Hpers|].
    rewrite Z.div_small by lia. split; [simpl; lia|]. lia.
  - simpl. destruct (i <? Z.of_nat (List.length rows)) eqn:E.
    + assert (i < n) by lia.
      rewrite process_batch_rows by lia.
      set (batch := take (Z.to_nat (BATCH_SIZE cfg)) (drop (Z.to_nat i) rows)).
      assert (Hsplit : drop (Z.to_nat i) rows
                       = batch ++ drop (Z.to_nat (i + BATCH_SIZE cfg)) rows).
      { unfold batch.
        replace (Z.to_nat (i + BATCH_SIZE cfg))
          with (Z.to_nat i + Z.to_nat (BATCH_SIZE cfg))%nat by lia.
        rewrite <- drop_drop. symmetry. apply take_drop. }
      rewrite Hsplit in Hinv.
      destruct (record_rows_invariant batch _ db c Hinv)
        as (Hinv1 & Hjobs1 & Hp1 & Hf1).
      cbv zeta. destruct (record_rows cfg adapter batch (db, c)) as [db1 c1] eqn:E1.
      cbn [fst snd] in *.
      assert (Hjob1 : is_Some (bulkPayrollJob db1 !! jobId)) by (rewrite Hjobs1; exact Hjob).
      assert (Hcons : counters_consistent jobId (update_job db1 jobId (progress c1))).
      { apply progress_consistent; [exact Hjob1|right; eauto]. }
      destruct (IH (i + BATCH_SIZE cfg) c1 (update_job db1 jobId (progress c1))
                  (persisted ++ [update_job db1 jobId (progress c1)]))
        as (db' & c' & persisted' & Hloop & Hinv' & Hjob' & Hpers' & Hlen & Hp & Hf).
      * lia.
      * fold n. lia.
      * fold n. lia.
      * exact Hinv1.
      * unfold update_job. simpl. rewrite lookup_alter_eq.
        destruct Hjob1 as [j ->]. simpl. eauto.
      * apply Forall_app. split; [exact Hpers|]. constructor; [exact Hcons|constructor].
      * exists db', c', persisted'. split; [exact Hloop|].
        split; [exact Hinv'|]. split; [exact Hjob'|]. split; [exact Hpers'|].
        fold n in Hlen, Hp. split; [|split].
        -- rewrite Hlen, length_app. simpl.
           replace (n - i + BATCH_SIZE cfg - 1)
             with ((n - (i + BATCH_SIZE cfg) + BATCH_SIZE cfg - 1)
                   + 1 * BATCH_SIZE cfg) by lia.
           rewrite Z.div_add by lia.
           assert (0 <= (n - (i + BATCH_SIZE cfg) + BATCH_SIZE cfg - 1)
                        / BATCH_SIZE cfg) by (apply Z.div_pos; lia).
           lia.
        -- rewrite Hp, Hp1. unfold batch. rewrite length_take, length_drop.
           fold n. lia.
        -- rewrite Hf, Hf1, Hsplit.
           assert (Happ : forall l1 l2,
             failures adapter (MAX_RETRIES cfg) (l1 ++ l2)
             = failures adapter (MAX_RETRIES cfg) l1
               + failures adapter (MAX_RETRIES cfg) l2).
           { induction l1 as [|r l1 IHl]; intros l2; simpl; [lia|rewrite IHl; lia]. }
           rewrite Happ. lia.
    + assert (n <= i) by lia.
      assert (Hdrop : drop (Z.to_nat i) rows = []) by (apply drop_ge; lia).
      exists db, c, persisted. rewrite Hdrop in *. simpl.
      split; [reflexivity|]. split; [exact Hinv|]. split; [exact Hjob|].
      split; [exact Hpers|].
      rewrite Z.div_small by lia. split; [simpl; lia|]. lia.
Qed.

Lemma NoDup_ids_filter (l : list Row.t) :
  List.NoDup (map Row.id l) ->
  List.NoDup (map Row.id (filter (fun r => Row.jobId r = jobId) l)).
Proof.
  induction l as [|h l IH]; intros Hnd; [constructor|].
  simpl in Hnd. apply List.NoDup_cons_iff in Hnd as [Hnotin Hnd].
  rewrite filter_cons. destruct (decide (Row.jobId h = jobId)); [|auto].
  simpl. constructor; [|auto].
  intros Hin. apply Hnotin. apply in_map_iff in Hin as (x & Hx & Hin).
  apply in_map_iff. exists x. split; [exact Hx|].
  apply list_elem_of_In in Hin. apply list_elem_of_filter in Hin as [_ Hin].
  apply list_elem_of_In. exact Hin.
Qed.

Lemma count_rows_none p (l : list Row.t) :
  (forall r, In r l -> Row.jobId r = jobId -> p r = false) ->
  count_rows p jobId l = 0.
Proof.
  induction l as [|h l IH]; intros H; [reflexivity|]. simpl.
  rewrite IH by (intros r Hr; apply H; right; exact Hr).
  destruct (String.eqb (Row.jobId h) jobId) eqn:E; [|reflexivity].
  apply String.eqb_eq in E. rewrite (H h (or_introl eq_refl) E). reflexivity.
Qed.

(** With a success rate of 1 the fake adapter succeeds, always. *)
Lemma createPayment_rate_one this amb input :
  successRate this = Js.of_Z 1 ->
  success (snd (createPayment this amb input)) = true.
Proof.
  intros Hrate. unfold createPayment. cbn [snd]. rewrite Hrate.
  assert (Hlt : Js.lt (seededRandom this (payment_key input)) (Js.of_Z 1) = true).
  { unfold seededRandom.
    pose proof (Z.mod_pos_bound
                  (Z.abs (hash_loop (seed this) (payment_key input)))
                  1000 ltac:(lia)) as Hbound.
    fold (seededRandom_milli this (payment_key input)) in Hbound.
    set (x := seededRandom_milli this (payment_key input)) in *.
    change (Js.of_Z 1) with (Js.Finite false 1 0).
    cbv [Js.lt Js.scaled].
    change (Z.min (-3) 0) with (-3).
    change (10 ^ (-3 - -3)) with 1. change (10 ^ (0 - -3)) with 1000.
    rewrite Z2N.id by lia. apply Z.ltb_lt. lia. }
  rewrite Hlt. reflexivity.
Qed.

Lemma failures_none this amb maxRetries rows :
  successRate this = Js.of_Z 1 ->
  1 <= maxRetries ->
  failures (fake_adapter this amb) maxRetries rows = 0.
Proof.
  intros Hrate Hmax. induction rows as [|r rows IH]; [reflexivity|].
  cbn [failures]. rewrite IH.
  unfold row_result, processPaymentRow.
  destruct (Z.to_nat maxRetries) as [|fuel] eqn:Ef; [lia|].
  rewrite (retry_loop_success_step (fake_adapter this amb) r maxRetries fuel 0 None []
             (snd (createPayment this (amb (Row.normalized r) (0 + 1))
                     (Row.normalized r))));
    [reflexivity|lia|reflexivity|apply createPayment_rate_one; exact Hrate].
Qed.

End JobHandler.

(** C2. Run on a job whose rows are all PENDING, with a batch size of at
    least 1, the job handler returns; it leaves the job COMPLETED with
    [completedAt] stamped, whatever the number of rows that failed; the
    database as it is after each write of the progress, one per batch, has
    [processedRows] equal to the number of rows of the job that are SUCCESS
    or FAILED and [failedRows] equal to the number of its rows that are
    FAILED, and so has the final database; with the fake adapter at a
    success rate of 1 no row fails, so that 12 rows in batches of 10 end
    with [processedRows = 12], [failedRows = 0] and COMPLETED. *)
Theorem jobHandler_completes_with_consistent_counters
    (cfg : Worker.Config) (adapter : Worker.Adapter) (t_start t_end : Z)
    (jobId : string) (db : Prisma.Db) (job : Job.t) :
  1 <= Worker.BATCH_SIZE cfg ->
  Prisma.bulkPayrollJob db !! jobId = Some job ->
  List.NoDup (map Row.id (Prisma.bulkPayrollRow db)) ->
  (forall r, In r (Prisma.bulkPayrollRow db) -> Row.jobId r = jobId ->
             Row.status r = Row.PENDING) ->
  let rows := filter (fun r => Row.jobId r = jobId) (Prisma.bulkPayrollRow db) in
  let n := Z.of_nat (List.length rows) in
  let failed := Spec.failures adapter (Worker.MAX_RETRIES cfg) rows in
  exists db' succeeded persisted job',
    Worker.jobHandler cfg adapter t_start t_end jobId db
    = Some (db', Worker.Returned n succeeded failed, persisted)
    /\ Prisma.bulkPayrollJob db' !! jobId = Some job'
    /\ Job.status job' = Job.COMPLETED
    /\ Job.completedAt job' = Some t_end
    /\ Job.processedRows job' = n
    /\ Job.failedRows job' = failed
    /\ Spec.counters_consistent jobId db'
    /\ Forall (Spec.counters_consistent jobId) persisted
    /\ List.length persisted
       = Z.to_nat ((n + Worker.BATCH_SIZE cfg - 1) / Worker.BATCH_SIZE cfg)
    /\ (forall this amb,
          adapter = Worker.fake_adapter this amb ->
          PaymentsAdapter.successRate this = Js.of_Z 1 ->
          1 <= Worker.MAX_RETRIES cfg ->
          Job.failedRows job' = 0).
Proof.
  intros Hb Hjob Hnd Hpending rows n failed.
  unfold Worker.jobHandler, Prisma.findUnique_with_rows. rewrite Hjob.
  fold rows.
  set (db1 := Prisma.update_job db jobId (Worker.processing t_start)).
  set (c0 := {| Worker.processedCount := 0; Worker.successCount := 0;
                Worker.failedCount := 0 |}).
  assert (Hinv : Spec.loop_invariant jobId (drop (Z.to_nat 0) rows) db1 c0).
  { simpl drop. split; [exact Hnd|]. split; [apply NoDup_ids_filter; exact Hnd|].
    split; [|split].
    - intros r Hr. apply list_elem_of_In in Hr.
      apply list_elem_of_filter in Hr as [Hj Hr]. apply list_elem_of_In in Hr.
      exists r. auto.
    - simpl. apply count_rows_none. intros r Hr Hj.
      unfold Spec.is_terminal. rewrite (Hpending r Hr Hj). reflexivity.
    - simpl. apply count_rows_none. intros r Hr Hj.
      unfold Spec.is_failed. rewrite (Hpending r Hr Hj). reflexivity. }
  assert (Hjob1 : is_Some (Prisma.bulkPayrollJob db1 !! jobId)).
  { unfold db1, Prisma.update_job. simpl. rewrite lookup_alter_eq, Hjob. simpl. eauto. }
  destruct (batch_loop_spec cfg adapter jobId rows (List.length rows) 0 c0 db1 []
              Hb ltac:(lia) ltac:(lia) Hinv Hjob1 ltac:(constructor))
    as (db2 & c & persisted & Hloop & Hinv2 & [j2 Hjob2] & Hpers & Hlen & Hp & Hf).
  rewrite Hloop.
  exists (Prisma.update_job db2 jobId (Worker.completed t_end c)),
    (Worker.successCount c), persisted, (Worker.completed t_end c j2).
  fold n in Hlen, Hp. simpl in Hp, Hf, Hlen. fold failed in Hf.
  assert (Hpn : Worker.processedCount c = n) by lia.
  destruct Hinv2 as (_ & _ & _ & Hterm & Hfail).
  split; [rewrite Hpn, Hf; reflexivity|].
  assert (Hl : Prisma.bulkPayrollJob
                 (Prisma.update_job db2 jobId (Worker.completed t_end c)) !! jobId
               = Some (Worker.completed t_end c j2)).
  { unfold Prisma.update_job. simpl. rewrite lookup_alter_eq, Hjob2. reflexivity. }
  split; [exact Hl|]. split; [reflexivity|]. split; [reflexivity|].
  split; [exact Hpn|]. split; [exact Hf|].
  split; [exists (Worker.completed t_end c j2); simpl; auto|].
  split; [exact Hpers|].
  split; [rewrite Hlen; f_equal; f_equal; lia|].
  intros this amb -> Hrate Hmax. simpl. rewrite Hf. unfold failed.
  apply failures_none; assumption.
Qed.

Lemma jobHandler_completes_with_consistent_counters_witness :
  exists db' succeeded persisted job',
    Worker.jobHandler Sample.sample_config (Sample.sample_fake (Js.of_Z 1)) 100 200
      "job-1" Sample.twelve_db
    = Some (db', Worker.Returned 12 succeeded 0, persisted)
    /\ Prisma.bulkPayrollJob db' !! "job-1" = Some job'
    /\ Job.status job' = Job.COMPLETED
    /\ Job.processedRows job' = 12
    /\ Job.failedRows job' = 0
    /\ List.length persisted = 2%nat.
Proof.
  assert (Hnd : List.NoDup (map Row.id (Prisma.bulkPayrollRow Sample.twelve_db))).
  { apply NoDup_ListNoDup. apply (bool_decide_unpack _). vm_compute. exact I. }
  assert (Hpending : forall r, In r (Prisma.bulkPayrollRow Sample.twelve_db) ->
                               Row.jobId r = "job-1" -> Row.status r = Row.PENDING).
  { intros r Hr _. simpl in Hr.
    repeat (destruct Hr as [<-|Hr]; [reflexivity|]). destruct Hr. }
  destruct (jobHandler_completes_with_consistent_counters Sample.sample_config
              (Sample.sample_fake (Js.of_Z 1)) 100 200 "job-1" Sample.twelve_db
              (Sample.sample_job Job.QUEUED) ltac:(simpl; lia) eq_refl Hnd Hpending)
    as (db' & succeeded & persisted & job' & Hrun & Hjob & Hst & _ & Hp & Hf
        & _ & _ & Hlen & Hzero).
  assert (Hn : Z.of_nat (List.length
                 (filter (fun r => Row.jobId r = "job-1")
                    (Prisma.bulkPayrollRow Sample.twelve_db))) = 12)
    by (vm_compute; reflexivity).
  rewrite Hn in Hrun, Hp, Hlen.
  specialize (Hzero _ _ eq_refl eq_refl ltac:(simpl; lia)).
  rewrite Hzero in Hf. rewrite <- Hf in Hrun.
  exists db', succeeded, persisted, job'.
  split; [exact Hrun|]. split; [exact Hjob|]. split; [exact Hst|].
  split; [exact Hp|]. split; [exact Hzero|]. exact Hlen.
Defined.

(** ** Strings of digits and the pattern of amounts *)

Section Digits.

Lemma forall_chars_app p a b :
  Js.forall_chars p (a +:+ b) = Js.forall_chars p a && Js.forall_chars p b.
Proof.
  induction a as [|c a IH]; simpl; [reflexivity|].
  rewrite IH. destruct (p c); reflexivity.
Qed.

Lemma string_length_app (a b : string) :
  String.length (a +:+ b) = (String.length a + String.length b)%nat.
Proof. induction a as [|c a IH]; simpl; [reflexivity|rewrite IH; reflexivity]. Qed.

Lemma span_all p s : Js.forall_chars p s = true -> Js.span p s = (s, "").
Proof.
  induction s as [|c s IH]; simpl; [reflexivity|].
  destruct (p c); [|discriminate]. simpl. intros H. rewrite IH by exact H. reflexivity.
Qed.

Lemma span_stop p a c b :
  Js.forall_chars p a = true -> p c = false ->
  Js.span p (a +:+ String c b) = (a, String c b).
Proof.
  intros Ha Hc. induction a as [|x a IH]; simpl.
  - rewrite Hc. reflexivity.
  - simpl in Ha. destruct (p x); [|discriminate]. simpl in Ha.
    rewrite IH by exact Ha. reflexivity.
Qed.

Lemma digit_char_is_digit d : Js.is_digit (Js.digit_char d) = true.
Proof.
  unfold Js.digit_char.
  pose proof (N.mod_upper_bound d 10 ltac:(discriminate)) as Hb.
  set (r := (d mod 10)%N) in *. clearbody r.
  assert (H : (r = 0 \/ r = 1 \/ r = 2 \/ r = 3 \/ r = 4 \/ r = 5 \/ r = 6
               \/ r = 7 \/ r = 8 \/ r = 9)%N) by lia.
  repeat (destruct H as [-> | H]; [reflexivity|]). rewrite H. reflexivity.
Qed.

Lemma digits_go_digits fuel : forall x acc,
  Js.forall_chars Js.is_digit acc = true ->
  Js.forall_chars Js.is_digit (Js.digits_go fuel x acc) = true.
Proof.
  induction fuel as [|fuel IH]; intros x acc Hacc; simpl.
  - rewrite digit_char_is_digit. exact Hacc.
  - destruct (x <? 10)%N.
    + simpl. rewrite digit_char_is_digit. exact Hacc.
    + apply IH. simpl. rewrite digit_char_is_digit. exact Hacc.
Qed.

Lemma digits_go_nonempty fuel : forall x acc, Js.digits_go fuel x acc <> "".
Proof.
  induction fuel as [|fuel IH]; intros x acc; simpl; [discriminate|].
  destruct (x <? 10)%N; [discriminate|apply IH].
Qed.

Lemma digits_go_length fuel : forall x acc (j : nat),
  (1 <= j)%nat -> (x < 10 ^ N.of_nat j)%N ->
  (String.length (Js.digits_go fuel x acc) <= String.length acc + j)%nat.
Proof.
  induction fuel as [|fuel IH]; intros x acc j Hj Hx; simpl; [lia|].
  destruct (x <? 10)%N eqn:E; [simpl; lia|].
  apply N.ltb_ge in E.
  destruct j as [|[|j]]; [lia| simpl in Hx; lia |].
  specialize (IH (x / 10)%N (String (Js.digit_char x) acc) (S j) ltac:(lia)).
  simpl String.length in IH.
  assert ((x / 10 < 10 ^ N.of_nat (S j))%N).
  { apply N.Div0.div_lt_upper_bound.
    replace (N.of_nat (S (S j))) with (N.succ (N.of_nat (S j))) in Hx by lia.
    rewrite N.pow_succ_r' in Hx. exact Hx. }
  specialize (IH H). lia.
Qed.

Lemma digits_digits x : Js.forall_chars Js.is_digit (Js.digits x) = true.
Proof. apply digits_go_digits. reflexivity. Qed.

Lemma digits_nonempty x : Js.digits x <> "".
Proof. apply digits_go_nonempty. Qed.

Lemma ndigits_bound x (j : nat) :
  (1 <= j)%nat -> (x < 10 ^ N.of_nat j)%N -> 1 <= Js.ndigits x <= Z.of_nat j.
Proof.
  intros Hj Hx. unfold Js.ndigits.
  pose proof (digits_go_length (N.to_nat (N.log2 x)) x "" j Hj Hx) as H.
  fold (Js.digits x) in H. simpl in H.
  pose proof (digits_nonempty x).
  destruct (Js.digits x); [contradiction|]. simpl String.length in *. lia.
Qed.

Lemma fixed_digits_digits w : forall x,
  Js.forall_chars Js.is_digit (Js.fixed_digits w x) = true.
Proof.
  induction w as [|w IH]; intros x; simpl; [reflexivity|].
  rewrite forall_chars_app, IH. simpl. rewrite digit_char_is_digit. reflexivity.
Qed.

Lemma fixed_digits_length w : forall x, String.length (Js.fixed_digits w x) = w.
Proof.
  induction w as [|w IH]; intros x; simpl; [reflexivity|].
  rewrite string_length_app, IH. simpl. lia.
Qed.

Lemma amount_regex_integer s :
  Js.forall_chars Js.is_digit s = true -> s <> "" ->
  Validation.amount_regex s = true.
Proof.
  intros Hd Hne. unfold Validation.amount_regex. rewrite span_all by exact Hd.
  destruct s; [contradiction|reflexivity].
Qed.

Lemma amount_regex_fraction a f :
  Js.forall_chars Js.is_digit a = true -> a <> "" ->
  Js.forall_chars Js.is_digit f = true ->
  Validation.amount_regex (a +:+ "." +:+ f)
  = (1 <=? Js.len f) && (Js.len f <=? 2).
Proof.
  intros Ha Hne Hf. unfold Validation.amount_regex.
  change ("." +:+ f) with (String "." f).
  rewrite span_stop; [|exact Ha|reflexivity].
  destruct a; [contradiction|]. rewrite Hf. reflexivity.
Qed.

Lemma amount_regex_exponent d rest :
  Js.forall_chars Js.is_digit d = true ->
  let mant := match d with
              | String c EmptyString => String c ""
              | String c r => String c ("." +:+ r)
              | EmptyString => ""
              end in
  Validation.amount_regex (mant +:+ "e" +:+ rest) = false.
Proof.
  intros Hd mant. unfold Validation.amount_regex. subst mant.
  destruct d as [|c [|c' r]].
  - reflexivity.
  - simpl in Hd. simpl. destruct (Js.is_digit c); [|discriminate]. reflexivity.
  - simpl in Hd. destruct (Js.is_digit c) eqn:Ec; [|discriminate].
    change ((String c ("." +:+ String c' r)) +:+ "e" +:+ rest)
      with (String c (String "." ((String c' r) +:+ String "e" rest))).
    assert (He : Js.forall_chars Js.is_digit (String c' r +:+ String "e" rest) = false).
    { rewrite forall_chars_app.
      change (Js.forall_chars Js.is_digit (String "e" rest)) with false.
      apply Bool.andb_false_r. }
    cbn [Js.span]. rewrite Ec.
    change (Js.is_digit ".") with false. cbn iota beta. rewrite He. reflexivity.
Qed.

Lemma strip_zeros_spec fuel : forall s e,
  (0 < s)%N -> (N.log2 s <= N.of_nat fuel)%N ->
  exists s' e',
    Js.strip_zeros fuel s e = (s', e')
    /\ (0 < s')%N /\ (s' mod 10 <> 0)%N /\ e <= e'
    /\ Z.of_N s = Z.of_N s' * 10 ^ (e' - e).
Proof.
  induction fuel as [|fuel IH]; intros s e Hpos Hlog.
  - exists s, e. simpl. split; [reflexivity|]. split; [exact Hpos|].
    assert (s = 1%N) as ->.
    { assert (N.log2 s = 0%N) as H0 by lia.
      destruct (N.log2_null s) as [Hn _]. specialize (Hn H0). lia. }
    split; [discriminate|]. split; [lia|]. rewrite Z.sub_diag. reflexivity.
  - simpl. destruct ((s mod 10 =? 0)%N && negb (s =? 0)%N) eqn:E.
    + apply andb_prop in E as [Em _]. apply N.eqb_eq in Em.
      assert (Hs : s = (10 * (s / 10))%N).
      { rewrite (N.div_mod s 10) at 1 by discriminate. rewrite Em. lia. }
      assert (Ht : (0 < s / 10)%N) by lia.
      assert (Hl : (N.log2 (s / 10) <= N.of_nat fuel)%N).
      { pose proof (N.log2_double (s / 10) Ht) as Hd.
        pose proof (N.log2_le_mono (2 * (s / 10)) s ltac:(lia)) as Hm. lia. }
      destruct (IH (s / 10)%N (e + 1) Ht Hl) as (s' & e' & Hr & Hp & Hm & He & Hv).
      exists s', e'. split; [exact Hr|]. split; [exact Hp|]. split; [exact Hm|].
      split; [lia|].
      rewrite Hs at 1. rewrite N2Z.inj_mul, Hv.
      replace (e' - e) with (Z.succ (e' - (e + 1))) by lia.
      rewrite Z.pow_succ_r by lia. change (Z.of_N 10) with 10. ring.
    + exists s, e. split; [reflexivity|]. split; [exact Hpos|].
      split; [|split; [lia|rewrite Z.sub_diag; lia]].
      intros Hm. rewrite Hm in E. simpl in E.
      apply Bool.negb_false_iff, N.eqb_eq in E. lia.
Qed.

Lemma normalize_spec s e :
  (0 < s)%N ->
  exists s' e',
    Js.normalize s e = (s', e')
    /\ (0 < s')%N /\ (s' mod 10 <> 0)%N /\ e <= e'
    /\ Z.of_N s = Z.of_N s' * 10 ^ (e' - e).
Proof.
  intros Hpos. unfold Js.normalize.
  destruct (s =? 0)%N eqn:E; [apply N.eqb_eq in E; lia|].
  apply strip_zeros_spec; [exact Hpos|lia].
Qed.

(** A hundred times [s * 10^e] is an integer exactly when the exponent of
    the normalized numeral is at least -2. *)
Lemma two_decimals_normalized neg s e s' e' :
  (0 < s')%N -> (s' mod 10 <> 0)%N -> e <= e' ->
  Z.of_N s = Z.of_N s' * 10 ^ (e' - e) ->
  Spec.at_most_two_decimals (Js.Finite neg s e) = (-2 <=? e').
Proof.
  intros Hpos Hmod He Hv. simpl.
  destruct (-2 <=? e') eqn:E2.
  - apply Z.leb_le in E2. destruct (-2 <=? e) eqn:E1; [reflexivity|].
    apply Z.leb_gt in E1. simpl. apply Z.eqb_eq.
    rewrite Hv. replace (e' - e) with ((e' + 2) + (- e - 2)) by lia.
    rewrite Z.pow_add_r by lia. rewrite Z.mul_assoc. apply Z.mod_mul.
    apply Z.pow_nonzero; lia.
  - apply Z.leb_gt in E2. destruct (-2 <=? e) eqn:E1; [apply Z.leb_le in E1; lia|].
    simpl. apply Z.eqb_neq. intros Hdiv.
    apply Z.mod_divide in Hdiv; [|apply Z.pow_nonzero; lia].
    rewrite Hv in Hdiv.
    replace (- e - 2) with ((e' - e) + (- e' - 2)) in Hdiv by lia.
    rewrite Z.pow_add_r in Hdiv by lia.
    rewrite (Z.mul_comm (Z.of_N s')) in Hdiv.
    apply Z.mul_divide_cancel_l in Hdiv; [|apply Z.pow_nonzero; lia].
    assert (H10 : (10 | 10 ^ (- e' - 2))).
    { replace (- e' - 2) with (Z.succ (- e' - 3)) by lia.
      rewrite Z.pow_succ_r by lia. apply Z.divide_factor_l. }
    pose proof (Z.divide_trans _ _ _ H10 Hdiv) as Hd.
    apply Hmod. apply Z.mod_divide in Hd; [|lia].
    apply N2Z.inj. rewrite N2Z.inj_mod. exact Hd.
Qed.

Lemma amount_regex_positive_toString s e :
  Validation.amount_regex (Js.positive_toString s e)
  = (-6 <? Js.ndigits s + e) && (Js.ndigits s + e <=? 21) && (-2 <=? e).
Proof.
  unfold Js.positive_toString.
  destruct ((-6 <? Js.ndigits s + e) && (Js.ndigits s + e <=? 21)) eqn:En.
  - destruct (0 <=? e) eqn:E0.
    + apply Z.leb_le in E0.
      rewrite amount_regex_integer; [|apply digits_digits|apply digits_nonempty].
      symmetry. apply Z.leb_le. lia.
    + apply Z.leb_gt in E0.
      rewrite amount_regex_fraction;
        [|apply digits_digits|apply digits_nonempty|apply fixed_digits_digits].
      unfold Js.len. rewrite fixed_digits_length.
      rewrite Z2Nat.id by lia.
      destruct (-2 <=? e) eqn:E2;
        [apply Z.leb_le in E2|apply Z.leb_gt in E2].
      * apply andb_true_intro. split; apply Z.leb_le; lia.
      * simpl. apply Bool.andb_false_iff. right. apply Z.leb_gt. lia.
  - rewrite amount_regex_exponent by apply digits_digits. reflexivity.
Qed.

(** For a number above 0 and at most 1,000,000 the pattern holds of its
    decimal representation exactly when it has at most two decimals. *)
Lemma amount_regex_in_range n :
  Js.lt (Js.of_Z 0) n = true ->
  Js.le n (Js.of_Z 1000000) = true ->
  Validation.amount_regex (Js.toString n) = Spec.at_most_two_decimals n.
Proof.
  destruct n as [|neg|neg s e]; [discriminate| |].
  { simpl. destruct neg; discriminate. }
  change (Js.of_Z 0) with (Js.Finite false 0 0).
  change (Js.of_Z 1000000) with (Js.Finite false 1000000 0).
  unfold Js.lt, Js.le, Js.scaled. intros Hlt Hle.
  apply Z.ltb_lt in Hlt. apply Z.leb_le in Hle.
  change (Z.of_N 0) with 0 in Hlt. change (Z.of_N 1000000) with 1000000 in Hle.
  assert (Hp0 : 0 < 10 ^ (e - Z.min 0 e)) by (apply Z.pow_pos_nonneg; lia).
  assert (Hp1 : 0 < 10 ^ (e - Z.min e 0)) by (apply Z.pow_pos_nonneg; lia).
  assert (neg = false /\ (0 < s)%N) as [-> Hs].
  { destruct neg; [nia|]. split; [reflexivity|]. nia. }
  destruct (normalize_spec s e Hs) as (s' & e' & Hn & Hs' & Hmod & He & Hv).
  rewrite (two_decimals_normalized false s e s' e' Hs' Hmod He Hv).
  unfold Js.toString. rewrite Hn.
  destruct (s' =? 0)%N eqn:E0; [apply N.eqb_eq in E0; lia|].
  change ("" +:+ Js.positive_toString s' e') with (Js.positive_toString s' e').
  rewrite amount_regex_positive_toString.
  destruct (-2 <=? e') eqn:E2; [|apply Bool.andb_false_r].
  apply Z.leb_le in E2. rewrite Bool.andb_true_r.
  (* the value is at most 10^6, hence few digits *)
  assert (Hbound : Z.of_N s' <= 100000000 /\ e' <= 6).
  { rewrite Hv in Hle. rewrite Z.mul_1_l in Hle.
    destruct (Z_le_dec 0 e) as [Hge|Hneg].
    - rewrite Z.min_r in Hle by lia. change (10 ^ (0 - 0)) with 1 in Hle.
      rewrite Z.sub_0_r in Hle. rewrite <- Z.mul_assoc, <- Z.pow_add_r in Hle by lia.
      replace (e' - e + e) with e' in Hle by lia.
      assert (0 < 10 ^ e') by (apply Z.pow_pos_nonneg; lia).
      split; [nia|].
      destruct (Z_le_dec e' 6); [assumption|].
      assert (10 ^ 7 <= 10 ^ e') by (apply Z.pow_le_mono_r; lia).
      change (10 ^ 7) with 10000000 in *. nia.
    - rewrite Z.min_l in Hle by lia. rewrite Z.sub_diag in Hle.
      change (10 ^ 0) with 1 in Hle. rewrite Z.mul_1_r in Hle.
      rewrite Z.sub_0_l in Hle.
      destruct (Z_le_dec 0 e') as [Hge'|Hneg'].
      + replace (e' - e) with (e' + - e) in Hle by lia.
        rewrite Z.pow_add_r in Hle by lia.
        assert (0 < 10 ^ (- e)) by (apply Z.pow_pos_nonneg; lia).
        assert (0 < 10 ^ e') by (apply Z.pow_pos_nonneg; lia).
        assert (Hv' : Z.of_N s' * 10 ^ e' <= 1000000) by nia.
        split; [nia|].
        destruct (Z_le_dec e' 6); [assumption|].
        assert (10 ^ 7 <= 10 ^ e') by (apply Z.pow_le_mono_r; lia).
        change (10 ^ 7) with 10000000 in *. nia.
      + split; [|lia].
        replace (- e) with ((- e') + (e' - e)) in Hle by lia.
        rewrite Z.pow_add_r in Hle by lia.
        assert (0 < 10 ^ (e' - e)) by (apply Z.pow_pos_nonneg; lia).
        assert (10 ^ (- e') <= 10 ^ 2) by (apply Z.pow_le_mono_r; lia).
        change (10 ^ 2) with 100 in *.
        assert (0 < 10 ^ (- e')) by (apply Z.pow_pos_nonneg; lia).
        nia. }
  destruct Hbound as [Hb1 Hb2].
  pose proof (ndigits_bound s' 9 ltac:(lia)) as Hk.
  change (10 ^ N.of_nat 9)%N with 1000000000%N in Hk.
  specialize (Hk ltac:(lia)).
  apply andb_true_intro. split; [apply Z.ltb_lt|apply Z.leb_le]; lia.
Qed.

Lemma check_nil field ok msg : Validation.check field ok msg = [] <-> ok = true.
Proof. unfold Validation.check. destruct ok; split; congruence. Qed.

Lemma amount_checks_nil n :
  Validation.amount_checks n = []
  <-> Js.lt (Js.of_Z 0) n = true /\ Js.le n (Js.of_Z 1000000) = true
      /\ Spec.at_most_two_decimals n = true.
Proof.
  unfold Validation.amount_checks. split.
  - intros H. apply app_eq_nil in H as [H1 H]. apply app_eq_nil in H as [H2 H3].
    apply check_nil in H1, H2, H3.
    rewrite <- (amount_regex_in_range n H1 H2). auto.
  - intros (H1 & H2 & H3). rewrite <- (amount_regex_in_range n H1 H2) in H3.
    rewrite H1, H2, H3. reflexivity.
Qed.

End Digits.

(** ** The schemas *)

Section Schemas.
Import Validation Spec Sample.

Lemma issues_of_checked {A} (v : A) l : issues_of (checked v l) = l.
Proof. destruct l; reflexivity. Qed.

Lemma is_aborted_checked {A} (v : A) l : is_aborted (checked v l) = false.
Proof. destruct l; reflexivity. Qed.

Lemma PaymentRowSchema_accepted env c :
  accepted (PaymentRowSchema env c) = true
  <-> any_aborted (parse_fields env c) = false
      /\ field_issues (parse_fields env c) = []
      /\ cross_field (parsed_data (parse_fields env c)) = [].
Proof.
  unfold PaymentRowSchema. cbv zeta.
  destruct (any_aborted (parse_fields env c)).
  - simpl. split; [discriminate|intros (H & _); discriminate].
  - destruct (field_issues (parse_fields env c) ++ cross_field _) eqn:E.
    + apply app_eq_nil in E as [E1 E2]. simpl. rewrite E1, E2. tauto.
    + simpl. split; [discriminate|]. intros (_ & H1 & H2).
      rewrite H1, H2 in E. discriminate.
Qed.

Lemma RawPaymentRowSchema_accepted env c :
  accepted (RawPaymentRowSchema env c) = true
  <-> coercion_issues c = [] /\ accepted (PaymentRowSchema env (coerced c)) = true.
Proof.
  unfold RawPaymentRowSchema. destruct (coercion_issues c).
  - tauto.
  - simpl. split; [discriminate|intros [H _]; discriminate].
Qed.

(** What decides the acceptance of a candidate that is accepted with
    another amount. *)
Lemma with_amount_accepted env c a :
  accepted (RawPaymentRowSchema env c) = true ->
  let v := value_of VUndefined (raw_amount a) in
  accepted (RawPaymentRowSchema env (with_amount c a)) = true
  <-> issues_of (raw_amount a) = []
      /\ is_aborted (schema_amount v) = false
      /\ issues_of (schema_amount v) = [].
Proof.
  intros Hc v.
  apply RawPaymentRowSchema_accepted in Hc as [Hc1 Hc2].
  apply PaymentRowSchema_accepted in Hc2 as (Hab & Hfi & Hcf).
  unfold coercion_issues in Hc1. unfold field_issues in Hfi.
  unfold any_aborted in Hab. cbn [parse_fields coerced p_employee_id
    p_employee_email p_amount p_currency p_pay_date p_description
    p_external_reference in_employee_id in_employee_email in_amount in_currency
    in_pay_date in_description in_external_reference] in Hab, Hfi.
  split_nil. split_orb.
  rewrite RawPaymentRowSchema_accepted, PaymentRowSchema_accepted.
  unfold coercion_issues, field_issues, any_aborted, cross_field in *.
  cbn [parse_fields coerced with_amount parsed_data p_employee_id
    p_employee_email p_amount p_currency p_pay_date p_description
    p_external_reference in_employee_id in_employee_email in_amount in_currency
    in_pay_date in_description in_external_reference employee_id employee_email]
    in *.
  fold v.
  repeat match goal with
         | H : issues_of _ = [] |- _ => rewrite H; clear H
         | H : is_aborted _ = false |- _ => rewrite H; clear H
         end.
  rewrite Hcf. simpl. rewrite !app_nil_r, !Bool.orb_false_r.
  split.
  - intros (Ha1 & Ha2 & Ha3 & _). auto.
  - intros (Ha1 & Ha2 & Ha3). rewrite Ha1, Ha2, Ha3. auto.
Qed.

Lemma amount_path a :
  let v := value_of VUndefined (raw_amount a) in
  (issues_of (raw_amount a) = []
   /\ is_aborted (schema_amount v) = false
   /\ issues_of (schema_amount v) = [])
  <-> exists n, parsed_amount a = Some n /\ amount_checks n = [].
Proof.
  intros v. subst v. destruct a as [| |s|n|b| |]; simpl;
    try (split; [intros (H & _); discriminate|intros (n & H & _); discriminate]).
  - destruct (Js.isNaN (Js.Number s)) eqn:E.
    + simpl. split; [intros (H & _); discriminate|intros (n & H & _); discriminate].
    + simpl. destruct (Js.Number s) eqn:En; [discriminate| |];
        rewrite is_aborted_checked, issues_of_checked;
        (split; [intros (_ & _ & H); eauto|intros (n & [= <-] & H); auto]).
  - destruct n as [|neg|neg s e]; simpl;
      [split; [intros (H & _); discriminate|intros (n & H & _); discriminate]| |];
      rewrite is_aborted_checked, issues_of_checked;
      (split; [intros (_ & _ & H); eauto|intros (n & [= <-] & H); auto]).
Qed.

Lemma with_amount_rule env c a :
  accepted (RawPaymentRowSchema env c) = true ->
  accepted (RawPaymentRowSchema env (with_amount c a)) = amount_rule a.
Proof.
  intros Hc. apply Bool.eq_true_iff_eq.
  rewrite (with_amount_accepted env c a Hc), amount_path.
  unfold amount_rule. split.
  - intros (n & -> & H). apply amount_checks_nil in H as (H1 & H2 & H3).
    rewrite H1, H2, H3. reflexivity.
  - destruct (parsed_amount a) as [n|]; [|discriminate].
    intros H. apply andb_prop in H as [H H3]. apply andb_prop in H as [H1 H2].
    exists n. split; [reflexivity|]. apply amount_checks_nil. auto.
Qed.

(** The claim of C5 fails where it says that the digits after the decimal
    point are counted in the text of the input rather than after floating
    rounding: the text is first read as a double, and the digits are
    counted in what [toString] prints for that double.  The amounts
    [1.500] (three digits written) and [100.10000000000000001] (seventeen
    digits written, read as the double 100.1) are accepted; [1.5e-3] (one
    digit written, the number 0.0015) is rejected. *)
Lemma amount_with_three_written_decimals_accepted :
  let c := sample_candidate VUndefined (VStr "jane.doe@example.com")
             "1500.00" "2025-11-01" in
  accepted (RawPaymentRowSchema (sample_env 0) c) = true
  /\ written_decimals "1.500" = 3
  /\ accepted (RawPaymentRowSchema (sample_env 0) (with_amount c (VStr "1.500"))) = true
  /\ written_decimals "100.10000000000000001" = 17
  /\ Js.Number "100.10000000000000001" = Js.Finite false 1001 (-1)
  /\ accepted (RawPaymentRowSchema (sample_env 0)
                 (with_amount c (VStr "100.10000000000000001"))) = true
  /\ written_decimals "1.5e-3" = 1
  /\ accepted (RawPaymentRowSchema (sample_env 0) (with_amount c (VStr "1.5e-3"))) = false.
Proof. repeat split; vm_compute; reflexivity. Qed.

(** C5 (amended). In a candidate that is otherwise accepted, an amount is
    accepted exactly when it parses as a number (a text through [Number],
    which rounds to the nearest double) that is above 0, at most 1,000,000
    and has at most two digits after the decimal point in the decimal
    representation of that number; so 1000000.00 is accepted, and
    1000000.01, 0, -5 and 100.999 are rejected. *)
Theorem amount_accepted_iff (env : Env) (c : Candidate) (a : value) :
  accepted (RawPaymentRowSchema env c) = true ->
  (accepted (RawPaymentRowSchema env (with_amount c a)) = true
   <-> exists n,
         parsed_amount a = Some n
         /\ Js.lt (Js.of_Z 0) n = true
         /\ Js.le n (Js.of_Z 1000000) = true
         /\ at_most_two_decimals n = true)
  /\ accepted (RawPaymentRowSchema env (with_amount c (VStr "1000000.00"))) = true
  /\ accepted (RawPaymentRowSchema env (with_amount c (VStr "1000000.01"))) = false
  /\ accepted (RawPaymentRowSchema env (with_amount c (VStr "0"))) = false
  /\ accepted (RawPaymentRowSchema env (with_amount c (VStr "-5"))) = false
  /\ accepted (RawPaymentRowSchema env (with_amount c (VStr "100.999"))) = false.
Proof.
  intros Hc. rewrite !(with_amount_rule env c _ Hc).
  split; [|repeat split; vm_compute; reflexivity].
  unfold amount_rule. split.
  - destruct (parsed_amount a) as [n|]; [|discriminate].
    intros H. apply andb_prop in H as [H H3]. apply andb_prop in H as [H1 H2].
    exists n. auto.
  - intros (n & -> & H1 & H2 & H3). rewrite H1, H2, H3. reflexivity.
Qed.

Lemma amount_accepted_iff_witness :
  let c := sample_candidate VUndefined (VStr "jane.doe@example.com")
             "1500.00" "2025-11-01" in
  accepted (RawPaymentRowSchema (sample_env 0) c) = true
  /\ accepted (RawPaymentRowSchema (sample_env 0) (with_amount c (VStr "1000000.00")))
     = true
  /\ accepted (RawPaymentRowSchema (sample_env 0) (with_amount c (VStr "100.999")))
     = false.
Proof.
  intros c.
  assert (Hc : accepted (RawPaymentRowSchema (sample_env 0) c) = true)
    by (vm_compute; reflexivity).
  destruct (amount_accepted_iff (sample_env 0) c (VStr "12.5") Hc)
    as (_ & H1 & _ & _ & _ & H5).
  split; [exact Hc|]. split; [exact H1|exact H5].
Defined.

(** *** The window of [pay_date] *)

(** On a clock at UTC the window is inclusive at both ends, in days. *)
Lemma pay_date_window_utc now val d :
  JsDate.parse val = Some (d * JsDate.msPerDay) ->
  pay_date_window {| JsDate.now := now; JsDate.tz_offset_min := 0 |} val
  = (now / JsDate.msPerDay - 30 <=? d) && (d <=? now / JsDate.msPerDay + 365).
Proof.
  intros Hp. unfold pay_date_window, JsDate.local_midnight, JsDate.add_days.
  rewrite Hp. cbn [JsDate.now JsDate.tz_offset_min].
  rewrite Z.mul_0_l, Z.add_0_r, Z.sub_0_r.
  unfold JsDate.msPerDay. set (t := now / 86400000).
  apply Bool.eq_true_iff_eq. rewrite !Bool.andb_true_iff, !Z.leb_le. lia.
Qed.

(** At the two bounds of the window, for a date that [new Date] reads as
    the day [d] and a clock whose offset is less than a day: the day 365
    days after the local day is accepted exactly when the clock is not
    east of UTC, the day 30 days before it exactly when the clock is not
    west of UTC. *)
Lemma pay_date_window_at_bounds now tz val d :
  -1440 < tz < 1440 ->
  JsDate.parse val = Some (d * JsDate.msPerDay) ->
  let clock := {| JsDate.now := now; JsDate.tz_offset_min := tz |} in
  let local_day := (now + tz * 60000) / JsDate.msPerDay in
  (d = local_day + 365 -> pay_date_window clock val = (tz <=? 0))
  /\ (d = local_day - 30 -> pay_date_window clock val = (0 <=? tz)).
Proof.
  intros Htz Hp clock local_day.
  unfold pay_date_window, JsDate.local_midnight, JsDate.add_days.
  rewrite Hp. cbn [JsDate.now JsDate.tz_offset_min clock].
  fold local_day. unfold JsDate.msPerDay.
  split; intros ->; apply Bool.eq_true_iff_eq;
    rewrite Bool.andb_true_iff, !Z.leb_le; lia.
Qed.

(** C6, at the bounds of the window.  On a clock at UTC the dates 30 days
    before and 365 days after today are accepted and the dates 31 days
    before and 366 days after are rejected; on a clock east of UTC (here
    UTC+05:30) the date 365 days after today is rejected, and on a clock
    west of UTC (here UTC-05:00) the date 30 days before today is
    rejected: the date is read as midnight UTC and compared with local
    midnights. *)
Lemma pay_date_window_bounds_depend_on_offset :
  let today := JsDate.days_from_civil 2025 10 17 in
  (* the local day is 2025-10-17 on the three clocks *)
  (JsDate.local_midnight (sample_clock 0) = today * JsDate.msPerDay
   /\ JsDate.local_midnight (sample_clock 330) + 330 * 60000 = today * JsDate.msPerDay
   /\ JsDate.local_midnight (sample_clock (-300)) - 300 * 60000
      = today * JsDate.msPerDay)
  /\ (JsDate.days_from_civil 2025 9 17 = today - 30
      /\ JsDate.days_from_civil 2026 10 17 = today + 365)
  /\ (pay_date_window (sample_clock 0) "2025-09-17" = true
      /\ pay_date_window (sample_clock 0) "2025-09-16" = false
      /\ pay_date_window (sample_clock 0) "2026-10-17" = true
      /\ pay_date_window (sample_clock 0) "2026-10-18" = false)
  /\ (pay_date_window (sample_clock 330) "2026-10-17" = false
      /\ issues (RawPaymentRowSchema (sample_env 330)
                   (sample_candidate VUndefined (VStr "jane.doe@example.com")
                      "1500.00" "2026-10-17"))
         = [{| path := Some "pay_date";
               message := "pay_date must be within ±30 days from today (past) and +365 days (future)" |}])
  /\ pay_date_window (sample_clock (-300)) "2025-09-17" = false.
Proof. vm_compute. repeat split. Qed.

(** *** The rule on the two identifiers *)

Lemma raw_optional_string_clean field v :
  issues_of (raw_optional_string field v) = [] ->
  (exists s, value_of VUndefined (raw_optional_string field v) = VStr s
             /\ (missing_or_empty v -> s = ""))
  \/ value_of VUndefined (raw_optional_string field v) = VNull.
Proof.
  destruct v; simpl; intros H; try discriminate.
  - left. exists "". auto.
  - right. reflexivity.
  - left. exists s. split; [reflexivity|].
    intros [Hm|[Hm|Hm]]; congruence.
Qed.

Lemma optional_nullable_string_clean field checks v :
  (exists s, v = VStr s) \/ v = VNull ->
  is_aborted (optional_nullable_string field checks v) = false.
Proof.
  intros [[s ->]| ->]; simpl; [apply is_aborted_checked|reflexivity].
Qed.

(** After a coercion without issue no field of the second schema is
    aborted. *)
Lemma coerced_not_aborted env c :
  coercion_issues c = [] -> any_aborted (parse_fields env (coerced c)) = false.
Proof.
  unfold coercion_issues. intros H. split_nil.
  unfold any_aborted.
  cbn [parse_fields coerced p_employee_id p_employee_email p_amount p_currency
    p_pay_date p_description p_external_reference in_employee_id
    in_employee_email in_amount in_currency in_pay_date in_description
    in_external_reference].
  repeat match goal with
         | Hi : issues_of (raw_optional_string ?f ?v) = [] |- _ =>
             let Hs := fresh "Hs" in
             pose proof (raw_optional_string_clean f v Hi) as Hs; clear Hi
         end.
  unfold schema_employee_id, schema_employee_email, schema_description,
    schema_external_reference.
  rewrite !optional_nullable_string_clean
    by (match goal with
        | Hs : (exists s, ?x = VStr s /\ _) \/ ?x = VNull
          |- (exists s, ?x = VStr s) \/ ?x = VNull =>
            destruct Hs as [(s & Hs & _)|Hs]; eauto
        end).
  assert (Ha : is_aborted (schema_amount (value_of VUndefined (raw_amount (in_amount c))))
               = false).
  { destruct (in_amount c) as [| |s|n|b| |]; simpl in *; try discriminate.
    - destruct (Js.isNaN (Js.Number s)) eqn:E; [discriminate|]. simpl.
      destruct (Js.Number s); [discriminate| |]; apply is_aborted_checked.
    - destruct n; [discriminate| |]; simpl; apply is_aborted_checked. }
  assert (Hcur : is_aborted
                   (schema_currency
                      (value_of VUndefined
                         (raw_string "currency"
                            (fun val => Js.toUpperCase (Js.trim val)) (in_currency c))))
                 = false).
  { destruct (in_currency c); simpl in *; try discriminate. apply is_aborted_checked. }
  assert (Hpd : is_aborted
                  (schema_pay_date env
                     (value_of VUndefined (raw_string "pay_date" Js.trim (in_pay_date c))))
                = false).
  { destruct (in_pay_date c); simpl in *; try discriminate. apply is_aborted_checked. }
  rewrite Ha, Hcur, Hpd. reflexivity.
Qed.

Lemma cross_field_missing env c :
  missing_or_empty (in_employee_id c) ->
  missing_or_empty (in_employee_email c) ->
  coercion_issues c = [] ->
  cross_field (parsed_data (parse_fields env (coerced c))) = [cross_field_issue].
Proof.
  intros Hid Hem H. unfold coercion_issues in H. split_nil.
  repeat match goal with
         | Hi : issues_of (raw_optional_string ?f ?v) = [] |- _ =>
             let Hs := fresh "Hs" in
             pose proof (raw_optional_string_clean f v Hi) as Hs; clear Hi
         end.
  unfold cross_field.
  cbn [parse_fields coerced parsed_data p_employee_id p_employee_email
    in_employee_id in_employee_email employee_id employee_email].
  assert (Hi : truthy (value_of OUndefined
                 (schema_employee_id
                    (value_of VUndefined
                       (raw_optional_string "employee_id" (in_employee_id c)))))
               = false).
  { match goal with
    | Hs : _ \/ value_of VUndefined
                  (raw_optional_string "employee_id" (in_employee_id c)) = VNull
      |- _ => destruct Hs as [(s & -> & Hs)| ->]; [rewrite (Hs Hid)|]; reflexivity
    end. }
  assert (He : truthy (value_of OUndefined
                 (schema_employee_email env
                    (value_of VUndefined
                       (raw_optional_string "employee_email" (in_employee_email c)))))
               = false).
  { match goal with
    | Hs : _ \/ value_of VUndefined
                  (raw_optional_string "employee_email" (in_employee_email c)) = VNull
      |- _ => destruct Hs as [(s & -> & Hs)| ->]; [rewrite (Hs Hem)|]; [|reflexivity]
    end.
    unfold schema_employee_email, optional_nullable_string.
    destruct (check "employee_email" (is_email env "") "Invalid email"); reflexivity. }
  unfold or_else. rewrite Hi, He. reflexivity.
Qed.

(** The claim of C7 fails as it is stated: without any identifier and with
    an amount that is not a number, the only error returned is the one of
    the amount; no error of the whole row is in the list. *)
Lemma cross_field_error_suppressed :
  let c := sample_candidate VUndefined VUndefined "abc" "2025-11-01" in
  missing_or_empty (in_employee_id c)
  /\ missing_or_empty (in_employee_email c)
  /\ RawPaymentRowSchema (sample_env 0) c
     = Failure [{| path := Some "amount"; message := "amount must be a valid number" |}]
  /\ ~ In cross_field_issue (issues (RawPaymentRowSchema (sample_env 0) c))
  /\ ~ exists i, In i (issues (RawPaymentRowSchema (sample_env 0) c)) /\ path i = None.
Proof.
  intros c. split; [left; reflexivity|]. split; [left; reflexivity|].
  split; [vm_compute; reflexivity|]. split.
  - vm_compute. intros [H|[]]. discriminate H.
  - vm_compute. intros (i & [<-|[]] & H). discriminate H.
Qed.

(** C7 (amended). A candidate in which both identifiers are missing or
    empty is rejected, whatever its other fields; when its values pass the
    coercion of the first schema (the amount is a number or a text that
    parses as a number, the currency and the date are texts, the optional
    fields are texts, null or missing) the errors returned are those of the
    fields, whether the other fields are valid or not, followed by the
    error of the whole row, which has no field; when the coercion fails
    the errors returned are those of the coercion only. *)
Theorem missing_identifiers_rejected (env : Env) (c : Candidate) :
  missing_or_empty (in_employee_id c) ->
  missing_or_empty (in_employee_email c) ->
  accepted (RawPaymentRowSchema env c) = false
  /\ (coercion_issues c = [] ->
      RawPaymentRowSchema env c
      = Failure (field_issues (parse_fields env (coerced c)) ++ [cross_field_issue])
      /\ In cross_field_issue (issues (RawPaymentRowSchema env c))
      /\ path cross_field_issue = None)
  /\ (coercion_issues c <> [] ->
      RawPaymentRowSchema env c = Failure (coercion_issues c)).
Proof.
  intros Hid Hem.
  assert (Hclean : coercion_issues c = [] ->
    RawPaymentRowSchema env c
    = Failure (field_issues (parse_fields env (coerced c)) ++ [cross_field_issue])).
  { intros H. unfold RawPaymentRowSchema. rewrite H.
    unfold PaymentRowSchema. cbv zeta.
    rewrite (coerced_not_aborted env c H), (cross_field_missing env c Hid Hem H).
    destruct (field_issues (parse_fields env (coerced c)) ++ [cross_field_issue]) eqn:E;
      [|reflexivity].
    apply app_eq_nil in E as [_ E]. discriminate. }
  assert (Hdirty : coercion_issues c <> [] ->
    RawPaymentRowSchema env c = Failure (coercion_issues c)).
  { intros H. unfold RawPaymentRowSchema.
    destruct (coercion_issues c); [contradiction|reflexivity]. }
  split; [|split].
  - destruct (coercion_issues c) eqn:E.
    + rewrite Hclean by reflexivity. reflexivity.
    + rewrite Hdirty by discriminate. reflexivity.
  - intros H. split; [exact (Hclean H)|]. split; [|reflexivity].
    rewrite (Hclean H). simpl. apply in_or_app. right. left. reflexivity.
  - exact Hdirty.
Qed.

Lemma missing_identifiers_rejected_witness :
  let c := sample_candidate VUndefined (VStr "") "-5" "2025-11-01" in
  accepted (RawPaymentRowSchema (sample_env 0) c) = false
  /\ In cross_field_issue (issues (RawPaymentRowSchema (sample_env 0) c)).
Proof.
  intros c.
  destruct (missing_identifiers_rejected (sample_env 0) c
              (or_introl eq_refl) (or_intror (or_intror eq_refl)))
    as (H1 & H2 & _).
  split; [exact H1|]. exact (proj1 (proj2 (H2 eq_refl))).
Defined.

End Schemas.

(** ** validatePayrollRows *)

Section Batch.
Import Validation CsvParser Spec Sample.

Variable env : Env.
Variable columnMapping : ColumnMapping.

Lemma first_with_key_snoc key r pre : forall i,
  first_with_key env columnMapping key (pre ++ [r]) i
  = match first_with_key env columnMapping key pre i with
    | Some j => Some j
    | None =>
        match parse_row env columnMapping r with
        | Success d =>
            if String.eqb (paymentKey d) key then Some (i + List.length pre)%nat
            else None
        | Failure _ => None
        end
    end.
Proof.
  induction pre as [|x pre IH]; intros i; simpl.
  - rewrite Nat.add_0_r. destruct (parse_row env columnMapping r) as [d|]; [|reflexivity].
    destruct (String.eqb _ _); reflexivity.
  - destruct (parse_row env columnMapping x) as [d|].
    + destruct (String.eqb (paymentKey d) key); [reflexivity|].
      rewrite IH. replace (S i + List.length pre)%nat with (i + S (List.length pre))%nat by lia.
      reflexivity.
    + rewrite IH. replace (S i + List.length pre)%nat with (i + S (List.length pre))%nat by lia.
      reflexivity.
Qed.

(** The first accepted row with a key: it is accepted, it has the key, and
    no accepted row before it has. *)
Lemma first_with_key_Some key rows : forall i j,
  first_with_key env columnMapping key rows i = Some j ->
  exists rj dj,
    (i <= j)%nat /\ rows !! (j - i)%nat = Some rj
    /\ parse_row env columnMapping rj = Success dj /\ paymentKey dj = key
    /\ forall k rk dk, (k < j - i)%nat -> rows !! k = Some rk ->
                       parse_row env columnMapping rk = Success dk -> paymentKey dk <> key.
Proof.
  induction rows as [|r rows IH]; intros i j H; simpl in H; [discriminate|].
  assert (Hrec : first_with_key env columnMapping key rows (S i) = Some j ->
                 (forall d, parse_row env columnMapping r = Success d -> paymentKey d <> key) ->
                 exists rj dj,
                   (i <= j)%nat /\ (r :: rows) !! (j - i)%nat = Some rj
                   /\ parse_row env columnMapping rj = Success dj /\ paymentKey dj = key
                   /\ forall k rk dk, (k < j - i)%nat -> (r :: rows) !! k = Some rk ->
                                      parse_row env columnMapping rk = Success dk -> paymentKey dk <> key).
  { intros Hr Hne. destruct (IH (S i) j Hr) as (rj & dj & Hle & Hl & Hp & Hk & Hfirst).
    exists rj, dj. split; [lia|].
    replace (j - i)%nat with (S (j - S i)) by lia.
    split; [exact Hl|]. split; [exact Hp|]. split; [exact Hk|].
    intros k rk dk Hlt Hlk Hpk. destruct k as [|k].
    - simpl in Hlk. injection Hlk as <-. eapply Hne; eauto.
    - simpl in Hlk. eapply Hfirst; eauto. lia. }
  destruct (parse_row env columnMapping r) as [d|] eqn:Hp.
  - destruct (String.eqb (paymentKey d) key) eqn:E.
    + injection H as <-. apply String.eqb_eq in E.
      exists r, d. rewrite Nat.sub_diag. split; [lia|]. split; [reflexivity|].
      split; [exact Hp|]. split; [exact E|]. intros k rk dk Hlt. lia.
    + apply Hrec; [exact H|]. intros d' [= <-]. apply String.eqb_neq. exact E.
  - apply Hrec; [exact H|]. intros d' Hd. discriminate.
Qed.

Lemma first_with_key_None key rows : forall i,
  first_with_key env columnMapping key rows i = None ->
  forall k rk dk, rows !! k = Some rk -> parse_row env columnMapping rk = Success dk -> paymentKey dk <> key.
Proof.
  induction rows as [|r rows IH]; intros i H k rk dk Hl Hp; simpl in H.
  - destruct k; discriminate.
  - destruct k as [|k]; simpl in Hl.
    + injection Hl as <-. rewrite Hp in H.
      destruct (String.eqb (paymentKey dk) key) eqn:E; [discriminate|].
      apply String.eqb_neq. exact E.
    + destruct (parse_row env columnMapping r) as [d|].
      * destruct (String.eqb (paymentKey d) key); [discriminate|]. eapply IH; eauto.
      * eapply IH; eauto.
Qed.

(** The loop appends to its three lists the partitions of the rows it
    goes through, when the map of the keys seen holds, for each key, the
    first accepted row with that key. *)
Lemma validate_loop_spec rest : forall pre st,
  (forall key, seenPayments st !! key = first_with_key env columnMapping key pre 0) ->
  let st' := validate_loop env columnMapping rest (List.length pre) st in
  let cl := classified_from env columnMapping pre rest in
  st_validRows st' = st_validRows st ++ map snd (omap valid_of cl)
  /\ st_invalidRows st' = st_invalidRows st ++ omap invalid_of cl
  /\ st_duplicates st' = st_duplicates st ++ omap duplicate_of cl.
Proof.
  induction rest as [|r rest IH]; intros pre st Hseen; simpl.
  - rewrite !app_nil_r. auto.
  - assert (Hlen : S (List.length pre) = List.length (pre ++ [r]))
      by (rewrite length_app; simpl; lia).
    rewrite Hlen. unfold validate_row, classify. fold (parse_row env columnMapping r).
    destruct (parse_row env columnMapping r) as [d|l] eqn:Hp.
    + rewrite Hseen.
      destruct (first_with_key env columnMapping (paymentKey d) pre 0) as [first|] eqn:Hf.
      * edestruct (IH (pre ++ [r])) as (H1 & H2 & H3);
          [|rewrite H1, H2, H3; cbn [st_validRows st_invalidRows st_duplicates];
            simpl; rewrite <- !app_assoc; auto].
        intros key. cbn [seenPayments]. rewrite first_with_key_snoc, Hseen, Hp.
        destruct (first_with_key env columnMapping key pre 0) eqn:Hk; [reflexivity|].
        destruct (String.eqb (paymentKey d) key) eqn:E; [|reflexivity].
        apply String.eqb_eq in E. subst key. congruence.
      * edestruct (IH (pre ++ [r])) as (H1 & H2 & H3);
          [|rewrite H1, H2, H3; cbn [st_validRows st_invalidRows st_duplicates];
            simpl; rewrite <- !app_assoc; auto].
        intros key. cbn [seenPayments]. rewrite first_with_key_snoc, Hp.
        destruct (String.eqb (paymentKey d) key) eqn:E.
        -- apply String.eqb_eq in E. subst key. rewrite lookup_insert_eq, Hf.
           reflexivity.
        -- apply String.eqb_neq in E. rewrite lookup_insert_ne by exact E.
           rewrite Hseen. destruct (first_with_key env columnMapping key pre 0); reflexivity.
    + edestruct (IH (pre ++ [r])) as (H1 & H2 & H3);
        [|rewrite H1, H2, H3; cbn [st_validRows st_invalidRows st_duplicates];
          simpl; rewrite <- !app_assoc; auto].
      intros key. cbn [seenPayments]. rewrite first_with_key_snoc, Hseen, Hp.
      destruct (first_with_key env columnMapping key pre 0); reflexivity.
Qed.

Lemma classified_indices rest : forall pre,
  map (fun x => fst (fst x)) (classified_from env columnMapping pre rest)
  = seq (List.length pre) (List.length rest).
Proof.
  induction rest as [|r rest IH]; intros pre; simpl; [reflexivity|].
  rewrite IH, length_app. simpl. rewrite Nat.add_1_r. reflexivity.
Qed.

Lemma classified_lookup rest : forall pre i r,
  rest !! i = Some r ->
  In (List.length pre + i, r, classify env columnMapping (pre ++ take i rest) r)%nat
     (classified_from env columnMapping pre rest).
Proof.
  induction rest as [|x rest IH]; intros pre i r Hl; [destruct i; discriminate|].
  destruct i as [|i]; simpl in Hl.
  - injection Hl as <-. left. simpl. rewrite Nat.add_0_r, app_nil_r. reflexivity.
  - right. specialize (IH (pre ++ [x]) i r Hl).
    rewrite length_app in IH. simpl in IH.
    replace (List.length pre + S i)%nat with (List.length pre + 1 + i)%nat by lia.
    simpl take. rewrite <- app_assoc in IH. exact IH.
Qed.

(** The three lists of indices are a partition of the indices. *)
Lemma parts_partition (cl : list (nat * gmap string value * Class)) :
  map fst (omap valid_of cl)
  ++ map inv_rowIndex (omap invalid_of cl)
  ++ map dup_rowIndex (omap duplicate_of cl)
  ≡ₚ map (fun x => fst (fst x)) cl.
Proof.
  induction cl as [|[[i r] k] cl IH]; [reflexivity|].
  destruct k as [d|l|first]; simpl.
  - constructor. exact IH.
  - rewrite <- Permutation_middle. constructor. exact IH.
  - rewrite app_assoc, <- Permutation_middle, <- app_assoc. constructor. exact IH.
Qed.

Lemma In_omap {A B} (f : A -> option B) (l : list A) x y :
  In x l -> f x = Some y -> In y (omap f l).
Proof.
  intros Hx Hf. apply list_elem_of_In. apply list_elem_of_omap.
  exists x. split; [apply list_elem_of_In; exact Hx|exact Hf].
Qed.

Lemma first_with_key_absent key pre i :
  (forall k rk dk, pre !! k = Some rk -> parse_row env columnMapping rk = Success dk -> paymentKey dk <> key) ->
  first_with_key env columnMapping key pre i = None.
Proof.
  intros H. destruct (first_with_key env columnMapping key pre i) as [j|] eqn:E; [|reflexivity].
  destruct (first_with_key_Some key pre i j E) as (rj & dj & _ & Hl & Hp & Hk & _).
  exfalso. exact (H _ _ _ Hl Hp Hk).
Qed.

End Batch.

(** C4. [validatePayrollRows] puts every index of the input into exactly
    one of its three partitions: the indices of [invalidRows], those of
    [duplicates] and those of the rows kept in [validRows] (in the order of
    the input) are a rearrangement of [0, ..., n - 1].  The key of an
    accepted row is its employee_id when that is not empty, else its
    employee_email, then [":"], the amount, [":"] and the pay date.  An
    accepted row whose key is the key of an accepted row before it is in
    [duplicates] with [duplicateOf] the index of the first accepted row
    with that key, and that first row is in [validRows]. *)
Theorem validatePayrollRows_partitions
    (env : Validation.Env) (rows : list (gmap string Validation.value))
    (columnMapping : CsvParser.ColumnMapping) :
  let out := CsvParser.validatePayrollRows env rows columnMapping in
  let cl := Spec.classified_from env columnMapping [] rows in
  let valid := omap Spec.valid_of cl in
  (CsvParser.validRows out = map snd valid
   /\ CsvParser.invalidRows out = omap Spec.invalid_of cl
   /\ CsvParser.duplicates out = omap Spec.duplicate_of cl)
  /\ map fst valid
     ++ map CsvParser.inv_rowIndex (CsvParser.invalidRows out)
     ++ map CsvParser.dup_rowIndex (CsvParser.duplicates out)
     ≡ₚ seq 0 (List.length rows)
  /\ (forall d,
        CsvParser.paymentKey d
        = match Validation.employee_id d with
          | Validation.OStr s =>
              if String.eqb s ""
              then CsvParser.template (Validation.employee_email d) else s
          | _ => CsvParser.template (Validation.employee_email d)
          end
          +:+ ":" +:+ Js.toString (Validation.amount d)
          +:+ ":" +:+ Validation.pay_date d)
  /\ (forall i ri l,
        rows !! i = Some ri ->
        Spec.parse_row env columnMapping ri = Validation.Failure l ->
        In {| CsvParser.inv_rowIndex := i; CsvParser.inv_data := ri;
              CsvParser.inv_errors := map (CsvParser.issue_error i) l |}
           (CsvParser.invalidRows out))
  /\ (forall i ri di,
        rows !! i = Some ri ->
        Spec.parse_row env columnMapping ri = Validation.Success di ->
        (forall k rk dk,
           (k < i)%nat -> rows !! k = Some rk ->
           Spec.parse_row env columnMapping rk = Validation.Success dk ->
           CsvParser.paymentKey dk <> CsvParser.paymentKey di) ->
        In (i, di) valid /\ In di (CsvParser.validRows out))
  /\ (forall i j ri rj di dj,
        (j < i)%nat ->
        rows !! i = Some ri -> rows !! j = Some rj ->
        Spec.parse_row env columnMapping ri = Validation.Success di ->
        Spec.parse_row env columnMapping rj = Validation.Success dj ->
        CsvParser.paymentKey dj = CsvParser.paymentKey di ->
        exists first rf df,
          (first <= j)%nat
          /\ rows !! first = Some rf
          /\ Spec.parse_row env columnMapping rf = Validation.Success df
          /\ CsvParser.paymentKey df = CsvParser.paymentKey di
          /\ (forall k rk dk,
                (k < first)%nat -> rows !! k = Some rk ->
                Spec.parse_row env columnMapping rk = Validation.Success dk ->
                CsvParser.paymentKey dk <> CsvParser.paymentKey di)
          /\ In {| CsvParser.dup_rowIndex := i; CsvParser.dup_data := ri;
                   CsvParser.duplicateOf := first |} (CsvParser.duplicates out)
          /\ In (first, df) valid
          /\ In df (CsvParser.validRows out)).
Proof.
  intros out cl valid.
  destruct (validate_loop_spec env columnMapping rows []
              {| CsvParser.st_validRows := []; CsvParser.st_invalidRows := [];
                 CsvParser.st_duplicates := []; CsvParser.seenPayments := ∅ |})
    as (H1 & H2 & H3).
  { intros key. simpl. apply lookup_empty. }
  simpl in H1, H2, H3. fold cl in H1, H2, H3. fold valid in H1.
  assert (Hparts : CsvParser.validRows out = map snd valid
                   /\ CsvParser.invalidRows out = omap Spec.invalid_of cl
                   /\ CsvParser.duplicates out = omap Spec.duplicate_of cl)
    by (unfold out, CsvParser.validatePayrollRows; simpl; auto).
  destruct Hparts as (Hv & Hi & Hd).
  assert (Hfirst : forall i ri di,
            rows !! i = Some ri ->
            Spec.parse_row env columnMapping ri = Validation.Success di ->
            (forall k rk dk,
               (k < i)%nat -> rows !! k = Some rk ->
               Spec.parse_row env columnMapping rk = Validation.Success dk ->
               CsvParser.paymentKey dk <> CsvParser.paymentKey di) ->
            In (i, di) valid /\ In di (CsvParser.validRows out)).
  { intros i ri di Hli Hpi Hnone.
    assert (Hvalid : In (i, di) valid).
    { unfold valid, cl.
      apply (In_omap Spec.valid_of _
               (i, ri, Spec.classify env columnMapping (take i rows) ri)).
      - exact (classified_lookup env columnMapping rows [] i ri Hli).
      - unfold Spec.classify. rewrite Hpi.
        rewrite first_with_key_absent; [reflexivity|].
        intros k rk dk Hlk Hpk.
        assert (Hk : (k < i)%nat).
        { apply lookup_lt_Some in Hlk. rewrite length_take in Hlk. lia. }
        rewrite lookup_take_lt in Hlk by exact Hk.
        exact (Hnone k rk dk Hk Hlk Hpk). }
    split; [exact Hvalid|].
    rewrite Hv. apply (in_map snd) in Hvalid. exact Hvalid. }
  split; [auto|]. split; [|split; [|split; [|split; [exact Hfirst|]]]].
  - rewrite Hi, Hd. unfold valid. rewrite parts_partition.
    unfold cl. rewrite classified_indices. reflexivity.
  - intros d. unfold CsvParser.paymentKey, Validation.or_else, Validation.truthy.
    destruct (Validation.employee_id d) as [| |s]; try reflexivity.
    destruct (String.eqb s ""); reflexivity.
  - intros i ri l Hli Hpi. rewrite Hi. unfold cl.
    apply (In_omap Spec.invalid_of _
             (i, ri, Spec.classify env columnMapping (take i rows) ri)).
    + exact (classified_lookup env columnMapping rows [] i ri Hli).
    + unfold Spec.classify. rewrite Hpi. reflexivity.
  - intros i j ri rj di dj Hlt Hli Hlj Hpi Hpj Hkey.
    assert (Htake : take i rows !! j = Some rj)
      by (rewrite lookup_take_lt by exact Hlt; exact Hlj).
    destruct (Spec.first_with_key env columnMapping (CsvParser.paymentKey di)
                (take i rows) 0) as [first|] eqn:Hf.
    2:{ exfalso. exact (first_with_key_None env columnMapping _ _ _ Hf _ _ _
                          Htake Hpj Hkey). }
    destruct (first_with_key_Some env columnMapping _ _ _ _ Hf)
      as (rf & df & _ & Hlf & Hpf & Hkf & Hmin).
    rewrite Nat.sub_0_r in Hlf, Hmin.
    assert (Hfi : (first < i)%nat).
    { apply lookup_lt_Some in Hlf. rewrite length_take in Hlf. lia. }
    rewrite lookup_take_lt in Hlf by exact Hfi.
    assert (Hminrows : forall k rk dk,
              (k < first)%nat -> rows !! k = Some rk ->
              Spec.parse_row env columnMapping rk = Validation.Success dk ->
              CsvParser.paymentKey dk <> CsvParser.paymentKey di).
    { intros k rk dk Hk Hlk Hpk. apply (Hmin k rk dk Hk); [|exact Hpk].
      rewrite lookup_take_lt by lia. exact Hlk. }
    assert (Hfj : (first <= j)%nat).
    { destruct (le_lt_dec first j) as [Hle|Hgt]; [exact Hle|].
      exfalso. exact (Hminrows j rj dj Hgt Hlj Hpj Hkey). }
    destruct (Hfirst first rf df Hlf Hpf) as [Hvalid Hvalid'].
    { intros k rk dk Hk Hlk Hpk. rewrite Hkf. exact (Hminrows k rk dk Hk Hlk Hpk). }
    exists first, rf, df.
    split; [exact Hfj|]. split; [exact Hlf|]. split; [exact Hpf|].
    split; [exact Hkf|]. split; [exact Hminrows|]. split; [|split].
    + rewrite Hd. unfold cl.
      apply (In_omap Spec.duplicate_of _
               (i, ri, Spec.classify env columnMapping (take i rows) ri)).
      * exact (classified_lookup env columnMapping rows [] i ri Hli).
      * unfold Spec.classify. rewrite Hpi, Hf. reflexivity.
    + exact Hvalid.
    + exact Hvalid'.
Qed.

Lemma validatePayrollRows_partitions_witness :
  let out := CsvParser.validatePayrollRows (Sample.sample_env 0)
               [Sample.sample_raw_row; Sample.sample_raw_row] Sample.sample_mapping in
  In {| CsvParser.dup_rowIndex := 1; CsvParser.dup_data := Sample.sample_raw_row;
        CsvParser.duplicateOf := 0 |} (CsvParser.duplicates out)
  /\ List.length (CsvParser.validRows out) = 1%nat.
Proof.
  intros out.
  assert (Hp : exists d, Spec.parse_row (Sample.sample_env 0) Sample.sample_mapping
                           Sample.sample_raw_row = Validation.Success d)
    by (vm_compute; eauto).
  destruct Hp as [d Hp].
  destruct (validatePayrollRows_partitions (Sample.sample_env 0)
              [Sample.sample_raw_row; Sample.sample_raw_row] Sample.sample_mapping)
    as (_ & _ & _ & _ & _ & Hdup).
  destruct (Hdup 1%nat 0%nat Sample.sample_raw_row Sample.sample_raw_row d d
              ltac:(lia) eq_refl eq_refl Hp Hp eq_refl)
    as (first & rf & df & Hle & _ & _ & _ & _ & Hin & _).
  assert (first = 0%nat) as -> by lia.
  split; [exact Hin|]. vm_compute. reflexivity.
Defined.


(** * More properties of the code *)

(** ** detectColumnMapping *)

Section Detection.
Import CsvParser JsText ColumnDetection Props.

Lemma indexOf_Some l x i :
  indexOf l x = Some i ->
  l !! i = Some x /\ forall j y, (j < i)%nat -> l !! j = Some y -> y <> x.
Proof.
  revert i. induction l as [|y l IH]; intros i; simpl; [discriminate|].
  destruct (String.eqb y x) eqn:E.
  - intros [= <-]. apply String.eqb_eq in E. subst. split; [reflexivity|].
    intros j z Hj. lia.
  - destruct (indexOf l x) as [k|] eqn:Hk; simpl; [|discriminate].
    intros [= <-]. destruct (IH k eq_refl) as [H1 H2]. split; [exact H1|].
    intros [|j] z Hj; simpl.
    + intros [= <-]. apply String.eqb_neq in E. exact E.
    + apply H2. lia.
Qed.

Lemma indexOf_None l x : indexOf l x = None <-> ~ In x l.
Proof.
  induction l as [|y l IH]; simpl; [tauto|].
  destruct (String.eqb y x) eqn:E.
  - apply String.eqb_eq in E. split; [discriminate|]. intros H. exfalso. auto.
  - apply String.eqb_neq in E. destruct (indexOf l x); simpl.
    + split; [discriminate|]. intros H. exfalso.
      assert (Hn : ~ In x l) by tauto. apply IH in Hn. discriminate.
    + split; [|reflexivity]. intros _ [H|H]; [auto|]. apply IH in H; auto.
Qed.

Lemma normalizedHeaders_lookup headers i x :
  normalizedHeaders headers !! i = Some x ->
  exists h, headers !! i = Some h /\ normalize_header h = x.
Proof.
  unfold normalizedHeaders. rewrite list_lookup_fmap.
  destruct (headers !! i) as [h|]; simpl; [|discriminate].
  intros [= <-]. exists h. split; reflexivity.
Qed.

Lemma In_normalizedHeaders headers x :
  In x (normalizedHeaders headers) <->
  exists h, In h headers /\ normalize_header h = x.
Proof.
  unfold normalizedHeaders. rewrite in_map_iff. split.
  - intros (h & H1 & H2). exists h. split; [exact H2|exact H1].
  - intros (h & H1 & H2). exists h. split; [exact H2|exact H1].
Qed.

Lemma first_alias_Some headers aliases h :
  first_alias headers aliases = Some h ->
  In h headers /\ In (normalize_header h) aliases.
Proof.
  induction aliases as [|alias rest IH]; simpl; [discriminate|].
  destruct (indexOf (normalizedHeaders headers) alias) as [i|] eqn:Hi.
  - intros Hh. apply indexOf_Some in Hi as [Hi _].
    apply normalizedHeaders_lookup in Hi as (h' & Hh' & Hn).
    rewrite Hh' in Hh. injection Hh as <-. split.
    + apply list_elem_of_In. eapply list_elem_of_lookup_2. exact Hh'.
    + left. symmetry. exact Hn.
  - intros Hh. destruct (IH Hh) as [H1 H2]. split; [exact H1|right; exact H2].
Qed.

Lemma first_alias_None headers aliases :
  first_alias headers aliases = None <->
  forall h, In h headers -> ~ In (normalize_header h) aliases.
Proof.
  induction aliases as [|alias rest IH]; simpl.
  - split; [intros _ h _ []|reflexivity].
  - destruct (indexOf (normalizedHeaders headers) alias) as [i|] eqn:Hi.
    + apply indexOf_Some in Hi as [Hi _].
      apply normalizedHeaders_lookup in Hi as (h' & Hh' & Hn).
      rewrite Hh'. split; [discriminate|]. intros H. exfalso.
      apply (H h'); [|left; symmetry; exact Hn].
      apply list_elem_of_In. eapply list_elem_of_lookup_2. exact Hh'.
    + apply indexOf_None in Hi. rewrite IH. split.
      * intros H h Hh [Ha|Ha]; [|exact (H h Hh Ha)].
        apply Hi. apply In_normalizedHeaders. exists h. split; [exact Hh|].
        symmetry. exact Ha.
      * intros H h Hh Ha. apply (H h Hh). right. exact Ha.
Qed.

Lemma field_cases (P : string -> Prop) field :
  In field fields ->
  P "employee_id" -> P "employee_email" -> P "amount" -> P "currency" ->
  P "pay_date" -> P "description" -> P "external_reference" -> P field.
Proof.
  unfold fields. simpl.
  intros [<-|[<-|[<-|[<-|[<-|[<-|[<-|[]]]]]]]]; auto.
Qed.

Lemma column_detect headers field :
  In field fields ->
  column (detectColumnMapping headers) field = detect_field headers field.
Proof.
  intros H. pattern field. apply field_cases; [exact H|..]; reflexivity.
Qed.

Lemma detect_field_names headers field :
  In field fields ->
  detect_field headers field
  = match indexOf (normalizedHeaders headers) field with
    | Some i => headers !! i
    | None => first_alias headers (tl (names field))
    end.
Proof.
  intros H. pattern field. apply field_cases; [exact H|..]; reflexivity.
Qed.

Lemma column_sound headers field h :
  In field fields ->
  column (detectColumnMapping headers) field = Some h ->
  In h headers /\ In (normalize_header h) (names field).
Proof.
  intros Hf. rewrite column_detect, detect_field_names by exact Hf.
  destruct (indexOf (normalizedHeaders headers) field) as [i|] eqn:Hi.
  - intros Hh. apply indexOf_Some in Hi as [Hi _].
    apply normalizedHeaders_lookup in Hi as (h' & Hh' & Hn).
    rewrite Hh' in Hh. injection Hh as <-. split.
    + apply list_elem_of_In. eapply list_elem_of_lookup_2. exact Hh'.
    + left. symmetry. exact Hn.
  - intros Hh. apply first_alias_Some in Hh as [H1 H2].
    split; [exact H1|]. right. exact H2.
Qed.

Lemma indexOf_app l1 x l2 :
  (forall y, In y l1 -> y <> x) ->
  indexOf (l1 ++ x :: l2) x = Some (List.length l1).
Proof.
  induction l1 as [|y l1 IH]; intros H; simpl.
  - rewrite String.eqb_refl. reflexivity.
  - destruct (String.eqb y x) eqn:E.
    + apply String.eqb_eq in E. exfalso. apply (H y); [left; reflexivity|exact E].
    + rewrite IH; [reflexivity|]. intros z Hz. apply H. right. exact Hz.
Qed.

Lemma first_alias_skip headers pre rest :
  (forall n h, In n pre -> In h headers -> normalize_header h <> n) ->
  first_alias headers (pre ++ rest) = first_alias headers rest.
Proof.
  induction pre as [|a pre IH]; intros H; simpl; [reflexivity|].
  assert (Ha : indexOf (normalizedHeaders headers) a = None).
  { apply indexOf_None. intros Hin. apply In_normalizedHeaders in Hin as (h & Hh & Hn).
    apply (H a h); [left; reflexivity|exact Hh|exact Hn]. }
  rewrite Ha. apply IH. intros n h Hn. apply H. right. exact Hn.
Qed.

Lemma indexOf_first hs1 h hs2 name :
  normalize_header h = name ->
  (forall h', In h' hs1 -> normalize_header h' <> name) ->
  indexOf (normalizedHeaders (hs1 ++ h :: hs2)) name = Some (List.length hs1).
Proof.
  intros Hn Hfirst. unfold normalizedHeaders. rewrite map_app. simpl.
  fold (normalize_header h). rewrite Hn.
  rewrite indexOf_app; [rewrite length_map; reflexivity|].
  intros y Hy. apply in_map_iff in Hy as (h' & <- & Hh'). apply Hfirst. exact Hh'.
Qed.

(** X1. A column that [detectColumnMapping] maps to a field is one of the
    headers, and its text in lower case and trimmed is the name of the
    field or one of the aliases of that field. *)
Theorem detectColumnMapping_sound headers field h :
  In field fields ->
  column (detectColumnMapping headers) field = Some h ->
  In h headers /\ In (normalize_header h) (names field).
Proof. apply column_sound. Qed.

Lemma detectColumnMapping_sound_witness :
  column (detectColumnMapping Examples.sample_headers) "amount" = Some "Salary"
  /\ In "Salary" Examples.sample_headers
  /\ In (normalize_header "Salary") (names "amount").
Proof.
  assert (Hc : column (detectColumnMapping Examples.sample_headers) "amount"
               = Some "Salary") by reflexivity.
  split; [exact Hc|].
  apply (detectColumnMapping_sound Examples.sample_headers "amount" "Salary");
    [vm_compute; tauto|exact Hc].
Defined.

(** X2. The names of a field are tried in order, its own name first and
    then its aliases as listed; the field is mapped to the first header
    that matches the first name for which a header matches.  So a header
    with the name of the field wins over a header with an alias that comes
    before it, and an earlier alias of the list wins over a later one
    whatever the order of the headers. *)
Theorem detectColumnMapping_priority headers field pre name post hs1 h hs2 :
  In field fields ->
  names field = pre ++ name :: post ->
  (forall n h', In n pre -> In h' headers -> normalize_header h' <> n) ->
  headers = hs1 ++ h :: hs2 ->
  normalize_header h = name ->
  (forall h', In h' hs1 -> normalize_header h' <> name) ->
  column (detectColumnMapping headers) field = Some h.
Proof.
  intros Hf Hnames Hpre Hheaders Hn Hfirst.
  rewrite column_detect, detect_field_names by exact Hf.
  assert (Hidx : indexOf (normalizedHeaders headers) name = Some (List.length hs1)).
  { rewrite Hheaders. apply indexOf_first; assumption. }
  assert (Hat : headers !! List.length hs1 = Some h).
  { rewrite Hheaders. apply list_lookup_middle. reflexivity. }
  destruct pre as [|f pre].
  - simpl in Hnames. unfold names in Hnames. injection Hnames as -> _.
    rewrite Hidx. exact Hat.
  - unfold names in Hnames. simpl in Hnames. injection Hnames as <- Hal.
    assert (Hdirect : indexOf (normalizedHeaders headers) field = None).
    { apply indexOf_None. intros Hin.
      apply In_normalizedHeaders in Hin as (h' & Hh' & Hn').
      apply (Hpre field h'); [left; reflexivity|exact Hh'|exact Hn']. }
    rewrite Hdirect. unfold names. simpl. rewrite Hal.
    rewrite first_alias_skip.
    + simpl. rewrite Hidx. exact Hat.
    + intros n h' Hin. apply Hpre. right. exact Hin.
Qed.

Lemma detectColumnMapping_priority_witness :
  column (detectColumnMapping Examples.sample_headers) "employee_id"
  = Some "Employee_ID ".
Proof.
  apply (detectColumnMapping_priority Examples.sample_headers "employee_id"
           [] "employee_id"
           ["emp_id"; "empid"; "id"; "employee id"; "emp"; "employee_code"]
           ["emp_id"] "Employee_ID " ["Email"; "Salary"; "curr"; "date"]).
  - vm_compute. tauto.
  - reflexivity.
  - intros n h' [].
  - reflexivity.
  - reflexivity.
  - intros h' [<-|[]]. vm_compute. discriminate.
Defined.

Lemma column_unmapped_iff headers field :
  In field fields ->
  column (detectColumnMapping headers) field = None <->
  forall h, In h headers -> ~ In (normalize_header h) (names field).
Proof.
  intros Hf. rewrite column_detect, detect_field_names by exact Hf.
  destruct (indexOf (normalizedHeaders headers) field) as [i|] eqn:Hi.
  - apply indexOf_Some in Hi as [Hi _].
    apply normalizedHeaders_lookup in Hi as (h' & Hh' & Hn).
    rewrite Hh'. split; [discriminate|]. intros H. exfalso.
    apply (H h'); [|left; symmetry; exact Hn].
    apply list_elem_of_In. eapply list_elem_of_lookup_2. exact Hh'.
  - apply indexOf_None in Hi. rewrite first_alias_None. split.
    + intros H h Hh [Ha|Ha]; [|exact (H h Hh Ha)].
      apply Hi. apply In_normalizedHeaders. exists h. split; [exact Hh|].
      symmetry. exact Ha.
    + intros H h Hh Ha. apply (H h Hh). right. exact Ha.
Qed.

(** X3. A field is left unmapped ([null]) exactly when no header, in lower
    case and trimmed, is the name of the field or one of its aliases. *)
Theorem detectColumnMapping_unmapped_iff headers field :
  In field fields ->
  column (detectColumnMapping headers) field = None <->
  forall h, In h headers -> ~ In (normalize_header h) (names field).
Proof. apply column_unmapped_iff. Qed.

Lemma detectColumnMapping_unmapped_iff_witness :
  column (detectColumnMapping Examples.sample_headers) "description" = None.
Proof.
  apply (detectColumnMapping_unmapped_iff Examples.sample_headers "description").
  - vm_compute. tauto.
  - intros h Hh. vm_compute in Hh.
    repeat (destruct Hh as [<-|Hh];
            [vm_compute; intros H;
             repeat (destruct H as [H|H]; [discriminate H|]); exact H|]).
    destruct Hh.
Defined.

Lemma names_disjoint :
  forallb (fun f1 =>
    forallb (fun f2 =>
      String.eqb f1 f2
      || forallb (fun n => negb (existsb (String.eqb n) (names f2))) (names f1))
      fields) fields = true.
Proof. vm_compute. reflexivity. Qed.

(** X4. No header is mapped to two fields: the names and aliases of the
    seven fields are pairwise disjoint, so the column of a field is not
    the column of another field. *)
Theorem detectColumnMapping_injective headers f1 f2 h :
  In f1 fields -> In f2 fields -> f1 <> f2 ->
  column (detectColumnMapping headers) f1 = Some h ->
  column (detectColumnMapping headers) f2 <> Some h.
Proof.
  intros H1 H2 Hne Hc1 Hc2. apply Hne.
  apply column_sound in Hc1 as [_ Hn1]; [|exact H1].
  apply column_sound in Hc2 as [_ Hn2]; [|exact H2].
  pose proof names_disjoint as D.
  rewrite forallb_forall in D. specialize (D f1 H1).
  rewrite forallb_forall in D. specialize (D f2 H2).
  apply Bool.orb_true_iff in D as [D|D]; [apply String.eqb_eq; exact D|].
  rewrite forallb_forall in D. specialize (D _ Hn1).
  apply Bool.negb_true_iff in D.
  assert (Hex : existsb (String.eqb (normalize_header h)) (names f2) = true).
  { apply existsb_exists. exists (normalize_header h). split; [exact Hn2|].
    apply String.eqb_refl. }
  congruence.
Qed.

Lemma detectColumnMapping_injective_witness :
  column (detectColumnMapping Examples.sample_headers) "currency" = Some "curr"
  /\ column (detectColumnMapping Examples.sample_headers) "amount" <> Some "curr".
Proof.
  assert (Hc : column (detectColumnMapping Examples.sample_headers) "currency"
               = Some "curr") by reflexivity.
  split; [exact Hc|].
  apply (detectColumnMapping_injective Examples.sample_headers
           "currency" "amount" "curr");
    [vm_compute; tauto|vm_compute; tauto|discriminate|exact Hc].
Defined.

End Detection.

(** ** rowsToCSV *)

Section CellText.
Import JsText CsvExport.

Lemma includes_char_head c s : includes_char c (String c s) = true.
Proof. simpl. rewrite Ascii.eqb_refl. reflexivity. Qed.

Lemma double_quotes_closed_inj a : forall b,
  double_quotes a +:+ String dquote "" = double_quotes b +:+ String dquote "" ->
  a = b.
Proof.
  assert (Hq : Ascii.eqb dquote dquote = true) by reflexivity.
  induction a as [|c a IH]; intros [|d b]; simpl.
  - reflexivity.
  - destruct (Ascii.eqb d dquote) eqn:E; simpl; intros H; inversion H; subst;
      congruence.
  - destruct (Ascii.eqb c dquote) eqn:E; simpl; intros H; inversion H; subst;
      congruence.
  - destruct (Ascii.eqb c dquote) eqn:Ec, (Ascii.eqb d dquote) eqn:Ed; simpl;
      intros H; inversion H; subst; try congruence.
    + apply Ascii.eqb_eq in Ec, Ed. subst. f_equal. apply IH. assumption.
    + f_equal. apply IH. assumption.
Qed.

Lemma escape_quoted_not_plain a b :
  needs_quotes a = true -> needs_quotes b = false -> escape a <> escape b.
Proof.
  unfold escape. intros -> Hb. rewrite Hb. intros H.
  unfold needs_quotes in Hb. rewrite <- H in Hb.
  rewrite (includes_char_head dquote) in Hb.
  rewrite Bool.orb_true_r in Hb. discriminate.
Qed.

(** X5. The text that [rowsToCSV] writes for a value: a value without
    comma, double quote and line feed is written as it is; any other value
    is written between double quotes with its double quotes doubled; and
    two different values are never written as the same text. *)
Theorem escape_injective a b :
  (needs_quotes a = false -> escape a = a)
  /\ (needs_quotes a = true ->
      escape a = String dquote (double_quotes a +:+ String dquote ""))
  /\ (escape a = escape b -> a = b).
Proof.
  split; [|split].
  - unfold escape. intros ->. reflexivity.
  - unfold escape. intros ->. reflexivity.
  - intros H. destruct (needs_quotes a) eqn:Ea, (needs_quotes b) eqn:Eb.
    + unfold escape in H. rewrite Ea, Eb in H. injection H as H.
      apply double_quotes_closed_inj. exact H.
    + exfalso. exact (escape_quoted_not_plain a b Ea Eb H).
    + exfalso. exact (escape_quoted_not_plain b a Eb Ea (eq_sym H)).
    + unfold escape in H. rewrite Ea, Eb in H. exact H.
Qed.
End CellText.

Section Adapter.
Import Validation PaymentsAdapter.

Lemma seededRandom_milli_range this input :
  0 <= seededRandom_milli this input < 1000.
Proof. unfold seededRandom_milli. apply Z.mod_pos_bound. lia. Qed.

(** X6. A result of [createPayment] is well formed.  A success carries
    an id that starts with [fake_], no error, and a response that repeats
    the amount and the currency of the row.  A failure carries no id and
    an error that is one of the five texts of the list: the index computed
    from the second random number is always inside the list, so the error
    is never [undefined]; the response gives the same text as its
    reason. *)
Theorem createPayment_result_well_formed this amb input :
  let r := snd (createPayment this amb input) in
  if success r then
    id r = Some ("fake_" +:+ Js.toString (Js.of_Z (date_now amb)) +:+ "_"
                 +:+ random_text amb)
    /\ error r = None
    /\ rawResponse r
       = Some (RawCompleted (iso_timestamp amb) (amount input) (currency input))
  else
    id r = None
    /\ exists reason,
         In reason errors
         /\ error r = Some reason
         /\ rawResponse r = Some (RawFailed (iso_timestamp amb) reason).
Proof.
  unfold createPayment. cbn [snd].
  destruct (Js.lt _ _).
  - cbn [success id error rawResponse]. auto.
  - cbn [success id error rawResponse].
    set (m := seededRandom_milli this _).
    assert (Hm : 0 <= m < 1000) by apply seededRandom_milli_range.
    change (Z.of_nat (List.length errors)) with 5.
    assert (Hi : 0 <= m * 5 / 1000 < 5).
    { split; [apply Z.div_pos; lia|apply Z.div_lt_upper_bound; lia]. }
    destruct (nth_error errors (Z.to_nat (m * 5 / 1000))) as [reason|] eqn:E.
    + split; [reflexivity|]. exists reason. split; [|auto].
      eapply nth_error_In. exact E.
    + exfalso. apply nth_error_None in E. change (List.length errors) with 5%nat in E. lia.
Qed.
End Adapter.

Section AdapterRates.
Import Validation PaymentsAdapter.

Lemma createPayment_success this amb input :
  success (snd (createPayment this amb input))
  = Js.lt (seededRandom this (payment_key input)) (successRate this).
Proof.
  unfold createPayment. cbn [snd]. destruct (Js.lt _ _); reflexivity.
Qed.

Lemma pow10_pos k : 0 <= k -> 0 < 10 ^ k.
Proof. intros H. apply Z.pow_pos_nonneg; lia. Qed.

Lemma lt_fraction_of_one m rate :
  0 <= m < 1000 ->
  Js.le (Js.of_Z 1) rate = true ->
  Js.lt (Js.Finite false (Z.to_N m) (-3)) rate = true.
Proof.
  intros Hm. destruct rate as [|neg|neg s e]; cbn; try discriminate.
  - destruct neg; [discriminate|reflexivity].
  - unfold Js.scaled. rewrite Z2N.id by lia.
    set (sigma := (if neg then -1 else 1) * Z.of_N s).
    intros H. apply Z.leb_le in H. apply Z.ltb_lt.
    destruct (Z_le_dec 0 e) as [He|He].
    + rewrite Z.min_l in H by lia. rewrite Z.min_l by lia.
      replace (-3 - -3) with 0 by lia. replace (e - -3) with (e + 3) by lia.
      rewrite Z.pow_add_r by lia. replace (0 - 0) with 0 in H by lia.
      replace (e - 0) with e in H by lia.
      change (10 ^ 0) with 1 in *. change (10 ^ 3) with 1000. lia.
    + rewrite Z.min_r in H by lia. replace (e - e) with 0 in H by lia.
      change (10 ^ 0) with 1 in H.
      destruct (Z_le_dec (-3) e) as [He3|He3].
      * rewrite Z.min_l by lia. replace (-3 - -3) with 0 by lia.
        change (10 ^ 0) with 1.
        assert (Hp : 10 ^ (0 - e) * 10 ^ (e - -3) = 1000).
        { rewrite <- Z.pow_add_r by lia. replace (0 - e + (e - -3)) with 3 by lia.
          reflexivity. }
        pose proof (pow10_pos (e - -3) ltac:(lia)).
        pose proof (pow10_pos (0 - e) ltac:(lia)). nia.
      * rewrite Z.min_r by lia. replace (e - e) with 0 by lia.
        change (10 ^ 0) with 1.
        assert (Hp : 10 ^ (0 - e) = 1000 * 10 ^ (-3 - e)).
        { replace (0 - e) with (3 + (-3 - e)) by lia. rewrite Z.pow_add_r by lia.
          reflexivity. }
        pose proof (pow10_pos (-3 - e) ltac:(lia)). nia.
Qed.

Lemma lt_fraction_of_nonpositive m rate :
  0 <= m ->
  Js.lt (Js.of_Z 0) rate = false ->
  Js.lt (Js.Finite false (Z.to_N m) (-3)) rate = false.
Proof.
  intros Hm. destruct rate as [|neg|neg s e]; cbn; try reflexivity.
  - destruct neg; [reflexivity|discriminate].
  - unfold Js.scaled. rewrite Z2N.id by lia.
    set (sigma := (if neg then -1 else 1) * Z.of_N s).
    intros H. apply Z.ltb_ge in H. apply Z.ltb_ge.
    pose proof (pow10_pos (e - Z.min 0 e) ltac:(lia)).
    pose proof (pow10_pos (e - Z.min (-3) e) ltac:(lia)).
    pose proof (pow10_pos (-3 - Z.min (-3) e) ltac:(lia)).
    assert (sigma <= 0) by nia. nia.
Qed.

(** X7. The random number of [seededRandom] lies in [0, 1): with a
    success rate of 1 or more (an infinite one included) every payment
    succeeds, and with a success rate that is not above 0 (zero, negative
    or NaN) every payment fails, whatever the row and the seed. *)
Theorem createPayment_rate_extremes this amb input :
  (Js.le (Js.of_Z 1) (successRate this) = true ->
   success (snd (createPayment this amb input)) = true)
  /\ (Js.lt (Js.of_Z 0) (successRate this) = false ->
      success (snd (createPayment this amb input)) = false).
Proof.
  rewrite createPayment_success. unfold seededRandom.
  assert (Hm : 0 <= seededRandom_milli this (payment_key input) < 1000)
    by apply seededRandom_milli_range.
  split; intros H.
  - apply lt_fraction_of_one; [exact Hm|exact H].
  - apply lt_fraction_of_nonpositive; [lia|exact H].
Qed.
End AdapterRates.

(** ** processPaymentRow: what the result says, calls and waits *)

Section RetryResult.
Import PaymentsAdapter Worker Spec Props.

Variable adapter : Adapter.
Variable row : Row.t.
Variable maxRetries : Z.

Lemma first_success (a : Z) (n : nat) :
  (forall j, a < j <= a + Z.of_nat n ->
             succeeds (adapter (Row.normalized row) j) = false)
  \/ exists k, a < k <= a + Z.of_nat n
               /\ succeeds (adapter (Row.normalized row) k) = true
               /\ forall j, a < j < k ->
                            succeeds (adapter (Row.normalized row) j) = false.
Proof.
  induction n as [|n IH].
  - left. intros j Hj. lia.
  - destruct IH as [IH|(k & Hk & Hs & Hb)].
    + destruct (succeeds (adapter (Row.normalized row) (a + Z.of_nat n + 1))) eqn:E.
      * right. exists (a + Z.of_nat n + 1). split; [lia|]. split; [exact E|].
        intros j Hj. apply IH. lia.
      * left. intros j Hj.
        destruct (Z.eq_dec j (a + Z.of_nat n + 1)) as [->|Hne]; [exact E|].
        apply IH. lia.
    + right. exists k. split; [lia|]. split; [exact Hs|exact Hb].
Qed.

Lemma final_message_nonempty lastError : final_message lastError <> "".
Proof.
  unfold final_message. destruct lastError as [m|]; [|discriminate].
  destruct (String.eqb m "") eqn:E; [discriminate|].
  apply String.eqb_neq. exact E.
Qed.

(** Either no attempt succeeds, or attempt [k] is the first that does. *)
Lemma processPaymentRow_cases r tr :
  1 <= maxRetries ->
  processPaymentRow adapter row maxRetries = Some (r, tr) ->
  ((forall j, 1 <= j <= maxRetries ->
              succeeds (adapter (Row.normalized row) j) = false)
   /\ r = {| r_success := false; r_providerResponse := None;
             r_errorMessage :=
               Some (final_message
                       (Some (failure_message
                                (adapter (Row.normalized row) maxRetries))));
             r_attempts := maxRetries |}
   /\ tr = failing_trace maxRetries (Z.to_nat maxRetries) 0)
  \/ exists k result,
       1 <= k <= maxRetries
       /\ (forall j, 1 <= j < k ->
                     succeeds (adapter (Row.normalized row) j) = false)
       /\ adapter (Row.normalized row) k = Resolves result
       /\ success result = true
       /\ r = {| r_success := true; r_providerResponse := rawResponse result;
                 r_errorMessage := None; r_attempts := k |}
       /\ tr = failing_trace maxRetries (Z.to_nat (k - 1)) 0 ++ [Call k].
Proof.
  intros Hpos. unfold processPaymentRow.
  destruct (first_success 0 (Z.to_nat maxRetries)) as [Hfail|(k & Hk & Hs & Hb)].
  - rewrite (retry_loop_all_fail adapter row maxRetries (Z.to_nat maxRetries));
      [|lia|lia|intros; apply Hfail; lia].
    intros [= <- <-]. left. split; [intros; apply Hfail; lia|]. split; reflexivity.
  - destruct (adapter (Row.normalized row) k) as [result|message] eqn:Ea;
      simpl in Hs; [|discriminate].
    rewrite (retry_loop_until_success adapter row maxRetries (Z.to_nat (k - 1))
               (Z.to_nat maxRetries) 0 None [] k result);
      [|lia|lia|lia|intros; apply Hb; lia|exact Ea|exact Hs].
    intros [= <- <-]. right. exists k, result.
    split; [lia|]. split; [intros; apply Hb; lia|]. auto.
Qed.

(** X8. The result of [processPaymentRow] says what the adapter did, for
    every adapter and every [maxRetries >= 1]: all the attempts before the
    last one failed; a success has no error message, and its response is
    the response of the call that succeeded, which is the last attempt; a
    failure has used all the [maxRetries] attempts, has no response and
    has an error message that is never empty. *)
Theorem processPaymentRow_result_sound r tr :
  1 <= maxRetries ->
  processPaymentRow adapter row maxRetries = Some (r, tr) ->
  (forall j, 1 <= j < r_attempts r ->
             succeeds (adapter (Row.normalized row) j) = false)
  /\ if r_success r then
       r_errorMessage r = None
       /\ exists result,
            adapter (Row.normalized row) (r_attempts r) = Resolves result
            /\ success result = true
            /\ r_providerResponse r = rawResponse result
     else
       r_attempts r = maxRetries
       /\ succeeds (adapter (Row.normalized row) maxRetries) = false
       /\ r_providerResponse r = None
       /\ exists m, r_errorMessage r = Some m /\ m <> "".
Proof.
  intros Hpos Hr.
  destruct (processPaymentRow_cases r tr Hpos Hr)
    as [(Hfail & -> & _)|(k & result & Hk & Hb & Ha & Hs & -> & _)];
    cbn [r_success r_attempts r_errorMessage r_providerResponse].
  - split; [intros; apply Hfail; lia|]. split; [reflexivity|].
    split; [apply Hfail; lia|]. split; [reflexivity|].
    eexists. split; [reflexivity|]. apply final_message_nonempty.
  - split; [exact Hb|]. split; [reflexivity|]. exists result. auto.
Qed.

Lemma calls_app t1 t2 : calls (t1 ++ t2) = calls t1 ++ calls t2.
Proof. unfold calls. apply omap_app. Qed.

Lemma total_sleep_app t1 t2 : total_sleep (t1 ++ t2) = total_sleep t1 + total_sleep t2.
Proof.
  unfold total_sleep. induction t1 as [|e t1 IH]; simpl; [reflexivity|].
  rewrite IH. destruct e; lia.
Qed.

Lemma calls_failing_trace n : forall a,
  calls (failing_trace maxRetries n a) = map (fun i => a + Z.of_nat i) (seq 1 n).
Proof.
  induction n as [|n IH]; intros a; [reflexivity|].
  cbn [failing_trace]. change (Call (a + 1) :: ?l) with ([Call (a + 1)] ++ l).
  rewrite !calls_app, IH.
  assert (Hs : calls (if a + 1 <? maxRetries
                      then [Sleep (1000 * 2 ^ (a + 1 - 1))] else []) = []).
  { destruct (a + 1 <? maxRetries); reflexivity. }
  rewrite Hs. cbn [calls omap app seq map]. f_equal.
  rewrite <- (seq_shift n 1), map_map. apply map_ext. intros i. lia.
Qed.

Lemma total_sleep_failing_trace n : forall a,
  0 <= a -> a + Z.of_nat (S n) <= maxRetries ->
  total_sleep (failing_trace maxRetries (S n) a)
  = 1000 * (2 ^ Z.min (a + Z.of_nat (S n)) (maxRetries - 1) - 2 ^ a).
Proof.
  induction n as [|n IH]; intros a Ha Hn.
  - cbn [failing_trace]. rewrite app_nil_r.
    destruct (a + 1 <? maxRetries) eqn:E.
    + apply Z.ltb_lt in E. rewrite Z.min_l by lia.
      replace (a + Z.of_nat 1) with (a + 1) by lia.
      rewrite Z.pow_add_r by lia. cbn [total_sleep foldr].
      replace (a + 1 - 1) with a by lia. lia.
    + apply Z.ltb_ge in E. rewrite Z.min_r by lia.
      replace (maxRetries - 1) with a by lia. cbn. lia.
  - change (failing_trace maxRetries (S (S n)) a)
      with (Call (a + 1)
            :: ((if a + 1 <? maxRetries then [Sleep (1000 * 2 ^ (a + 1 - 1))] else [])
                ++ failing_trace maxRetries (S n) (a + 1))).
    assert (E : (a + 1 <? maxRetries) = true) by (apply Z.ltb_lt; lia).
    rewrite E. change (Call (a + 1) :: ([Sleep ?d] ++ ?l)) with ([Call (a + 1); Sleep d] ++ l).
    rewrite total_sleep_app, IH by lia.
    replace (a + 1 + Z.of_nat (S n)) with (a + Z.of_nat (S (S n))) by lia.
    cbn [total_sleep foldr]. replace (a + 1 - 1) with a by lia.
    rewrite (Z.pow_add_r 2 a 1) by lia. lia.
Qed.

Lemma last_failing_trace n : forall a,
  a + Z.of_nat (S n) = maxRetries ->
  last (failing_trace maxRetries (S n) a) = Some (Call maxRetries).
Proof.
  induction n as [|n IH]; intros a Ha.
  - cbn [failing_trace].
    assert (E : (a + 1 <? maxRetries) = false) by (apply Z.ltb_ge; lia).
    rewrite E. cbn. f_equal. f_equal. lia.
  - change (failing_trace maxRetries (S (S n)) a)
      with ((Call (a + 1)
             :: (if a + 1 <? maxRetries then [Sleep (1000 * 2 ^ (a + 1 - 1))] else []))
            ++ failing_trace maxRetries (S n) (a + 1)).
    rewrite last_app, IH by lia. reflexivity.
Qed.

(** X9. The calls and the waits of [processPaymentRow], for every adapter
    and every [maxRetries >= 1]: the adapter is called for the attempts
    1, 2, ..., [attempts] in this order and for no other; the last event is
    the last call, so that nothing is waited after it; the waits add up to
    [1000 * (2 ^ (attempts - 1) - 1)] milliseconds, which is at most
    [1000 * (2 ^ (maxRetries - 1) - 1)]. *)
Theorem processPaymentRow_backoff r tr :
  1 <= maxRetries ->
  processPaymentRow adapter row maxRetries = Some (r, tr) ->
  calls tr = map Z.of_nat (seq 1 (Z.to_nat (r_attempts r)))
  /\ last tr = Some (Call (r_attempts r))
  /\ total_sleep tr = 1000 * (2 ^ (r_attempts r - 1) - 1)
  /\ total_sleep tr <= 1000 * (2 ^ (maxRetries - 1) - 1).
Proof.
  intros Hpos Hr.
  assert (Hmono : forall k, 1 <= k <= maxRetries ->
            1000 * (2 ^ (k - 1) - 1) <= 1000 * (2 ^ (maxRetries - 1) - 1)).
  { intros k Hk. assert (2 ^ (k - 1) <= 2 ^ (maxRetries - 1))
      by (apply Z.pow_le_mono_r; lia). lia. }
  destruct (processPaymentRow_cases r tr Hpos Hr)
    as [(_ & -> & ->)|(k & result & Hk & _ & _ & _ & -> & ->)]; cbn [r_attempts].
  - destruct (Z.to_nat maxRetries) as [|n] eqn:En; [lia|].
    assert (Hsleep : total_sleep (failing_trace maxRetries (S n) 0)
                     = 1000 * (2 ^ (maxRetries - 1) - 1)).
    { rewrite total_sleep_failing_trace by lia. rewrite Z.min_r by lia. reflexivity. }
    split; [|split; [|split]].
    + rewrite calls_failing_trace. apply map_ext. intros i. lia.
    + apply last_failing_trace. lia.
    + exact Hsleep.
    + rewrite Hsleep. lia.
  - assert (Hsleep : total_sleep (failing_trace maxRetries (Z.to_nat (k - 1)) 0 ++ [Call k])
                     = 1000 * (2 ^ (k - 1) - 1)).
    { rewrite total_sleep_app. cbn [total_sleep foldr].
      destruct (Z.to_nat (k - 1)) as [|n] eqn:En.
      - replace (k - 1) with 0 by lia. reflexivity.
      - fold (total_sleep (failing_trace maxRetries (S n) 0)).
        rewrite total_sleep_failing_trace by lia. rewrite Z.min_l by lia.
        replace (0 + Z.of_nat (S n)) with (k - 1) by lia. lia. }
    split; [|split; [|split]].
    + rewrite calls_app, calls_failing_trace. change (calls [Call k]) with [k].
      replace (Z.to_nat k) with (Z.to_nat (k - 1) + 1)%nat by lia.
      rewrite seq_app, map_app. cbn [seq map].
      rewrite (map_ext (fun i => 0 + Z.of_nat i) Z.of_nat) by (intros; lia).
      do 2 f_equal. lia.
    + apply last_snoc.
    + exact Hsleep.
    + rewrite Hsleep. apply Hmono. lia.
Qed.
End RetryResult.

Lemma processPaymentRow_result_sound_witness :
  exists r tr,
    Worker.processPaymentRow Examples.succeeds_at_third (Sample.sample_row "row-0" 0) 3
    = Some (r, tr)
    /\ Worker.r_success r = true
    /\ Worker.r_attempts r = 3
    /\ Worker.r_errorMessage r = None
    /\ Spec.succeeds (Examples.succeeds_at_third
                   (Row.normalized (Sample.sample_row "row-0" 0)) 2) = false.
Proof.
  destruct (Worker.processPaymentRow Examples.succeeds_at_third
              (Sample.sample_row "row-0" 0) 3) as [[r tr]|] eqn:E;
    [|vm_compute in E; discriminate].
  pose proof (processPaymentRow_result_sound Examples.succeeds_at_third
                (Sample.sample_row "row-0" 0) 3 r tr ltac:(lia) E) as [Hbefore Hcase].
  exists r, tr. split; [reflexivity|].
  vm_compute in E. injection E as <- <-.
  cbn [Worker.r_success Worker.r_attempts Worker.r_errorMessage] in Hbefore, Hcase |- *.
  destruct Hcase as [Hmsg _].
  split; [reflexivity|]. split; [reflexivity|]. split; [exact Hmsg|].
  apply Hbefore. lia.
Defined.


Lemma processPaymentRow_backoff_witness :
  exists r tr,
    Worker.processPaymentRow (Sample.declines (Some "Invalid account"))
      (Sample.sample_row "row-0" 0) 3 = Some (r, tr)
    /\ Props.calls tr = [1; 2; 3]
    /\ last tr = Some (Worker.Call 3)
    /\ Props.total_sleep tr = 3000.
Proof.
  destruct (Worker.processPaymentRow (Sample.declines (Some "Invalid account"))
              (Sample.sample_row "row-0" 0) 3) as [[r tr]|] eqn:E;
    [|vm_compute in E; discriminate].
  pose proof (processPaymentRow_backoff (Sample.declines (Some "Invalid account"))
                (Sample.sample_row "row-0" 0) 3 r tr ltac:(lia) E)
    as (Hcalls & Hlast & Hsleep & _).
  exists r, tr. split; [reflexivity|].
  vm_compute in E. injection E as <- <-.
  split; [exact Hcalls|]. split; [exact Hlast|exact Hsleep].
Defined.

(** ** The job handler: what it changes, what it leaves in every row *)

Section Frame.
Import PaymentsAdapter Prisma Worker Spec Props.

Variable cfg : Config.
Variable adapter : Adapter.
Variable jobId : string.

Lemma frame_refl db : frame jobId db db.
Proof.
  split; [reflexivity|]. split; [reflexivity|].
  apply Forall2_same_length_lookup. split; [reflexivity|].
  intros i x y Hx Hy. rewrite Hx in Hy. injection Hy as <-. auto.
Qed.

Lemma frame_trans db1 db2 db3 :
  frame jobId db1 db2 -> frame jobId db2 db3 -> frame jobId db1 db3.
Proof.
  intros (Ha1 & Hb1 & Hc1) (Ha2 & Hb2 & Hc2).
  split; [intros j Hj; rewrite Ha2, Ha1 by exact Hj; reflexivity|].
  split; [congruence|].
  apply Forall2_same_length_lookup. split.
  - rewrite (Forall2_length _ _ _ Hc1). exact (Forall2_length _ _ _ Hc2).
  - intros i x z Hx Hz.
    destruct (Forall2_lookup_l _ _ _ _ _ Hc1 Hx) as (y & Hy & Hk1 & Hf1).
    destruct (Forall2_lookup_l _ _ _ _ _ Hc2 Hy) as (z' & Hz' & Hk2 & Hf2).
    rewrite Hz in Hz'. injection Hz' as <-.
    split; [congruence|]. intros Hj.
    rewrite (Hf2 ltac:(rewrite (Hf1 Hj); exact Hj)). exact (Hf1 Hj).
Qed.

Lemma frame_update_job db f :
  (forall j, job_key (f j) = job_key j) ->
  frame jobId db (update_job db jobId f).
Proof.
  intros Hf. unfold update_job. split; [|split]; simpl.
  - intros j Hj. apply lookup_alter_ne. congruence.
  - rewrite lookup_alter_eq. destruct (bulkPayrollJob db !! jobId); simpl; [|reflexivity].
    rewrite Hf. reflexivity.
  - apply (frame_refl db).
Qed.

Lemma frame_update_row db rid f :
  (forall r, row_key (f r) = row_key r) ->
  (forall r, In r (bulkPayrollRow db) -> Row.id r = rid -> Row.jobId r = jobId) ->
  frame jobId db (update_row db rid f).
Proof.
  intros Hf Hown. unfold update_row. split; [reflexivity|]. split; [reflexivity|].
  simpl. apply Forall2_fmap_r. apply Forall2_same_length_lookup.
  split; [reflexivity|]. intros i x y Hx Hy. rewrite Hx in Hy. injection Hy as <-.
  unfold compose. cbv beta. destruct (String.eqb (Row.id x) rid) eqn:E.
  - apply String.eqb_eq in E. split; [apply Hf|]. intros Hj. exfalso. apply Hj.
    apply Hown; [|exact E]. apply list_elem_of_In. eapply list_elem_of_lookup_2. exact Hx.
  - auto.
Qed.

Lemma retry_loop_normalized fuel r1 r2 maxRetries :
  Row.normalized r1 = Row.normalized r2 ->
  forall attempts lastError trace,
    retry_loop fuel adapter r1 maxRetries attempts lastError trace
    = retry_loop fuel adapter r2 maxRetries attempts lastError trace.
Proof.
  intros Hn. induction fuel as [|fuel IH]; intros attempts lastError trace;
    [reflexivity|].
  simpl. rewrite Hn. destruct (attempts <? maxRetries); [|reflexivity].
  destruct (adapter (Row.normalized r2) (attempts + 1)) as [result|message].
  - destruct (success result); [reflexivity|apply IH].
  - apply IH.
Qed.

Lemma row_result_normalized r1 r2 maxRetries :
  Row.normalized r1 = Row.normalized r2 ->
  row_result adapter maxRetries r1 = row_result adapter maxRetries r2.
Proof.
  intros Hn. unfold row_result, processPaymentRow.
  rewrite (retry_loop_normalized _ r1 r2 maxRetries Hn). reflexivity.
Qed.

Lemma retry_loop_result fuel row maxRetries :
  forall attempts lastError trace r tr,
    retry_loop fuel adapter row maxRetries attempts lastError trace = Some (r, tr) ->
    if r_success r then r_errorMessage r = None
    else r_providerResponse r = None
         /\ exists m, r_errorMessage r = Some m /\ m <> "".
Proof.
  induction fuel as [|fuel IH]; intros attempts lastError trace r tr; simpl.
  - destruct (attempts <? maxRetries); [discriminate|].
    intros [= <- <-]. simpl. split; [reflexivity|]. eexists. split; [reflexivity|].
    unfold final_message. destruct lastError as [m|]; [|discriminate].
    destruct (String.eqb m "") eqn:E; [discriminate|apply String.eqb_neq; exact E].
  - destruct (attempts <? maxRetries).
    + destruct (adapter (Row.normalized row) (attempts + 1)) as [result|message].
      * destruct (success result); [|apply IH].
        intros [= <- <-]. reflexivity.
      * apply IH.
    + intros [= <- <-]. simpl. split; [reflexivity|]. eexists. split; [reflexivity|].
      unfold final_message. destruct lastError as [m|]; [|discriminate].
      destruct (String.eqb m "") eqn:E; [discriminate|apply String.eqb_neq; exact E].
Qed.

Lemma processPaymentRow_returns row maxRetries :
  exists v tr, processPaymentRow adapter row maxRetries = Some (v, tr).
Proof.
  unfold processPaymentRow.
  destruct (Z_lt_dec 0 maxRetries) as [Hpos|Hneg].
  - destruct (retry_loop_total adapter row maxRetries (Z.to_nat maxRetries) 0 None [])
      as (r & tr & Hr & _); [lia|lia|eauto].
  - rewrite retry_loop_exit by lia. eauto.
Qed.

Lemma row_result_failure row maxRetries :
  r_success (row_result adapter maxRetries row) = false ->
  exists m, r_errorMessage (row_result adapter maxRetries row) = Some m /\ m <> "".
Proof.
  unfold row_result.
  destruct (processPaymentRow_returns row maxRetries) as (v & tr & Hv).
  rewrite Hv. intros Hs. apply retry_loop_result in Hv. rewrite Hs in Hv.
  apply Hv.
Qed.

(** *** The handler on a database whose rows have distinct ids *)

Variable db0 : Db.
Hypothesis ids_distinct : List.NoDup (map Row.id (bulkPayrollRow db0)).

Lemma NoDup_ids_eq (l : list Row.t) r1 r2 :
  List.NoDup (map Row.id l) -> In r1 l -> In r2 l -> Row.id r1 = Row.id r2 -> r1 = r2.
Proof.
  induction l as [|h l IH]; intros Hnd H1 H2 Hid; [destruct H1|].
  simpl in Hnd. apply List.NoDup_cons_iff in Hnd as [Hnotin Hnd].
  destruct H1 as [<-|H1], H2 as [<-|H2].
  - reflexivity.
  - exfalso. apply Hnotin. rewrite Hid. apply in_map. exact H2.
  - exfalso. apply Hnotin. rewrite <- Hid. apply in_map. exact H1.
  - apply IH; assumption.
Qed.

(** A row of the table with the id of a row of the job is that row, up to
    its outcome. *)
Lemma frame_owner db row r :
  frame jobId db0 db ->
  In row (bulkPayrollRow db0) -> Row.jobId row = jobId ->
  In r (bulkPayrollRow db) -> Row.id r = Row.id row ->
  row_key r = row_key row.
Proof.
  intros (_ & _ & Hrows) Hrow Hjob Hr Hid.
  apply list_elem_of_In, list_elem_of_lookup in Hr as [i Hi].
  destruct (Forall2_lookup_r _ _ _ _ _ Hrows Hi) as (r0 & Hr0 & Hkey & _).
  assert (r0 = row) as <-; [|exact Hkey].
  apply (NoDup_ids_eq (bulkPayrollRow db0)); [exact ids_distinct| |exact Hrow|].
  - apply list_elem_of_In. eapply list_elem_of_lookup_2. exact Hr0.
  - rewrite <- Hid. unfold row_key in Hkey. congruence.
Qed.

Lemma record_result_frame db c row s :
  frame jobId db0 db ->
  In row (bulkPayrollRow db0) -> Row.jobId row = jobId ->
  frame jobId db0 (fst (record_result cfg (db, c) (row, s))).
Proof.
  intros Hf Hrow Hjob. eapply frame_trans; [exact Hf|].
  assert (Hown : forall r, In r (bulkPayrollRow db) -> Row.id r = Row.id row ->
                           Row.jobId r = jobId).
  { intros r Hr Hid. pose proof (frame_owner db row r Hf Hrow Hjob Hr Hid) as Hk.
    unfold row_key in Hk. congruence. }
  destruct s as [value|reason]; cbn [record_result fst];
    (apply frame_update_row; [reflexivity|exact Hown]).
Qed.

Lemma foldl_record_result_frame items : forall db c,
  frame jobId db0 db ->
  (forall item, In item items ->
                In (fst item) (bulkPayrollRow db0) /\ Row.jobId (fst item) = jobId) ->
  frame jobId db0 (fst (foldl (record_result cfg) (db, c) items)).
Proof.
  induction items as [|[row s] items IH]; intros db c Hf Hitems; [exact Hf|].
  cbn [foldl]. destruct (record_result cfg (db, c) (row, s)) as [db1 c1] eqn:E.
  apply IH.
  - replace db1 with (fst (record_result cfg (db, c) (row, s))) by (rewrite E; reflexivity).
    destruct (Hitems (row, s) (or_introl eq_refl)) as [H1 H2].
    apply record_result_frame; assumption.
  - intros item Hitem. apply Hitems. right. exact Hitem.
Qed.

Lemma In_slice {A} (l : list A) a b x : In x (slice l a b) -> In x l.
Proof.
  unfold slice. intros H. apply list_elem_of_In in H. apply list_elem_of_In.
  apply (subseteq_drop (Z.to_nat (relative_index (Z.of_nat (List.length l)) a)) l).
  eapply subseteq_take. exact H.
Qed.

Lemma process_batch_frame rows i c db db' c' :
  (forall r, In r rows -> In r (bulkPayrollRow db0) /\ Row.jobId r = jobId) ->
  frame jobId db0 db ->
  process_batch cfg adapter jobId rows i c db = Some (db', c') ->
  frame jobId db0 db'.
Proof.
  intros Hrows Hf. unfold process_batch.
  destruct (settle_all cfg adapter _) as [results|]; [|discriminate].
  destruct (foldl _ _ _) as [db1 c1] eqn:E. intros [= <- <-].
  eapply frame_trans; [|apply frame_update_job; reflexivity].
  replace db1 with (fst (foldl (record_result cfg) (db, c)
                           (zip (slice rows i (i + BATCH_SIZE cfg)) results)))
    by (rewrite E; reflexivity).
  apply foldl_record_result_frame; [exact Hf|].
  intros [row s] Hitem. apply Hrows. simpl.
  apply list_elem_of_In in Hitem. apply elem_of_zip_l in Hitem.
  apply list_elem_of_In in Hitem. eapply In_slice. exact Hitem.
Qed.

Lemma batch_loop_frame rows fuel : forall i c db persisted db' c' persisted',
  (forall r, In r rows -> In r (bulkPayrollRow db0) /\ Row.jobId r = jobId) ->
  frame jobId db0 db ->
  batch_loop fuel cfg adapter jobId rows i c db persisted = Some (db', c', persisted') ->
  frame jobId db0 db'.
Proof.
  induction fuel as [|fuel IH]; intros i c db persisted db' c' persisted' Hrows Hf;
    simpl; destruct (i <? Z.of_nat (List.length rows)); try discriminate;
    try (intros [= <- <- <-]; exact Hf).
  destruct (process_batch cfg adapter jobId rows i c db) as [[db1 c1]|] eqn:E;
    [|discriminate].
  apply IH; [exact Hrows|]. eapply process_batch_frame; eassumption.
Qed.

Lemma record_result_settled processed db c row :
  frame jobId db0 db ->
  processed_settled cfg adapter processed db ->
  In row (bulkPayrollRow db0) -> Row.jobId row = jobId ->
  processed_settled cfg adapter (processed ++ [row])
    (fst (record_result cfg (db, c)
            (row, Fulfilled (row_result adapter (MAX_RETRIES cfg) row)))).
Proof.
  intros Hf Hdone Hrow Hjob x Hx (p & Hp & Hid).
  cbn [record_result fst update_row bulkPayrollRow] in Hx.
  apply in_map_iff in Hx as (y & Hy & Hin).
  destruct (String.eqb (Row.id y) (Row.id row)) eqn:E.
  - apply String.eqb_eq in E.
    pose proof (frame_owner db row y Hf Hrow Hjob Hin E) as Hk.
    assert (Hn : Row.normalized x = Row.normalized row).
    { subst x. unfold row_key in Hk. simpl. congruence. }
    unfold settled. rewrite (row_result_normalized x row _ Hn).
    subst x. cbn [Row.status Row.attempts Row.errorMessage Row.providerResponse].
    split; [reflexivity|]. split; [reflexivity|]. split.
    + intros Hs. destruct (row_result_failure row _ Hs) as (m & -> & _). reflexivity.
    + intros q ->. reflexivity.
  - subst x. apply Hdone; [exact Hin|]. exists p. split; [|exact Hid].
    apply in_app_iff in Hp as [Hp|[<-|[]]]; [exact Hp|].
    apply String.eqb_neq in E. congruence.
Qed.

Lemma record_rows_settled batch : forall processed db c,
  (forall r, In r batch -> In r (bulkPayrollRow db0) /\ Row.jobId r = jobId) ->
  frame jobId db0 db ->
  processed_settled cfg adapter processed db ->
  frame jobId db0 (fst (record_rows cfg adapter batch (db, c)))
  /\ processed_settled cfg adapter (processed ++ batch)
       (fst (record_rows cfg adapter batch (db, c))).
Proof.
  induction batch as [|row batch IH]; intros processed db c Hbatch Hf Hdone.
  - rewrite app_nil_r. split; assumption.
  - destruct (Hbatch row (or_introl eq_refl)) as [Hrow Hjob].
    unfold record_rows. cbn [foldl].
    pose proof (record_result_frame db c row
                  (Fulfilled (row_result adapter (MAX_RETRIES cfg) row)) Hf Hrow Hjob) as Hf1.
    pose proof (record_result_settled processed db c row Hf Hdone Hrow Hjob) as Hd1.
    destruct (record_result cfg (db, c) _) as [db1 c1]. cbn [fst] in Hf1, Hd1.
    replace (processed ++ row :: batch) with ((processed ++ [row]) ++ batch)
      by (rewrite <- app_assoc; reflexivity).
    apply (IH (processed ++ [row]) db1 c1); [|exact Hf1|exact Hd1].
    intros r Hr. apply Hbatch. right. exact Hr.
Qed.

Lemma processed_settled_update_job processed db f :
  processed_settled cfg adapter processed db ->
  processed_settled cfg adapter processed (update_job db jobId f).
Proof. intros H. exact H. Qed.

Lemma batch_loop_settled rows : forall fuel i c db persisted,
  1 <= BATCH_SIZE cfg ->
  0 <= i ->
  (Z.to_nat (Z.of_nat (List.length rows) - i) <= fuel)%nat ->
  (forall r, In r rows -> In r (bulkPayrollRow db0) /\ Row.jobId r = jobId) ->
  frame jobId db0 db ->
  processed_settled cfg adapter (take (Z.to_nat i) rows) db ->
  exists db' c' persisted',
    batch_loop fuel cfg adapter jobId rows i c db persisted
    = Some (db', c', persisted')
    /\ frame jobId db0 db'
    /\ processed_settled cfg adapter rows db'.
Proof.
  intros fuel. induction fuel as [|fuel IH];
    intros i c db persisted Hb Hi Hfuel Hrows Hf Hdone.
  - simpl. destruct (i <? Z.of_nat (List.length rows)) eqn:E; [lia|].
    exists db, c, persisted. split; [reflexivity|]. split; [exact Hf|].
    rewrite take_ge in Hdone by lia. exact Hdone.
  - simpl. destruct (i <? Z.of_nat (List.length rows)) eqn:E.
    + rewrite process_batch_rows by lia. cbv zeta.
      set (batch := take (Z.to_nat (BATCH_SIZE cfg)) (drop (Z.to_nat i) rows)).
      destruct (record_rows_settled batch (take (Z.to_nat i) rows) db c)
        as [Hf1 Hd1]; [|exact Hf|exact Hdone|].
      { intros r Hr. apply Hrows. apply list_elem_of_In.
        apply (subseteq_drop (Z.to_nat i) rows).
        eapply subseteq_take. apply list_elem_of_In. exact Hr. }
      destruct (record_rows cfg adapter batch (db, c)) as [db1 c1]. cbn [fst snd] in *.
      apply IH; [lia|lia|lia|exact Hrows| |].
      * eapply frame_trans; [exact Hf1|]. apply frame_update_job. reflexivity.
      * apply processed_settled_update_job.
        replace (Z.to_nat (i + BATCH_SIZE cfg))
          with (Z.to_nat i + Z.to_nat (BATCH_SIZE cfg))%nat by lia.
        rewrite <- take_take_drop. exact Hd1.
    + exists db, c, persisted. split; [reflexivity|]. split; [exact Hf|].
      rewrite take_ge in Hdone by lia. exact Hdone.
Qed.

Lemma jobHandler_invariants t_start t_end job :
  1 <= BATCH_SIZE cfg ->
  bulkPayrollJob db0 !! jobId = Some job ->
  exists db' result persisted,
    jobHandler cfg adapter t_start t_end jobId db0 = Some (db', result, persisted)
    /\ frame jobId db0 db'
    /\ forall x, In x (bulkPayrollRow db') -> Row.jobId x = jobId ->
                 settled cfg adapter x.
Proof.
  intros Hb Hjob. unfold jobHandler, findUnique_with_rows. rewrite Hjob.
  set (rows := filter (fun r => Row.jobId r = jobId) (bulkPayrollRow db0)).
  assert (Hrows : forall r, In r rows -> In r (bulkPayrollRow db0) /\ Row.jobId r = jobId).
  { intros r Hr. apply list_elem_of_In, list_elem_of_filter in Hr as [Hj Hr].
    split; [apply list_elem_of_In; exact Hr|exact Hj]. }
  destruct (batch_loop_settled rows (List.length rows) 0
              {| processedCount := 0; successCount := 0; failedCount := 0 |}
              (update_job db0 jobId (processing t_start)) [])
    as (db2 & c & persisted & Hloop & Hf & Hdone);
    [exact Hb|lia|lia|exact Hrows|apply frame_update_job; reflexivity| |].
  { intros x _ (p & Hp & _). destruct Hp. }
  rewrite Hloop. eexists _, _, _. split; [reflexivity|]. split.
  - eapply frame_trans; [exact Hf|]. apply frame_update_job. reflexivity.
  - intros x Hx Hj. apply (Hdone x Hx).
    destruct Hf as (_ & _ & Hall).
    apply list_elem_of_In, list_elem_of_lookup in Hx as [i Hi].
    destruct (Forall2_lookup_r _ _ _ _ _ Hall Hi) as (x0 & Hx0 & Hkey & _).
    exists x0. unfold row_key in Hkey. split; [|congruence].
    apply list_elem_of_In, list_elem_of_filter. split; [congruence|].
    eapply list_elem_of_lookup_2. exact Hx0.
Qed.
End Frame.

(** X10. The handler of a job changes nothing but that job: run on a
    database whose rows have distinct ids, with a batch size of at least
    1, it returns, and then every other job is as it was, the columns of
    the job that are fixed at its creation (id, uploader, [totalRows],
    [validRows], [invalidRows]) are as they were, the table of rows has
    the same rows in the same order with the same id, job, index, payment
    and [maxRetries], and the rows of other jobs are as they were. *)
Theorem jobHandler_changes_only_its_job
    (cfg : Worker.Config) (adapter : Worker.Adapter) (t_start t_end : Z)
    (jobId : string) (db : Prisma.Db) (job : Job.t) :
  1 <= Worker.BATCH_SIZE cfg ->
  Prisma.bulkPayrollJob db !! jobId = Some job ->
  List.NoDup (map Row.id (Prisma.bulkPayrollRow db)) ->
  exists db' result persisted job',
    Worker.jobHandler cfg adapter t_start t_end jobId db
    = Some (db', result, persisted)
    /\ (forall j, j <> jobId ->
                  Prisma.bulkPayrollJob db' !! j = Prisma.bulkPayrollJob db !! j)
    /\ Prisma.bulkPayrollJob db' !! jobId = Some job'
    /\ Props.job_key job' = Props.job_key job
    /\ Forall2 (fun r r' => Props.row_key r' = Props.row_key r
                            /\ (Row.jobId r <> jobId -> r' = r))
         (Prisma.bulkPayrollRow db) (Prisma.bulkPayrollRow db').
Proof.
  intros Hb Hjob Hnd.
  destruct (jobHandler_invariants cfg adapter jobId db Hnd t_start t_end job Hb Hjob)
    as (db' & result & persisted & Hrun & (Hothers & Hkey & Hrows) & _).
  rewrite Hjob in Hkey.
  destruct (Prisma.bulkPayrollJob db' !! jobId) as [job'|] eqn:Hjob';
    [|discriminate].
  exists db', result, persisted, job'. simpl in Hkey.
  split; [exact Hrun|]. split; [exact Hothers|]. split; [exact Hjob'|].
  split; [congruence|exact Hrows].
Qed.

Lemma jobHandler_changes_only_its_job_witness :
  exists db' result persisted job',
    Worker.jobHandler Sample.sample_config (Sample.declines (Some "Invalid account"))
      100 200 "job-1" (Sample.sample_db Job.QUEUED)
    = Some (db', result, persisted)
    /\ Prisma.bulkPayrollJob db' !! "job-1" = Some job'
    /\ Job.validRows job' = 2
    /\ map Row.id (Prisma.bulkPayrollRow db') = ["row-0"; "row-1"].
Proof.
  assert (Hnd : List.NoDup
                  (map Row.id (Prisma.bulkPayrollRow (Sample.sample_db Job.QUEUED)))).
  { apply NoDup_ListNoDup. apply (bool_decide_unpack _). vm_compute. exact I. }
  destruct (jobHandler_changes_only_its_job Sample.sample_config
              (Sample.declines (Some "Invalid account")) 100 200 "job-1"
              (Sample.sample_db Job.QUEUED) (Sample.sample_job Job.QUEUED)
              ltac:(simpl; lia) eq_refl Hnd)
    as (db' & result & persisted & job' & Hrun & _ & Hjob & Hkey & Hrows).
  exists db', result, persisted, job'.
  split; [exact Hrun|]. split; [exact Hjob|]. split.
  - unfold Props.job_key in Hkey. injection Hkey as _ _ _ Hv _. exact Hv.
  - vm_compute in Hrun. injection Hrun as <- _ _. reflexivity.
Defined.

(** X11. After the handler has returned, every row of the job carries the
    outcome that [processPaymentRow] gives for its payment: SUCCESS or
    FAILED accordingly, the count of attempts of that outcome, for a
    failure its error message, for a success with a response that
    response.  This holds whatever the statuses of the rows were before
    (rows are processed whether PENDING or not), for a batch size of at
    least 1 and rows with distinct ids. *)
Theorem jobHandler_settles_every_row
    (cfg : Worker.Config) (adapter : Worker.Adapter) (t_start t_end : Z)
    (jobId : string) (db : Prisma.Db) (job : Job.t) :
  1 <= Worker.BATCH_SIZE cfg ->
  Prisma.bulkPayrollJob db !! jobId = Some job ->
  List.NoDup (map Row.id (Prisma.bulkPayrollRow db)) ->
  exists db' result persisted,
    Worker.jobHandler cfg adapter t_start t_end jobId db
    = Some (db', result, persisted)
    /\ List.length (Prisma.bulkPayrollRow db')
       = List.length (Prisma.bulkPayrollRow db)
    /\ forall x, In x (Prisma.bulkPayrollRow db') -> Row.jobId x = jobId ->
                 Props.settled cfg adapter x.
Proof.
  intros Hb Hjob Hnd.
  destruct (jobHandler_invariants cfg adapter jobId db Hnd t_start t_end job Hb Hjob)
    as (db' & result & persisted & Hrun & (_ & _ & Hrows) & Hsettled).
  exists db', result, persisted. split; [exact Hrun|]. split; [|exact Hsettled].
  symmetry. exact (Forall2_length _ _ _ Hrows).
Qed.

Lemma jobHandler_settles_every_row_witness :
  exists db' result persisted,
    Worker.jobHandler Sample.sample_config (Sample.declines (Some "Invalid account"))
      100 200 "job-1" (Sample.sample_db Job.QUEUED)
    = Some (db', result, persisted)
    /\ forall x, In x (Prisma.bulkPayrollRow db') -> Row.jobId x = "job-1" ->
                 Row.status x = Row.FAILED /\ Row.attempts x = 3
                 /\ Row.errorMessage x = Some "Invalid account".
Proof.
  assert (Hnd : List.NoDup
                  (map Row.id (Prisma.bulkPayrollRow (Sample.sample_db Job.QUEUED)))).
  { apply NoDup_ListNoDup. apply (bool_decide_unpack _). vm_compute. exact I. }
  destruct (jobHandler_settles_every_row Sample.sample_config
              (Sample.declines (Some "Invalid account")) 100 200 "job-1"
              (Sample.sample_db Job.QUEUED) (Sample.sample_job Job.QUEUED)
              ltac:(simpl; lia) eq_refl Hnd)
    as (db' & result & persisted & Hrun & _ & Hsettled).
  exists db', result, persisted. split; [exact Hrun|].
  intros x Hx Hj. destruct (Hsettled x Hx Hj) as (Hst & Hat & Hmsg & _).
  split; [exact Hst|]. split; [exact Hat|]. apply Hmsg. reflexivity.
Defined.

(** ** Cancel requests, and a batch size that is not positive *)

Section Withdrawn.
Import Prisma Worker CancelRoute System Spec Props.

Variable cfg : Config.
Variable adapter : Adapter.
Variable redis : bool.
Variable jobId : string.

Lemma POST_refused user db queue :
  (forall job, bulkPayrollJob db !! jobId = Some job ->
               user <> Some (Job.uploaderId job)
               \/ cancellable (Job.status job) = false) ->
  exists response, POST redis user jobId db queue = (response, db, queue)
                   /\ response <> Ok jobId Job.CANCELLED.
Proof.
  intros H. unfold POST. destruct user as [userId|]; [|eexists; split; [reflexivity|discriminate]].
  destruct (bulkPayrollJob db !! jobId) as [job|] eqn:Hjob;
    [|eexists; split; [reflexivity|discriminate]].
  destruct (String.eqb (Job.uploaderId job) userId) eqn:E; simpl;
    [|eexists; split; [reflexivity|discriminate]].
  apply String.eqb_eq in E. destruct (H job eq_refl) as [Hne|Hc]; [congruence|].
  destruct (Job.status job); simpl in Hc; try discriminate;
    eexists; (split; [reflexivity|discriminate]).
Qed.

Lemma withdrawn_step rows l s s' :
  withdrawn jobId rows s ->
  step cfg adapter redis jobId l s = Some s' ->
  withdrawn jobId rows s'.
Proof.
  intros (Hst & Hq & Hw & Hrows). unfold step. rewrite Hw, Hq.
  destruct l as [now| |now|now|user]; try discriminate.
  rewrite <- Hq.
  destruct (POST_refused user (db s) (queue s)) as (response & HP & _).
  { intros job Hjob. right. unfold job_status in Hst. rewrite Hjob in Hst.
    injection Hst as ->. reflexivity. }
  rewrite HP. intros [= <-]. unfold withdrawn, job_status. simpl. auto.
Qed.

End Withdrawn.



(** The same holds of the requests that run beside the worker, their steps
    interleaved with its steps: a job that is withdrawn while no request
    is in flight stays so, and no request gets in flight. *)
Lemma withdrawn_under_interleaving cfg adapter redis jobId rows ls : forall s s',
  Props.withdrawn jobId rows (Concurrent.sys s) ->
  Concurrent.inflight s = [] ->
  Concurrent.run cfg adapter redis jobId ls s = Some s' ->
  Props.withdrawn jobId rows (Concurrent.sys s') /\ Concurrent.inflight s' = [].
Proof.
  induction ls as [|l ls IH]; intros s s' Hw Hfl; simpl.
  - intros [= <-]. auto.
  - destruct (Concurrent.step cfg adapter redis jobId l s) as [s1|] eqn:E;
      [|discriminate].
    assert (H1 : Props.withdrawn jobId rows (Concurrent.sys s1)
                 /\ Concurrent.inflight s1 = []).
    { destruct l as [l0|user|k|k|k]; cbn [Concurrent.step] in E;
        try (rewrite Hfl in E; discriminate).
      - destruct (System.step _ _ _ _ _ _) as [s2|] eqn:E2; [|discriminate].
        injection E as <-. split; [|exact Hfl].
        eapply withdrawn_step; eassumption.
      - destruct (CancelRoute.read _ _ _) as [resp|status] eqn:Hr;
          [injection E as <-; auto|].
        apply read_inr in Hr as [Hc Hst]. destruct Hw as (Hs & _).
        unfold System.job_status in Hs. rewrite Hs in Hst.
        injection Hst as <-. discriminate. }
    destruct H1 as [Hw1 Hfl1]. apply (IH s1 s' Hw1 Hfl1).
Qed.

Section CancelByOthers.
Import Prisma CancelRoute System.

Lemma POST_by_another_user redis user jobId db queue :
  (forall job, bulkPayrollJob db !! jobId = Some job ->
               user <> Some (Job.uploaderId job)) ->
  POST redis user jobId db queue
  = (match user with
     | None => Error "UNAUTHORIZED" 401
     | Some _ => Error "NOT_FOUND" 404
     end, db, queue).
Proof.
  intros H. unfold POST. destruct user as [userId|]; [|reflexivity].
  destruct (bulkPayrollJob db !! jobId) as [job|] eqn:Hjob; [|reflexivity].
  destruct (String.eqb (Job.uploaderId job) userId) eqn:E; [|reflexivity].
  apply String.eqb_eq in E. exfalso. apply (H job eq_refl). congruence.
Qed.

(** X13. Cancel requests of anyone but the uploader of the job change
    nothing, whatever the status of the job: neither the database nor the
    queue nor the worker.  The answer is 401 without a user and 404 with
    one, the same for a job of another user as for a job that does not
    exist. *)
Theorem cancel_requests_of_other_users_change_nothing
    cfg adapter redis jobId (users : list (option string)) s :
  (forall user job, In user users ->
     bulkPayrollJob (db s) !! jobId = Some job -> user <> Some (Job.uploaderId job)) ->
  run cfg adapter redis jobId (map CancelRequest users) s = Some s
  /\ forall user, In user users ->
       fst (fst (POST redis user jobId (db s) (queue s)))
       = match user with
         | None => Error "UNAUTHORIZED" 401
         | Some _ => Error "NOT_FOUND" 404
         end.
Proof.
  intros H. split.
  - induction users as [|user users IH]; [reflexivity|].
    cbn [map run]. unfold step.
    assert (Hc : match CancelRequest user, worker s with
                 | CancelRequest u, w =>
                     let '(_, db', queue') := POST redis u jobId (db s) (queue s) in
                     Some {| db := db'; queue := queue'; worker := w |}
                 | _, _ => None
                 end = Some s).
    { rewrite POST_by_another_user
        by (intros job Hjob; apply (H user job); [left; reflexivity|exact Hjob]).
      destruct s; reflexivity. }
    destruct (worker s); cbn in Hc |- *; rewrite Hc;
      apply IH; intros u job Hu; apply H; right; exact Hu.
  - intros user Hu. rewrite POST_by_another_user; [reflexivity|].
    intros job Hjob. apply (H user job Hu Hjob).
Qed.
End CancelByOthers.

Lemma cancel_requests_of_other_users_change_nothing_witness :
  let s := {| System.db := Sample.sample_db Job.PROCESSING; System.queue := [];
              System.worker := System.Idle |} in
  System.run Sample.sample_config (Sample.declines None) true "job-1"
    (map System.CancelRequest [Some "user-2"; None]) s = Some s.
Proof.
  intros s.
  apply (cancel_requests_of_other_users_change_nothing Sample.sample_config
           (Sample.declines None) true "job-1" [Some "user-2"; None] s).
  intros user job [<-|[<-|[]]] Hjob; [|discriminate].
  vm_compute in Hjob. injection Hjob as <-. discriminate.
Defined.

Section ZeroBatch.
Import Prisma Worker.

Lemma batch_loop_never_ends cfg adapter jobId rows fuel :
  BATCH_SIZE cfg <= 0 -> rows <> [] ->
  forall i c db persisted,
    i <= 0 -> batch_loop fuel cfg adapter jobId rows i c db persisted = None.
Proof.
  intros Hb Hrows. induction fuel as [|fuel IH]; intros i c db persisted Hi; simpl.
  - destruct (i <? Z.of_nat (List.length rows)) eqn:E; [reflexivity|].
    destruct rows; [contradiction|apply Z.ltb_ge in E; cbn [List.length] in E; lia].
  - destruct (i <? Z.of_nat (List.length rows)) eqn:E.
    + destruct (process_batch cfg adapter jobId rows i c db) as [[db' c']|];
        [|reflexivity].
      apply IH. lia.
    + destruct rows; [contradiction|apply Z.ltb_ge in E; cbn [List.length] in E; lia].
Qed.

(** X22. With a batch size that is not positive ([BATCH_SIZE=0] in the
    environment, say) the handler never returns for a job that has rows:
    the loop over the batches does not end whatever the number of its
    iterations, since its index never passes the number of rows, and the
    write of COMPLETED is never reached. *)
Theorem nonpositive_batch_size_never_completes
    cfg adapter redis t_start t_end jobId db job r :
  BATCH_SIZE cfg <= 0 ->
  bulkPayrollJob db !! jobId = Some job ->
  In r (bulkPayrollRow db) -> Row.jobId r = jobId ->
  (forall fuel c db1 persisted,
     batch_loop fuel cfg adapter jobId
       (filter (fun x => Row.jobId x = jobId) (bulkPayrollRow db)) 0 c db1 persisted
     = None)
  /\ jobHandler cfg adapter t_start t_end jobId db = None
  /\ forall rows i c db1 queue now,
       i <= 0 -> rows <> [] ->
       System.step cfg adapter redis jobId (System.WorkerComplete now)
         {| System.db := db1; System.queue := queue;
            System.worker := System.Running rows i c |} = None.
Proof.
  intros Hb Hjob Hr Hj.
  assert (Hrows : filter (fun x => Row.jobId x = jobId) (bulkPayrollRow db) <> []).
  { intros E. assert (Hin : r ∈ filter (fun x => Row.jobId x = jobId) (bulkPayrollRow db)).
    { apply list_elem_of_filter. split; [exact Hj|apply list_elem_of_In; exact Hr]. }
    rewrite E in Hin. inversion Hin. }
  split; [|split].
  - intros fuel c db1 persisted. apply batch_loop_never_ends; [exact Hb|exact Hrows|lia].
  - unfold jobHandler, findUnique_with_rows. rewrite Hjob.
    rewrite batch_loop_never_ends; [reflexivity|exact Hb|exact Hrows|lia].
  - intros rows i c db1 queue now Hi Hne. unfold System.step. cbn [System.worker].
    destruct (i <? Z.of_nat (List.length rows)) eqn:E; [reflexivity|].
    destruct rows; [contradiction|apply Z.ltb_ge in E; cbn [List.length] in E; lia].
Qed.
End ZeroBatch.


Lemma nonpositive_batch_size_never_completes_witness :
  Worker.jobHandler {| Worker.BATCH_SIZE := 0; Worker.MAX_RETRIES := 3 |}
    (Sample.declines None) 100 200 "job-1" (Sample.sample_db Job.QUEUED) = None.
Proof.
  apply (nonpositive_batch_size_never_completes
           {| Worker.BATCH_SIZE := 0; Worker.MAX_RETRIES := 3 |}
           (Sample.declines None) true 100 200 "job-1" (Sample.sample_db Job.QUEUED)
           (Sample.sample_job Job.QUEUED) (Sample.sample_row "row-0" 0)
           ltac:(simpl; lia) eq_refl (or_introl eq_refl) eq_refl).
Defined.

(** ** The list of jobs *)

Section Pagination.
Import JobsRoute.

End Pagination.



(** ** The schemas: what acceptance means *)

Section Acceptance.
Import Validation Spec.

Variable env : Env.

Lemma append_assoc (a b c : string) : (a +:+ b) +:+ c = a +:+ (b +:+ c).
Proof.
  induction a as [|x a IH]; [reflexivity|].
  change (String x ((a +:+ b) +:+ c) = String x (a +:+ (b +:+ c))).
  rewrite IH. reflexivity.
Qed.

Lemma upper_char_idem c : Js.toUpperCase (Js.upper_char c) = Js.upper_char c.
Proof. destruct c as [[] [] [] [] [] [] [] []]; reflexivity. Qed.

Lemma toUpperCase_app a b :
  Js.toUpperCase (a +:+ b) = Js.toUpperCase a +:+ Js.toUpperCase b.
Proof.
  induction a as [|c a IH]; [reflexivity|].
  change (String c a +:+ b) with (String c (a +:+ b)).
  cbn [Js.toUpperCase]. rewrite IH. symmetry. apply append_assoc.
Qed.

Lemma toUpperCase_idem s : Js.toUpperCase (Js.toUpperCase s) = Js.toUpperCase s.
Proof.
  induction s as [|c s IH]; [reflexivity|].
  cbn [Js.toUpperCase]. rewrite toUpperCase_app, upper_char_idem, IH. reflexivity.
Qed.

Lemma includes_In l s : includes l s = true <-> In s l.
Proof.
  unfold includes. rewrite existsb_exists. split.
  - intros (x & Hx & E). apply String.eqb_eq in E. subst. exact Hx.
  - intros H. exists s. split; [exact H|apply String.eqb_refl].
Qed.

Lemma PaymentRowSchema_Success c d :
  PaymentRowSchema env c = Success d ->
  d = parsed_data (parse_fields env c)
  /\ field_issues (parse_fields env c) = []
  /\ cross_field (parsed_data (parse_fields env c)) = [].
Proof.
  unfold PaymentRowSchema. cbv zeta.
  destruct (any_aborted (parse_fields env c)); [discriminate|].
  destruct (field_issues (parse_fields env c) ++ cross_field _) eqn:E; [|discriminate].
  intros [= <-]. apply app_eq_nil in E as [E1 E2]. auto.
Qed.

(** An optional text that passes both schemas: null, or a text that
    passes the checks of the second schema; a missing value has become the
    empty text. *)
Lemma optional_field_accepted field checks v :
  issues_of (raw_optional_string field v) = [] ->
  issues_of (optional_nullable_string field checks
               (value_of VUndefined (raw_optional_string field v))) = [] ->
  let o := value_of OUndefined
             (optional_nullable_string field checks
                (value_of VUndefined (raw_optional_string field v))) in
  (o = ONull /\ v = VNull)
  \/ exists s, o = OStr s /\ checks s = []
               /\ (v = VStr s \/ (v = VUndefined /\ s = "")).
Proof.
  destruct v as [| |s|n|b| |]; simpl; try discriminate; intros _.
  - rewrite issues_of_checked. intros H. right. exists "".
    rewrite H. simpl. auto.
  - intros _. left. auto.
  - rewrite issues_of_checked. intros H. right. exists s.
    rewrite H. simpl. auto.
Qed.

Lemma amount_accepted v :
  issues_of (raw_amount v) = [] ->
  issues_of (schema_amount (value_of VUndefined (raw_amount v))) = [] ->
  let n := value_of Js.NaN (schema_amount (value_of VUndefined (raw_amount v))) in
  parsed_amount v = Some n /\ amount_checks n = [].
Proof.
  destruct v as [| |s|n|b| |]; simpl; try discriminate.
  - destruct (Js.isNaN (Js.Number s)) eqn:E; simpl; [discriminate|]. intros _.
    destruct (Js.Number s) as [|neg|neg m e] eqn:En; simpl in *; [discriminate| |];
      rewrite issues_of_checked; intros H; rewrite H; simpl; auto.
  - destruct n as [|neg|neg m e]; simpl; [discriminate| |]; intros _;
      rewrite issues_of_checked; intros H; rewrite H; simpl; auto.
Qed.

Lemma currency_accepted v :
  issues_of (raw_string "currency" (fun val => Js.toUpperCase (Js.trim val)) v) = [] ->
  issues_of (schema_currency
               (value_of VUndefined
                  (raw_string "currency" (fun val => Js.toUpperCase (Js.trim val)) v)))
  = [] ->
  let code := value_of ""
                (schema_currency
                   (value_of VUndefined
                      (raw_string "currency" (fun val => Js.toUpperCase (Js.trim val)) v))) in
  exists s, v = VStr s /\ code = Js.toUpperCase (Js.trim s)
            /\ Js.len code = 3 /\ In code ISO4217_CURRENCIES.
Proof.
  destruct v as [| |s|n|b| |]; simpl; try discriminate. intros _.
  rewrite issues_of_checked. unfold currency_checks. intros H.
  apply app_eq_nil in H as [H1 H2]. apply check_nil in H1, H2.
  rewrite H1 in H2 |- *. rewrite toUpperCase_idem in H2 |- *.
  exists s. split; [reflexivity|].
  assert (Hv : forall l, value_of "" (checked (Js.toUpperCase (Js.trim s)) l)
                         = Js.toUpperCase (Js.trim s)) by (intros []; reflexivity).
  rewrite Hv. split; [reflexivity|]. split; [apply Z.eqb_eq; exact H1|].
  change (In (Js.toUpperCase (Js.trim s)) ISO4217_CURRENCIES).
  apply includes_In. exact H2.
Qed.

Lemma pay_date_accepted v :
  issues_of (raw_string "pay_date" Js.trim v) = [] ->
  issues_of (schema_pay_date env (value_of VUndefined (raw_string "pay_date" Js.trim v)))
  = [] ->
  let date := value_of ""
                (schema_pay_date env
                   (value_of VUndefined (raw_string "pay_date" Js.trim v))) in
  exists s, v = VStr s /\ date = Js.trim s
            /\ pay_date_regex date = true /\ pay_date_window (clock env) date = true.
Proof.
  destruct v as [| |s|n|b| |]; simpl; try discriminate. intros _.
  rewrite issues_of_checked. unfold pay_date_checks. intros H.
  rewrite H. simpl. apply app_eq_nil in H as [H1 H2]. apply check_nil in H1, H2.
  rewrite H1 in H2. exists s. auto.
Qed.

(** What an accepted row satisfies, field by field. *)
Lemma accepted_fields c d :
  RawPaymentRowSchema env c = Success d ->
  truthy (or_else (employee_id d) (employee_email d)) = true
  /\ ((employee_id d = ONull /\ in_employee_id c = VNull)
      \/ exists s, employee_id d = OStr s /\ employee_id_regex s = true
                   /\ (in_employee_id c = VStr s
                       \/ (in_employee_id c = VUndefined /\ s = "")))
  /\ ((employee_email d = ONull /\ in_employee_email c = VNull)
      \/ exists s, employee_email d = OStr s /\ is_email env s = true
                   /\ (in_employee_email c = VStr s
                       \/ (in_employee_email c = VUndefined /\ s = "")))
  /\ (parsed_amount (in_amount c) = Some (amount d) /\ amount_checks (amount d) = [])
  /\ (exists s, in_currency c = VStr s /\ currency d = Js.toUpperCase (Js.trim s)
                /\ Js.len (currency d) = 3 /\ In (currency d) ISO4217_CURRENCIES)
  /\ (exists s, in_pay_date c = VStr s /\ pay_date d = Js.trim s
                /\ pay_date_regex (pay_date d) = true
                /\ pay_date_window (clock env) (pay_date d) = true)
  /\ ((description d = ONull /\ in_description c = VNull)
      \/ exists s, description d = OStr s /\ Js.len s <= 255
                   /\ (in_description c = VStr s
                       \/ (in_description c = VUndefined /\ s = ""))).
Proof.
  unfold RawPaymentRowSchema. destruct (coercion_issues c) eqn:Hc; [|discriminate].
  intros Hd. apply PaymentRowSchema_Success in Hd as (-> & Hfi & Hcf).
  unfold coercion_issues in Hc. unfold field_issues in Hfi.
  cbn [parse_fields coerced p_employee_id p_employee_email p_amount p_currency
    p_pay_date p_description p_external_reference in_employee_id in_employee_email
    in_amount in_currency in_pay_date in_description in_external_reference] in Hfi.
  split_nil.
  cbn [parsed_data parse_fields coerced p_employee_id p_employee_email p_amount
    p_currency p_pay_date p_description p_external_reference in_employee_id
    in_employee_email in_amount in_currency in_pay_date in_description
    in_external_reference employee_id employee_email amount currency pay_date
    description external_reference].
  split.
  { unfold cross_field in Hcf.
    cbn [parsed_data parse_fields coerced p_employee_id p_employee_email
      in_employee_id in_employee_email employee_id employee_email] in Hcf.
    destruct (truthy _); [reflexivity|discriminate]. }
  split.
  { unfold schema_employee_id in *.
    match goal with
    | H1 : issues_of (raw_optional_string "employee_id" _) = [],
      H2 : issues_of (optional_nullable_string "employee_id" _ _) = [] |- _ =>
        destruct (optional_field_accepted _ _ _ H1 H2) as [?|(s & ? & Hk & ?)]
    end; [left; assumption|].
    right. exists s. apply check_nil in Hk. auto. }
  split.
  { unfold schema_employee_email in *.
    match goal with
    | H1 : issues_of (raw_optional_string "employee_email" _) = [],
      H2 : issues_of (optional_nullable_string "employee_email" _ _) = [] |- _ =>
        destruct (optional_field_accepted _ _ _ H1 H2) as [?|(s & ? & Hk & ?)]
    end; [left; assumption|].
    right. exists s. apply check_nil in Hk. auto. }
  split.
  { match goal with
    | H1 : issues_of (raw_amount _) = [],
      H2 : issues_of (schema_amount _) = [] |- _ =>
        exact (amount_accepted _ H1 H2)
    end. }
  split.
  { match goal with
    | H1 : issues_of (raw_string "currency" _ _) = [],
      H2 : issues_of (schema_currency _) = [] |- _ =>
        exact (currency_accepted _ H1 H2)
    end. }
  split.
  { match goal with
    | H1 : issues_of (raw_string "pay_date" _ _) = [],
      H2 : issues_of (schema_pay_date _ _) = [] |- _ =>
        exact (pay_date_accepted _ H1 H2)
    end. }
  unfold schema_description in *.
  match goal with
  | H1 : issues_of (raw_optional_string "description" _) = [],
    H2 : issues_of (optional_nullable_string "description" _ _) = [] |- _ =>
      destruct (optional_field_accepted _ _ _ H1 H2) as [?|(s & ? & Hk & ?)]
  end; [left; assumption|].
  right. exists s. apply check_nil in Hk. apply Z.leb_le in Hk. auto.
Qed.

(** X14. What every row accepted by [RawPaymentRowSchema] satisfies: one
    of the two identifiers is a text that is not empty; the employee id,
    when a text, matches its pattern; the e-mail address is null or a text
    that passes the e-mail test (it is never left undefined); the amount
    is the number that the input reads as, above 0, at most 1000000, with
    at most two decimals; the currency is the text of the input trimmed
    and in upper case and is one of the codes of the list; the date is the
    text of the input trimmed, has the form YYYY-MM-DD and lies in the
    window; a description has at most 255 characters. *)
Theorem accepted_row_satisfies_rules c d :
  RawPaymentRowSchema env c = Success d ->
  truthy (or_else (employee_id d) (employee_email d)) = true
  /\ (forall s, employee_id d = OStr s -> employee_id_regex s = true)
  /\ (forall s, employee_email d = OStr s -> is_email env s = true)
  /\ employee_email d <> OUndefined
  /\ parsed_amount (in_amount c) = Some (amount d)
  /\ Js.lt (Js.of_Z 0) (amount d) = true
  /\ Js.le (amount d) (Js.of_Z 1000000) = true
  /\ at_most_two_decimals (amount d) = true
  /\ (exists s, in_currency c = VStr s /\ currency d = Js.toUpperCase (Js.trim s))
  /\ In (currency d) ISO4217_CURRENCIES
  /\ (exists s, in_pay_date c = VStr s /\ pay_date d = Js.trim s)
  /\ pay_date_regex (pay_date d) = true
  /\ pay_date_window (clock env) (pay_date d) = true
  /\ (forall s, description d = OStr s -> Js.len s <= 255).
Proof.
  intros H. destruct (accepted_fields c d H)
    as (Hid & Hemp & Hmail & (Hpa & Hchecks) & (cs & Hc1 & Hc2 & _ & Hc3)
        & (ps & Hp1 & Hp2 & Hp3 & Hp4) & Hdesc).
  apply amount_checks_nil in Hchecks as (Ha1 & Ha2 & Ha3).
  split; [exact Hid|]. split.
  { intros s Hs. destruct Hemp as [[He _]|(s' & He & Hr & _)]; congruence. }
  split.
  { intros s Hs. destruct Hmail as [[He _]|(s' & He & Hr & _)]; congruence. }
  split.
  { destruct Hmail as [[He _]|(s' & He & _)]; congruence. }
  split; [exact Hpa|]. split; [exact Ha1|]. split; [exact Ha2|]. split; [exact Ha3|].
  split; [exists cs; auto|]. split; [exact Hc3|].
  split; [exists ps; auto|]. split; [exact Hp3|]. split; [exact Hp4|].
  intros s Hs. destruct Hdesc as [[He _]|(s' & He & Hl & _)]; congruence.
Qed.

Lemma email_required c :
  is_email env "" = false ->
  in_employee_email c = VUndefined \/ in_employee_email c = VStr "" ->
  accepted (RawPaymentRowSchema env c) = false.
Proof.
  intros Hempty Hin.
  destruct (RawPaymentRowSchema env c) as [d|l] eqn:E; [|reflexivity].
  exfalso. destruct (accepted_fields c d E) as (_ & _ & Hmail & _).
  destruct Hmail as [[_ Hn]|(s & _ & Hs & [Hv|[_ ->]])].
  - destruct Hin; congruence.
  - assert (s = "") as -> by (destruct Hin; congruence). congruence.
  - congruence.
Qed.

(** X15. Through [RawPaymentRowSchema] a row needs an e-mail address: a
    row whose e-mail address is missing or empty is rejected even when its
    employee id is valid, as soon as the e-mail test rejects the empty
    text (the first schema turns the missing value into the empty text,
    which the second schema then checks as an address); when the
    coercion passes, the errors include [Invalid email] on
    [employee_email]. *)
Theorem row_without_email_rejected c :
  is_email env "" = false ->
  in_employee_email c = VUndefined \/ in_employee_email c = VStr "" ->
  accepted (RawPaymentRowSchema env c) = false
  /\ exists i, In i (issues (RawPaymentRowSchema env c))
               /\ (coercion_issues c = [] ->
                   i = {| path := Some "employee_email"; message := "Invalid email" |}).
Proof.
  intros Hempty Hin. split; [apply email_required; assumption|].
  unfold RawPaymentRowSchema. destruct (coercion_issues c) as [|i0 l0] eqn:Hc.
  - exists {| path := Some "employee_email"; message := "Invalid email" |}.
    split; [|reflexivity].
    assert (Hco : in_employee_email (coerced c) = VStr "").
    { unfold coerced. cbn [in_employee_email]. destruct Hin as [-> | ->]; reflexivity. }
    unfold PaymentRowSchema. cbv zeta.
    assert (Hm : In {| path := Some "employee_email"; message := "Invalid email" |}
                   (field_issues (parse_fields env (coerced c)))).
    { unfold field_issues. apply in_or_app. right. apply in_or_app. left.
      cbn [parse_fields p_employee_email]. rewrite Hco.
      unfold schema_employee_email. cbn [optional_nullable_string].
      rewrite issues_of_checked. unfold check. rewrite Hempty. left. reflexivity. }
    destruct (any_aborted _); [exact Hm|].
    destruct (field_issues (parse_fields env (coerced c)) ++ cross_field _) eqn:E.
    + apply app_eq_nil in E as [E _]. rewrite E in Hm. destruct Hm.
    + cbn [issues]. rewrite <- E. apply in_or_app. left. exact Hm.
  - exists i0. split; [left; reflexivity|discriminate].
Qed.
End Acceptance.

Lemma accepted_row_satisfies_rules_witness :
  let c := Sample.sample_candidate Validation.VUndefined
             (Validation.VStr "jane.doe@example.com") "1500.00" " 2025-11-01 " in
  exists d,
    Validation.RawPaymentRowSchema (Sample.sample_env 0) c = Validation.Success d
    /\ Validation.currency d = "USD"
    /\ Validation.pay_date d = "2025-11-01"
    /\ In (Validation.currency d) Validation.ISO4217_CURRENCIES.
Proof.
  intros c.
  destruct (Validation.RawPaymentRowSchema (Sample.sample_env 0) c) as [d|l] eqn:E;
    [|vm_compute in E; discriminate].
  destruct (accepted_row_satisfies_rules (Sample.sample_env 0) c d E)
    as (_ & _ & _ & _ & _ & _ & _ & _ & (cs & Hc1 & Hc2) & Hiso
        & (ps & Hp1 & Hp2) & _).
  exists d. split; [reflexivity|].
  injection Hc1 as <-. injection Hp1 as <-.
  split; [exact Hc2|]. split; [exact Hp2|exact Hiso].
Defined.

Lemma row_without_email_rejected_witness :
  let c := Sample.sample_candidate (Validation.VStr "EMP001") Validation.VUndefined
             "1500.00" "2025-11-01" in
  Spec.accepted (Validation.RawPaymentRowSchema (Sample.sample_env 0) c) = false.
Proof.
  intros c.
  exact (proj1 (row_without_email_rejected (Sample.sample_env 0) c eq_refl
                  (or_introl eq_refl))).
Defined.

(** ** validatePayrollRows: columns that are not mapped, keys *)

Section Unmapped.
Import Validation CsvParser Spec.

Variable env : Env.
Variable columnMapping : ColumnMapping.

Lemma validate_loop_all_invalid rows : forall i st,
  (forall r, In r rows -> accepted (parse_row env columnMapping r) = false) ->
  let st' := validate_loop env columnMapping rows i st in
  st_validRows st' = st_validRows st
  /\ st_duplicates st' = st_duplicates st
  /\ map inv_rowIndex (st_invalidRows st')
     = map inv_rowIndex (st_invalidRows st) ++ seq i (List.length rows).
Proof.
  induction rows as [|r rows IH]; intros i st Hall; simpl.
  - rewrite app_nil_r. auto.
  - assert (Hr := Hall r (or_introl eq_refl)).
    unfold validate_row. unfold parse_row in Hr.
    destruct (RawPaymentRowSchema env (mappedRow columnMapping r)) as [d|l];
      [discriminate|].
    destruct (IH (S i)
                {| st_validRows := st_validRows st;
                   st_invalidRows :=
                     st_invalidRows st
                     ++ [{| inv_rowIndex := i; inv_data := r;
                            inv_errors := map (issue_error i) l |}];
                   st_duplicates := st_duplicates st;
                   seenPayments := seenPayments st |})
      as (H1 & H2 & H3); [intros r' Hr'; apply Hall; right; exact Hr'|].
    cbn [st_validRows st_invalidRows st_duplicates] in H1, H2, H3.
    split; [exact H1|]. split; [exact H2|].
    rewrite H3, map_app, <- app_assoc. reflexivity.
Qed.

Lemma coercion_rejects c :
  coercion_issues c <> [] -> accepted (RawPaymentRowSchema env c) = false.
Proof.
  unfold RawPaymentRowSchema. destruct (coercion_issues c); [contradiction|reflexivity].
Qed.

Lemma unmapped_rejects r :
  map_amount columnMapping = None
  \/ map_currency columnMapping = None
  \/ map_pay_date columnMapping = None
  \/ (map_employee_email columnMapping = None /\ is_email env "" = false) ->
  accepted (parse_row env columnMapping r) = false.
Proof.
  unfold parse_row. intros [H|[H|[H|[H He]]]].
  - apply coercion_rejects. unfold coercion_issues, mappedRow. cbn [in_amount].
    rewrite H. cbn [mapped_field raw_amount issues_of].
    intros E. split_nil. discriminate.
  - apply coercion_rejects. unfold coercion_issues, mappedRow. cbn [in_currency].
    rewrite H. cbn [mapped_field raw_string issues_of].
    intros E. split_nil. discriminate.
  - apply coercion_rejects. unfold coercion_issues, mappedRow. cbn [in_pay_date].
    rewrite H. cbn [mapped_field raw_string issues_of].
    intros E. split_nil. discriminate.
  - apply email_required; [exact He|]. left. unfold mappedRow. cbn [in_employee_email].
    rewrite H. reflexivity.
Qed.

Lemma all_rows_invalid rows :
  map_amount columnMapping = None
  \/ map_currency columnMapping = None
  \/ map_pay_date columnMapping = None
  \/ (map_employee_email columnMapping = None /\ is_email env "" = false) ->
  let out := validatePayrollRows env rows columnMapping in
  validRows out = []
  /\ duplicates out = []
  /\ map inv_rowIndex (invalidRows out) = seq 0 (List.length rows).
Proof.
  intros H out. subst out. unfold validatePayrollRows.
  cbn [validRows duplicates invalidRows].
  destruct (validate_loop_all_invalid rows 0%nat
              {| st_validRows := []; st_invalidRows := []; st_duplicates := [];
                 seenPayments := ∅ |})
    as (H1 & H2 & H3); [intros r _; apply unmapped_rejects; exact H|].
  auto.
Qed.

(** X16. When the mapping has no column for the amount, for the currency
    or for the date, or has none for the e-mail address while the e-mail
    test rejects the empty text, [validatePayrollRows] accepts no row:
    [validRows] and [duplicates] are empty and [invalidRows] holds every
    row of the input, in order. *)
Theorem unmapped_column_rejects_every_row rows :
  map_amount columnMapping = None
  \/ map_currency columnMapping = None
  \/ map_pay_date columnMapping = None
  \/ (map_employee_email columnMapping = None /\ is_email env "" = false) ->
  let out := validatePayrollRows env rows columnMapping in
  validRows out = []
  /\ duplicates out = []
  /\ map inv_rowIndex (invalidRows out) = seq 0 (List.length rows).
Proof. apply all_rows_invalid. Qed.
End Unmapped.

Lemma unmapped_column_rejects_every_row_witness :
  let rows : list (gmap string Validation.value) :=
    [ {[ "employee_id" := Validation.VStr "EMP001";
         "amount" := Validation.VStr "1500.00";
         "currency" := Validation.VStr "USD";
         "pay_date" := Validation.VStr "2025-11-01" ]} ] in
  let out := CsvParser.validatePayrollRows (Sample.sample_env 0) rows
               Examples.mapping_without_email in
  CsvParser.validRows out = []
  /\ map CsvParser.inv_rowIndex (CsvParser.invalidRows out) = [0%nat].
Proof.
  intros rows out.
  destruct (unmapped_column_rejects_every_row (Sample.sample_env 0)
              Examples.mapping_without_email rows
              (or_intror (or_intror (or_intror (conj eq_refl eq_refl)))))
    as (H1 & _ & H3).
  split; [exact H1|exact H3].
Defined.

Section Keys.
Import Validation CsvParser Spec Props.

Lemma no_colon_app a b : no_colon (a +:+ b) = no_colon a && no_colon b.
Proof. apply forall_chars_app. Qed.

(** A text is split at its last colon in one way only. *)
Lemma colon_split a1 : forall a2 b1 b2,
  no_colon b1 = true -> no_colon b2 = true ->
  a1 +:+ String ":" b1 = a2 +:+ String ":" b2 ->
  a1 = a2 /\ b1 = b2.
Proof.
  assert (Hc : forall a b, no_colon (a +:+ String ":" b) = false).
  { intros a b. rewrite no_colon_app. cbn. apply Bool.andb_false_r. }
  induction a1 as [|c a1 IH]; intros [|c2 a2] b1 b2 H1 H2 H.
  - change (String ":" b1 = String ":" b2) in H. injection H as H. auto.
  - change (String ":" b1 = String c2 (a2 +:+ String ":" b2)) in H.
    injection H as _ H. rewrite H, Hc in H1. discriminate.
  - change (String c (a1 +:+ String ":" b1) = String ":" b2) in H.
    injection H as _ H. rewrite <- H, Hc in H2. discriminate.
  - change (String c (a1 +:+ String ":" b1) = String c2 (a2 +:+ String ":" b2)) in H.
    injection H as <- H. destruct (IH a2 b1 b2 H1 H2 H) as [-> ->]. auto.
Qed.

Lemma forall_chars_impl (p q : ascii -> bool) s :
  (forall c, p c = true -> q c = true) ->
  Js.forall_chars p s = true -> Js.forall_chars q s = true.
Proof.
  intros Hpq. induction s as [|c s IH]; simpl; [reflexivity|].
  intros H. apply andb_prop in H as [Hc Hs]. rewrite (Hpq c Hc), (IH Hs). reflexivity.
Qed.

Lemma digit_not_colon c : Js.is_digit c = true -> negb (Ascii.eqb c ":") = true.
Proof. destruct c as [[] [] [] [] [] [] [] []]; (discriminate || reflexivity). Qed.

Lemma span_spec p s : forall a b,
  Js.span p s = (a, b) -> s = a +:+ b /\ Js.forall_chars p a = true.
Proof.
  induction s as [|c s IH]; intros a b; simpl.
  - intros [= <- <-]. auto.
  - destruct (p c) eqn:E.
    + destruct (Js.span p s) as [a' b'] eqn:Es. intros [= <- <-].
      destruct (IH a' b' eq_refl) as [-> Ha]. simpl. rewrite E. auto.
    + intros [= <- <-]. auto.
Qed.

Lemma amount_regex_no_colon s : amount_regex s = true -> no_colon s = true.
Proof.
  unfold amount_regex. destruct (Js.span Js.is_digit s) as [ip r] eqn:E.
  apply span_spec in E as [-> Hip].
  assert (Hd : forall t, Js.forall_chars Js.is_digit t = true -> no_colon t = true).
  { intros t. apply forall_chars_impl. exact digit_not_colon. }
  destruct ip as [|c ip]; [discriminate|].
  destruct r as [|x f].
  - intros _. rewrite no_colon_app, (Hd _ Hip). reflexivity.
  - destruct (Ascii.eqb x ".") eqn:Ex.
    + apply Ascii.eqb_eq in Ex. subst x. intros H.
      apply andb_prop in H as [H _]. apply andb_prop in H as [H _].
      rewrite no_colon_app, (Hd _ Hip).
      change (no_colon (String "." f)) with (no_colon f). apply Hd. exact H.
    + destruct x as [[] [] [] [] [] [] [] []]; try discriminate.
Qed.

Lemma pay_date_regex_no_colon s : pay_date_regex s = true -> no_colon s = true.
Proof.
  unfold pay_date_regex.
  destruct s as [|y1 [|y2 [|y3 [|y4 [|h1 [|m1 [|m2 [|h2 [|d1 [|d2 [|x s]]]]]]]]]]];
    try discriminate;
    destruct h1 as [[] [] [] [] [] [] [] []]; try discriminate;
    destruct h2 as [[] [] [] [] [] [] [] []]; try discriminate.
  cbn [Js.forall_chars].
  intros H. repeat (apply andb_prop in H as [?Hc H]).
  unfold no_colon. cbn [Js.forall_chars].
  repeat match goal with
         | Hd : Js.is_digit ?c = true |- _ => rewrite (digit_not_colon c Hd); clear Hd
         end.
  reflexivity.
Qed.

Lemma accepted_key_parts env c d :
  RawPaymentRowSchema env c = Success d ->
  no_colon (Js.toString (amount d)) = true /\ no_colon (pay_date d) = true.
Proof.
  intros H. destruct (accepted_fields env c d H)
    as (_ & _ & _ & (_ & Hchecks) & _ & (ps & _ & _ & Hp & _) & _).
  unfold amount_checks in Hchecks. split_nil.
  match goal with
  | Hr : check "amount" (amount_regex _) _ = [] |- _ => apply check_nil in Hr;
      split; [apply amount_regex_no_colon; exact Hr|]
  end.
  apply pay_date_regex_no_colon. exact Hp.
Qed.

(** X17. Two accepted rows have the same key, and so the later one is
    reported as a duplicate of the earlier, exactly when they agree on the
    identifier (the employee id, or the e-mail address when there is no
    id), on the text of the amount and on the date: the amount and the date
    of an accepted row hold no colon, so that the key, which joins the
    three parts with colons, is read back in one way only. *)
Theorem accepted_rows_with_one_key_agree env c1 c2 d1 d2 :
  RawPaymentRowSchema env c1 = Success d1 ->
  RawPaymentRowSchema env c2 = Success d2 ->
  paymentKey d1 = paymentKey d2
  <-> template (or_else (employee_id d1) (employee_email d1))
      = template (or_else (employee_id d2) (employee_email d2))
      /\ Js.toString (amount d1) = Js.toString (amount d2)
      /\ pay_date d1 = pay_date d2.
Proof.
  intros H1 H2.
  destruct (accepted_key_parts env c1 d1 H1) as [Ha1 Hp1].
  destruct (accepted_key_parts env c2 d2 H2) as [Ha2 Hp2].
  unfold paymentKey. split.
  - intros H.
    set (x1 := template (or_else (employee_id d1) (employee_email d1))) in *.
    set (x2 := template (or_else (employee_id d2) (employee_email d2))) in *.
    change ((x1 +:+ String ":" (Js.toString (amount d1)))
            +:+ String ":" (pay_date d1)
            = (x2 +:+ String ":" (Js.toString (amount d2)))
              +:+ String ":" (pay_date d2)) in H || idtac.
    assert (H' : (x1 +:+ String ":" (Js.toString (amount d1)))
                 +:+ String ":" (pay_date d1)
                 = (x2 +:+ String ":" (Js.toString (amount d2)))
                   +:+ String ":" (pay_date d2)).
    { rewrite !append_assoc. exact H. }
    apply colon_split in H' as [H' Hd]; [|exact Hp1|exact Hp2].
    apply colon_split in H' as [Hx Ha]; [|exact Ha1|exact Ha2].
    auto.
  - intros (-> & -> & ->). reflexivity.
Qed.
End Keys.

Lemma accepted_rows_with_one_key_agree_witness :
  let c1 := Sample.sample_candidate Validation.VUndefined
              (Validation.VStr "jane.doe@example.com") "1500.00" "2025-11-01" in
  let c2 := Sample.sample_candidate Validation.VUndefined
              (Validation.VStr "jane.doe@example.com") "1500" " 2025-11-01" in
  exists d1 d2,
    Validation.RawPaymentRowSchema (Sample.sample_env 0) c1 = Validation.Success d1
    /\ Validation.RawPaymentRowSchema (Sample.sample_env 0) c2 = Validation.Success d2
    /\ CsvParser.paymentKey d1 = CsvParser.paymentKey d2.
Proof.
  intros c1 c2.
  destruct (Validation.RawPaymentRowSchema (Sample.sample_env 0) c1) as [d1|l] eqn:E1;
    [|vm_compute in E1; discriminate].
  destruct (Validation.RawPaymentRowSchema (Sample.sample_env 0) c2) as [d2|l] eqn:E2;
    [|vm_compute in E2; discriminate].
  exists d1, d2. split; [reflexivity|]. split; [reflexivity|].
  apply (accepted_rows_with_one_key_agree (Sample.sample_env 0) c1 c2 d1 d2 E1 E2).
  vm_compute in E1, E2. injection E1 as <-. injection E2 as <-.
  split; [reflexivity|]. split; reflexivity.
Defined.

Section SameValue.
Import Validation CsvParser Props.

Lemma normal_form_unique s1 e1 s2 e2 m :
  (0 < s1)%N -> (0 < s2)%N -> (s1 mod 10 <> 0)%N -> (s2 mod 10 <> 0)%N ->
  m <= e1 -> m <= e2 ->
  Z.of_N s1 * 10 ^ (e1 - m) = Z.of_N s2 * 10 ^ (e2 - m) ->
  s1 = s2 /\ e1 = e2.
Proof.
  intros Hp1 Hp2 Hm1 Hm2 He1 He2 Hv.
  assert (Hdiv : forall s e s' e', (s mod 10 <> 0)%N -> m <= e -> m <= e' ->
            Z.of_N s * 10 ^ (e - m) = Z.of_N s' * 10 ^ (e' - m) -> e' <= e).
  { intros s e s' e' Hs He He' H.
    destruct (Z_le_dec e' e) as [Hle|Hgt]; [exact Hle|]. exfalso.
    replace (e' - m) with ((e - m) + 1 + (e' - e - 1)) in H by lia.
    rewrite !Z.pow_add_r in H by lia.
    assert (Hpos : 0 < 10 ^ (e - m)) by (apply Z.pow_pos_nonneg; lia).
    assert (Hs10 : Z.of_N s = 10 * (Z.of_N s' * 10 ^ (e' - e - 1))) by nia.
    apply Hs. apply N2Z.inj. rewrite N2Z.inj_mod. rewrite Hs10.
    rewrite Z.mul_comm, Z.mod_mul by lia. reflexivity. }
  assert (e1 = e2) as <-.
  { pose proof (Hdiv s1 e1 s2 e2 Hm1 He1 He2 Hv).
    pose proof (Hdiv s2 e2 s1 e1 Hm2 He2 He1 (eq_sym Hv)). lia. }
  split; [|reflexivity].
  assert (Hpos : 0 < 10 ^ (e1 - m)) by (apply Z.pow_pos_nonneg; lia).
  apply N2Z.inj. nia.
Qed.

Lemma normalize_same_value s1 e1 s2 e2 :
  Z.of_N s1 * 10 ^ (e1 - Z.min e1 e2) = Z.of_N s2 * 10 ^ (e2 - Z.min e1 e2) ->
  Js.normalize s1 e1 = Js.normalize s2 e2.
Proof.
  intros Hv. set (m := Z.min e1 e2) in *.
  assert (Hp1 : 0 < 10 ^ (e1 - m)) by (apply Z.pow_pos_nonneg; lia).
  assert (Hp2 : 0 < 10 ^ (e2 - m)) by (apply Z.pow_pos_nonneg; lia).
  destruct (N.eq_dec s1 0) as [->|Hs1].
  - assert (s2 = 0%N) as -> by (apply N2Z.inj; nia). reflexivity.
  - assert (Hs2 : s2 <> 0%N) by (intros ->; apply Hs1; apply N2Z.inj; nia).
    destruct (normalize_spec s1 e1 ltac:(lia)) as (a1 & x1 & -> & Ha1 & Hm1 & Hx1 & Hv1).
    destruct (normalize_spec s2 e2 ltac:(lia)) as (a2 & x2 & -> & Ha2 & Hm2 & Hx2 & Hv2).
    assert (H : Z.of_N a1 * 10 ^ (x1 - m) = Z.of_N a2 * 10 ^ (x2 - m)).
    { replace (x1 - m) with ((x1 - e1) + (e1 - m)) by lia.
      replace (x2 - m) with ((x2 - e2) + (e2 - m)) by lia.
      rewrite !Z.pow_add_r by lia. rewrite !Z.mul_assoc, <- Hv1, <- Hv2. exact Hv. }
    destruct (normal_form_unique a1 x1 a2 x2 m Ha1 Ha2 Hm1 Hm2 ltac:(lia) ltac:(lia) H)
      as [-> ->].
    reflexivity.
Qed.

Lemma toString_same_value x y : same_value x y -> Js.toString x = Js.toString y.
Proof.
  destruct x as [|n1|n1 s1 e1], y as [|n2|n2 s2 e2]; cbn [same_value];
    try (intros H; congruence).
  intros [<- Hv]. unfold Js.toString.
  rewrite (normalize_same_value s1 e1 s2 e2 Hv). reflexivity.
Qed.

(** X18. The key of a payment depends on the amount as a number, not on
    the way it was written: two rows with the same identifier and date
    whose amounts are the same number (as 1500 and 1500.00 are) have the
    same key, since equal numbers print as the same text. *)
Theorem paymentKey_same_value d1 d2 :
  or_else (employee_id d1) (employee_email d1)
  = or_else (employee_id d2) (employee_email d2) ->
  same_value (amount d1) (amount d2) ->
  pay_date d1 = pay_date d2 ->
  paymentKey d1 = paymentKey d2.
Proof.
  intros Hid Hv Hd. unfold paymentKey.
  rewrite Hid, (toString_same_value _ _ Hv), Hd. reflexivity.
Qed.
End SameValue.

Lemma paymentKey_same_value_witness :
  let d2 :=
    {| Validation.employee_id := Validation.OStr "";
       Validation.employee_email := Validation.OStr "jane.doe@example.com";
       Validation.amount := Js.Finite false 150000 (-2);
       Validation.currency := "EUR";
       Validation.pay_date := "2025-11-01";
       Validation.description := Validation.ONull;
       Validation.external_reference := Validation.ONull |} in
  CsvParser.paymentKey Sample.sample_payment = CsvParser.paymentKey d2.
Proof.
  intros d2.
  apply (paymentKey_same_value Sample.sample_payment d2 eq_refl);
    [split; reflexivity|reflexivity].
Defined.

(** ** The upload handler *)

Section Upload.
Import Validation CsvParser Prisma UploadRoute.

Variable env : Env.
Variable limits : Limits.
Variable redis : bool.
Variable gen : Generated.

Lemma validate_loop_count columnMapping rows : forall i st,
  let st' := validate_loop env columnMapping rows i st in
  (List.length (st_validRows st') + List.length (st_invalidRows st')
   + List.length (st_duplicates st')
   = List.length (st_validRows st) + List.length (st_invalidRows st)
     + List.length (st_duplicates st) + List.length rows)%nat.
Proof.
  induction rows as [|r rows IH]; intros i st; simpl; [lia|].
  rewrite IH. unfold validate_row.
  destruct (RawPaymentRowSchema env (mappedRow columnMapping r)) as [d|l].
  - destruct (seenPayments st !! paymentKey d);
      cbn [st_validRows st_invalidRows st_duplicates]; rewrite length_app; simpl; lia.
  - cbn [st_validRows st_invalidRows st_duplicates]. rewrite length_app. simpl. lia.
Qed.

Lemma validatePayrollRows_count rows columnMapping :
  let out := validatePayrollRows env rows columnMapping in
  (List.length (validRows out) + List.length (invalidRows out)
   + List.length (duplicates out) = totalRows out)%nat
  /\ totalRows out = List.length rows.
Proof.
  unfold validatePayrollRows. cbn [validRows invalidRows duplicates totalRows].
  rewrite validate_loop_count. simpl. lia.
Qed.

Lemma slice_prefix_length {A} (l : list A) (n : Z) :
  1 <= n -> (List.length (Worker.slice l 0 n) <= Z.to_nat n)%nat.
Proof.
  intros Hn. replace n with (0 + n) by lia.
  rewrite slice_take_drop by lia. rewrite length_take. lia.
Qed.

Lemma errorSummary_length parsed :
  (List.length (Worker.slice (errorSummary parsed) 0 20) <= 20)%nat.
Proof. apply (slice_prefix_length _ 20). lia. Qed.

Lemma POST_on_rows userId parsedRows headers db queue :
  let out := POST env limits redis gen (inr userId) (Rows parsedRows headers) db queue in
  let n := Z.of_nat (List.length parsedRows) in
  if (n =? 0) || (MAX_ROWS_PER_UPLOAD limits <? n) then
    exists message,
      out = (Error {| Errors.code := "VALIDATION_ERROR"; Errors.message := message;
                      Errors.statusCode := 400 |}, db, queue)
  else
    exists valid invalid summary created,
      out = (Accepted (new_job_id gen) n valid invalid summary,
             {| bulkPayrollJob :=
                  <[new_job_id gen :=
                      {| Job.id := new_job_id gen; Job.uploaderId := userId;
                         Job.status := Job.QUEUED; Job.totalRows := n;
                         Job.validRows := valid; Job.invalidRows := invalid;
                         Job.processedRows := 0; Job.failedRows := 0;
                         Job.startedAt := None; Job.completedAt := None |}]>
                    (bulkPayrollJob db);
                bulkPayrollRow := bulkPayrollRow db ++ created |},
             if redis then queue ++ [new_job_id gen] else queue)
      /\ 0 <= valid /\ 0 <= invalid /\ valid + invalid = n
      /\ (List.length summary <= 20)%nat
      /\ Z.of_nat (List.length created) = valid
      /\ forall k r, created !! k = Some r ->
           Row.id r = new_row_id gen k
           /\ Row.jobId r = new_job_id gen
           /\ Row.rowIndex r = Z.of_nat k
           /\ Row.status r = Row.PENDING
           /\ Row.attempts r = 0
           /\ exists d,
                validRows (validatePayrollRows env parsedRows
                             (ColumnDetection.detectColumnMapping headers)) !! k
                = Some d
                /\ Row.normalized r = stored_normalized gen d.
Proof.
  intros out n. subst out. unfold POST. fold n.
  destruct (n =? 0) eqn:E0; cbn [orb].
  { eexists. reflexivity. }
  destruct (MAX_ROWS_PER_UPLOAD limits <? n) eqn:E1.
  { eexists. reflexivity. }
  set (parsed := validatePayrollRows env parsedRows
                   (ColumnDetection.detectColumnMapping headers)).
  destruct (validatePayrollRows_count parsedRows
              (ColumnDetection.detectColumnMapping headers)) as [Hsum Htot].
  fold parsed in Hsum, Htot.
  eexists _, _, _, _. split.
  { rewrite Htot. reflexivity. }
  split; [lia|]. split; [lia|]. split; [unfold n; lia|].
  split; [apply errorSummary_length|].
  split.
  { unfold rowsToCreate. rewrite length_imap. reflexivity. }
  intros k r Hk. unfold rowsToCreate in Hk. rewrite list_lookup_imap in Hk.
  destruct (validRows parsed !! k) as [d|]; simpl in Hk; [|discriminate].
  injection Hk as <-. simpl. repeat (split; [reflexivity|]). exists d. auto.
Qed.

End Upload.

(** ** From the upload to the end of the processing *)

Section UploadThenWorker.
Import Validation CsvParser Prisma Worker UploadRoute Spec.

(** The handler on a job whose rows are all PENDING. *)
Lemma jobHandler_on_pending_rows cfg adapter t_start t_end jobId db job :
  1 <= BATCH_SIZE cfg ->
  bulkPayrollJob db !! jobId = Some job ->
  List.NoDup (map Row.id (bulkPayrollRow db)) ->
  (forall r, In r (bulkPayrollRow db) -> Row.jobId r = jobId ->
             Row.status r = Row.PENDING) ->
  let rows := filter (fun r => Row.jobId r = jobId) (bulkPayrollRow db) in
  exists db' c persisted j2,
    jobHandler cfg adapter t_start t_end jobId db
    = Some (db', Returned (processedCount c) (successCount c) (failedCount c), persisted)
    /\ bulkPayrollJob db' !! jobId = Some (completed t_end c j2)
    /\ processedCount c = Z.of_nat (List.length rows)
    /\ failedCount c = failures adapter (MAX_RETRIES cfg) rows
    /\ counters_consistent jobId db'.
Proof.
  intros Hb Hjob Hnd Hpending rows.
  unfold jobHandler, findUnique_with_rows. rewrite Hjob. fold rows.
  set (db1 := update_job db jobId (processing t_start)).
  set (c0 := {| processedCount := 0; successCount := 0; failedCount := 0 |}).
  assert (Hinv : loop_invariant jobId (drop (Z.to_nat 0) rows) db1 c0).
  { simpl drop. split; [exact Hnd|]. split; [apply NoDup_ids_filter; exact Hnd|].
    split; [|split].
    - intros r Hr. apply list_elem_of_In in Hr.
      apply list_elem_of_filter in Hr as [Hj Hr]. apply list_elem_of_In in Hr.
      exists r. auto.
    - simpl. apply count_rows_none. intros r Hr Hj.
      unfold is_terminal. rewrite (Hpending r Hr Hj). reflexivity.
    - simpl. apply count_rows_none. intros r Hr Hj.
      unfold is_failed. rewrite (Hpending r Hr Hj). reflexivity. }
  assert (Hjob1 : is_Some (bulkPayrollJob db1 !! jobId)).
  { unfold db1, update_job. simpl. rewrite lookup_alter_eq, Hjob. simpl. eauto. }
  destruct (batch_loop_spec cfg adapter jobId rows (List.length rows) 0 c0 db1 []
              Hb ltac:(lia) ltac:(lia) Hinv Hjob1 ltac:(constructor))
    as (db2 & c & persisted & Hloop & Hinv2 & [j2 Hjob2] & Hpers & Hlen & Hp & Hf).
  rewrite Hloop.
  exists (update_job db2 jobId (completed t_end c)), c, persisted, j2.
  simpl in Hp, Hf.
  assert (Hl : bulkPayrollJob (update_job db2 jobId (completed t_end c)) !! jobId
               = Some (completed t_end c j2)).
  { unfold update_job. simpl. rewrite lookup_alter_eq, Hjob2. reflexivity. }
  destruct Hinv2 as (_ & _ & _ & Hterm & Hfail).
  split; [reflexivity|]. split; [exact Hl|]. split; [lia|]. split; [exact Hf|].
  exists (completed t_end c j2). simpl. auto.
Qed.

Lemma failures_bounds adapter maxRetries rows :
  0 <= failures adapter maxRetries rows <= Z.of_nat (List.length rows).
Proof.
  induction rows as [|r rows IH]; simpl; [lia|].
  destruct (r_success (row_result adapter maxRetries r)); lia.
Qed.

Lemma filter_none {A} (P : A -> Prop) `{forall x, Decision (P x)} (l : list A) :
  (forall x, In x l -> ~ P x) -> filter P l = [].
Proof.
  induction l as [|x l IH]; intros Hl; [reflexivity|].
  rewrite filter_cons, decide_False by (apply Hl; left; reflexivity).
  apply IH. intros y Hy. apply Hl. right. exact Hy.
Qed.

Lemma filter_all {A} (P : A -> Prop) `{forall x, Decision (P x)} (l : list A) :
  (forall x, In x l -> P x) -> filter P l = l.
Proof.
  induction l as [|x l IH]; intros Hl; [reflexivity|].
  rewrite filter_cons, decide_True by (apply Hl; left; reflexivity).
  f_equal. apply IH. intros y Hy. apply Hl. right. exact Hy.
Qed.

(** X20. From the upload to the end of the processing: when the handler
    of the worker runs on the job that an accepted upload has created
    (fresh ids, a batch size of at least 1), it returns and leaves the job
    COMPLETED with [processedRows] equal to [validRows], the counts and
    the uploader of the upload unchanged, and [failedRows] between 0 and
    [validRows] in agreement with the rows. *)
Theorem uploaded_job_is_processed_to_completion
    env limits redis gen cfg adapter t_start t_end
    userId parsedRows headers db queue jobId n valid invalid summary db1 queue1 :
  POST env limits redis gen (inr userId) (Rows parsedRows headers) db queue
  = (Accepted jobId n valid invalid summary, db1, queue1) ->
  1 <= BATCH_SIZE cfg ->
  (forall r, In r (bulkPayrollRow db) -> Row.jobId r <> new_job_id gen) ->
  List.NoDup (map Row.id (bulkPayrollRow db1)) ->
  exists db2 succeeded failed persisted job2,
    jobHandler cfg adapter t_start t_end jobId db1
    = Some (db2, Returned valid succeeded failed, persisted)
    /\ bulkPayrollJob db2 !! jobId = Some job2
    /\ Job.status job2 = Job.COMPLETED
    /\ Job.uploaderId job2 = userId
    /\ Job.totalRows job2 = n
    /\ Job.validRows job2 = valid
    /\ Job.invalidRows job2 = invalid
    /\ Job.processedRows job2 = valid
    /\ Job.failedRows job2 = failed
    /\ 0 <= failed <= valid
    /\ counters_consistent jobId db2.
Proof.
  intros HP Hb Hnew Hnd.
  pose proof (POST_on_rows env limits redis gen userId parsedRows
                headers db queue) as Hup.
  cbv zeta in Hup. rewrite HP in Hup.
  destruct ((Z.of_nat (List.length parsedRows) =? 0)
            || (MAX_ROWS_PER_UPLOAD limits <? Z.of_nat (List.length parsedRows))).
  { destruct Hup as (m & Hm). discriminate. }
  destruct Hup as (valid' & invalid' & summary' & created & Heq & Hv0 & Hi0 & Hsum
                   & _ & Hlen & Hrows).
  injection Heq as -> -> -> -> -> -> _.
  set (jobId := new_job_id gen) in *.
  set (job := {| Job.id := jobId; Job.uploaderId := userId; Job.status := Job.QUEUED;
                 Job.totalRows := Z.of_nat (List.length parsedRows);
                 Job.validRows := valid'; Job.invalidRows := invalid';
                 Job.processedRows := 0; Job.failedRows := 0;
                 Job.startedAt := None; Job.completedAt := None |}) in *.
  set (db1 := {| bulkPayrollJob := <[jobId := job]> (bulkPayrollJob db);
                 bulkPayrollRow := bulkPayrollRow db ++ created |}) in *.
  assert (Hcreated : forall r, In r created ->
            Row.jobId r = jobId /\ Row.status r = Row.PENDING).
  { intros r Hr. apply list_elem_of_In, list_elem_of_lookup in Hr as [k Hk].
    destruct (Hrows k r Hk) as (_ & H1 & _ & H2 & _). auto. }
  assert (Hfilter : filter (fun r => Row.jobId r = jobId) (bulkPayrollRow db1) = created).
  { unfold db1. cbn [bulkPayrollRow]. rewrite filter_app.
    rewrite filter_none by exact Hnew.
    rewrite filter_all by (intros r Hr; apply Hcreated; exact Hr). reflexivity. }
  destruct (jobHandler_on_pending_rows cfg adapter t_start t_end jobId db1 job Hb)
    as (db2 & c & persisted & j2 & Hrun & Hjob2 & Hp & Hf & Hcons).
  { unfold db1. cbn [bulkPayrollJob]. apply lookup_insert_eq. }
  { exact Hnd. }
  { intros r Hr Hj. unfold db1 in Hr. cbn [bulkPayrollRow] in Hr.
    apply in_app_iff in Hr as [Hr|Hr]; [exfalso; exact (Hnew r Hr Hj)|].
    apply Hcreated. exact Hr. }
  rewrite Hfilter in Hp, Hf. rewrite Hlen in Hp.
  destruct (jobHandler_invariants cfg adapter jobId db1 Hnd t_start t_end job Hb)
    as (db2' & result' & persisted' & Hrun' & (_ & Hkey & _) & _).
  { unfold db1. cbn [bulkPayrollJob]. apply lookup_insert_eq. }
  rewrite Hrun in Hrun'. injection Hrun' as <- _ _.
  rewrite Hjob2 in Hkey. unfold db1 in Hkey. cbn [bulkPayrollJob] in Hkey.
  rewrite lookup_insert_eq in Hkey. simpl in Hkey. injection Hkey as _ Hk1 Hk2 Hk3 Hk4.
  pose proof (failures_bounds adapter (MAX_RETRIES cfg) created) as Hfb.
  exists db2, (successCount c), (failedCount c), persisted, (completed t_end c j2).
  rewrite <- Hp. split; [exact Hrun|]. split; [exact Hjob2|].
  simpl. repeat split; try assumption; try lia.
Qed.
End UploadThenWorker.

Lemma uploaded_job_is_processed_to_completion_witness :
  exists summary db1 db2 succeeded failed persisted job2,
    UploadRoute.POST (Sample.sample_env 0) Examples.sample_limits true
      Examples.sample_generated (inr "user-1")
      (UploadRoute.Rows Examples.sample_upload Examples.sample_upload_headers)
      (Sample.sample_db Job.COMPLETED) []
    = (UploadRoute.Accepted "job-2" 3 1 2 summary, db1, ["job-2"])
    /\ Worker.jobHandler Sample.sample_config (Sample.declines (Some "Invalid account"))
         100 200 "job-2" db1
       = Some (db2, Worker.Returned 1 succeeded failed, persisted)
    /\ Prisma.bulkPayrollJob db2 !! "job-2" = Some job2
    /\ Job.status job2 = Job.COMPLETED
    /\ Job.processedRows job2 = 1
    /\ Job.invalidRows job2 = 2.
Proof.
  eassert (HP : UploadRoute.POST (Sample.sample_env 0) Examples.sample_limits true
                  Examples.sample_generated (inr "user-1")
                  (UploadRoute.Rows Examples.sample_upload Examples.sample_upload_headers)
                  (Sample.sample_db Job.COMPLETED) []
                = (UploadRoute.Accepted "job-2" 3 1 2 _, _, ["job-2"]))
    by (vm_compute; reflexivity).
  destruct (uploaded_job_is_processed_to_completion (Sample.sample_env 0)
              Examples.sample_limits true Examples.sample_generated
              Sample.sample_config (Sample.declines (Some "Invalid account")) 100 200
              "user-1" Examples.sample_upload Examples.sample_upload_headers
              (Sample.sample_db Job.COMPLETED) [] "job-2" 3 1 2 _ _ _ HP
              ltac:(simpl; lia))
    as (db2 & succeeded & failed & persisted & job2 & Hrun & Hjob & Hst & _ & _ & _
        & Hinv & Hproc & _).
  - intros r [<-|[<-|[]]]; discriminate.
  - apply NoDup_ListNoDup. apply (bool_decide_unpack _). vm_compute. exact I.
  - eexists _, _, db2, succeeded, failed, persisted, job2.
    split; [exact HP|]. split; [exact Hrun|]. split; [exact Hjob|].
    split; [exact Hst|]. split; [exact Hproc|exact Hinv].
Defined.

(** ** getUserFromRequest *)

Section Authentication.
Import Auth.

Lemma startsWith_spec prefix s :
  startsWith prefix s = true <-> exists rest, s = prefix +:+ rest.
Proof.
  revert s. induction prefix as [|a p IH]; intros s.
  - simpl. split; [intros _; exists s; reflexivity|reflexivity].
  - destruct s as [|b r]; simpl.
    + split; [discriminate|intros [rest H]; discriminate H].
    + rewrite Bool.andb_true_iff, Ascii.eqb_eq, IH. split.
      * intros [-> [rest ->]]. exists rest. reflexivity.
      * intros [rest H]. injection H as -> ->. split; [reflexivity|eauto].
Qed.

Lemma substring_append prefix rest :
  substring (String.length prefix) (prefix +:+ rest) = rest.
Proof. induction prefix as [|a p IH]; simpl; [destruct rest; reflexivity|exact IH]. Qed.

(** X23. Who a request is taken to come from.  In production
    [getUserFromRequest] is [verifyAuth]: it gives a user exactly when the
    header [authorization] is [Bearer] followed by a token that
    [jwtVerify] accepts, and that user is the payload of the token; in
    every other case it throws the error of status 401.  Outside
    production it never throws: every request gets a user, without a
    header and with a token that [jwtVerify] refuses as well. *)
Theorem getUserFromRequest_cases (w : World) (authHeader : option string) :
  (production w = true ->
   (forall user,
      getUserFromRequest w authHeader = inr user
      <-> exists token, authHeader = Some ("Bearer " +:+ token)
                        /\ jwtVerify w token = Some user)
   /\ ((forall user, getUserFromRequest w authHeader <> inr user) ->
       exists message,
         getUserFromRequest w authHeader
         = inl (Errors.AppError "UNAUTHORIZED" message 401)))
  /\ (production w = false ->
      exists user, getUserFromRequest w authHeader = inr user).
Proof.
  split.
  - intros Hprod. unfold getUserFromRequest. rewrite Hprod. cbn [negb].
    unfold verifyAuth. split.
    + intros user. destruct authHeader as [h|].
      * destruct (startsWith "Bearer " h) eqn:E.
        -- apply startsWith_spec in E as [token ->].
           assert (Hsub : substring 7 ("Bearer " +:+ token) = token)
             by apply (substring_append "Bearer " token).
           rewrite Hsub.
           destruct (jwtVerify w token) as [payload|] eqn:Ej.
           ++ split.
              ** intros [= <-]. exists token. auto.
              ** intros (token' & Ht & Hj).
                 assert (token' = token) as ->.
                 { injection Ht as Ht. symmetry. exact Ht. }
                 congruence.
           ++ split; [discriminate|].
              intros (token' & Ht & Hj).
              assert (token' = token) as ->.
              { injection Ht as Ht. symmetry. exact Ht. }
              congruence.
        -- split; [discriminate|]. intros (token & Ht & _). injection Ht as ->.
           assert (Hs : startsWith "Bearer " ("Bearer " +:+ token) = true)
             by (apply startsWith_spec; eauto).
           congruence.
      * split; [discriminate|]. intros (token & Ht & _). discriminate.
    + intros Hnone. destruct authHeader as [h|]; [|eexists; reflexivity].
      destruct (startsWith "Bearer " h); [|eexists; reflexivity].
      destruct (jwtVerify w (substring 7 h)) as [payload|]; [|eexists; reflexivity].
      exfalso. exact (Hnone payload eq_refl).
  - intros Hdev. unfold getUserFromRequest. rewrite Hdev. cbn [negb].
    destruct authHeader as [h|]; [|eauto].
    destruct (startsWith "Bearer " h); [|eauto].
    destruct (String.eqb _ _ || includes _ _).
    + destruct (findFirstAdmin w) as [[a|]|]; eauto.
    + destruct (verifyAuth w (Some h)); eauto.
Qed.
End Authentication.

(** ** An upload without a column for the e-mail address *)

Section UploadWithoutEmail.
Import Validation CsvParser Prisma UploadRoute Props.

(** X24. An upload whose headers have no column for the e-mail address
    (no header is [employee_email] or one of its aliases), when the e-mail
    test rejects the empty text: the upload is accepted all the same, the
    job is created with [validRows = 0] and every row counted as invalid,
    no row is created for it, and the job is put on the queue when the
    queue is in use. *)
Theorem upload_without_email_column env limits redis gen userId parsedRows headers
    db queue :
  is_email env "" = false ->
  (forall h, In h headers -> ~ In (normalize_header h) (names "employee_email")) ->
  parsedRows <> [] ->
  Z.of_nat (List.length parsedRows) <= MAX_ROWS_PER_UPLOAD limits ->
  let n := Z.of_nat (List.length parsedRows) in
  exists summary job,
    POST env limits redis gen (inr userId) (Rows parsedRows headers) db queue
    = (Accepted (new_job_id gen) n 0 n summary,
       {| bulkPayrollJob := <[new_job_id gen := job]> (bulkPayrollJob db);
          bulkPayrollRow := bulkPayrollRow db |},
       if redis then queue ++ [new_job_id gen] else queue)
    /\ Job.status job = Job.QUEUED
    /\ Job.validRows job = 0
    /\ Job.invalidRows job = n.
Proof.
  intros Hempty Hheaders Hne Hmax n.
  assert (Hmap : map_employee_email (ColumnDetection.detectColumnMapping headers) = None).
  { apply (column_unmapped_iff headers "employee_email"); [vm_compute; tauto|].
    exact Hheaders. }
  destruct (all_rows_invalid env
              (ColumnDetection.detectColumnMapping headers) parsedRows
              (or_intror (or_intror (or_intror (conj Hmap Hempty)))))
    as (Hvalid & Hdup & Hinv).
  destruct (validatePayrollRows_count env parsedRows
              (ColumnDetection.detectColumnMapping headers)) as [Hsum Htot].
  unfold POST.
  assert (E0 : (Z.of_nat (List.length parsedRows) =? 0) = false).
  { apply Z.eqb_neq. destruct parsedRows; [contradiction|simpl; lia]. }
  assert (E1 : (MAX_ROWS_PER_UPLOAD limits <? Z.of_nat (List.length parsedRows)) = false)
    by (apply Z.ltb_ge; exact Hmax).
  rewrite E0, E1.
  set (parsed := validatePayrollRows env parsedRows
                   (ColumnDetection.detectColumnMapping headers)) in *.
  rewrite Hvalid, Hdup in *. cbn [List.length] in *.
  assert (Hlen : Z.of_nat (List.length (invalidRows parsed)) + Z.of_nat 0 = n)
    by (unfold n; lia).
  rewrite Htot, Hlen. unfold rowsToCreate. cbn [imap]. rewrite app_nil_r.
  eexists _, _. split; [reflexivity|]. cbn. auto.
Qed.
End UploadWithoutEmail.

Lemma upload_without_email_column_witness :
  let rows : list (gmap string Validation.value) :=
    [ {[ "employee_id" := Validation.VStr "EMP001";
         "amount" := Validation.VStr "1500.00";
         "currency" := Validation.VStr "USD";
         "pay_date" := Validation.VStr "2025-11-01" ]} ] in
  exists summary job,
    UploadRoute.POST (Sample.sample_env 0) Examples.sample_limits true
      Examples.sample_generated (inr "user-1")
      (UploadRoute.Rows rows ["employee_id"; "amount"; "currency"; "pay_date"])
      (Sample.sample_db Job.COMPLETED) []
    = (UploadRoute.Accepted "job-2" 1 0 1 summary,
       {| Prisma.bulkPayrollJob :=
            <["job-2" := job]> (Prisma.bulkPayrollJob (Sample.sample_db Job.COMPLETED));
          Prisma.bulkPayrollRow := Prisma.bulkPayrollRow (Sample.sample_db Job.COMPLETED) |},
       ["job-2"])
    /\ Job.validRows job = 0.
Proof.
  intros rows.
  destruct (upload_without_email_column (Sample.sample_env 0) Examples.sample_limits
              true Examples.sample_generated "user-1" rows
              ["employee_id"; "amount"; "currency"; "pay_date"]
              (Sample.sample_db Job.COMPLETED) [] eq_refl)
    as (summary & job & HP & _ & Hv & _).
  - intros h Hh. vm_compute in Hh.
    repeat (destruct Hh as [<-|Hh];
            [vm_compute; intros H;
             repeat (destruct H as [H|H]; [discriminate H|]); exact H|]).
    destruct Hh.
  - discriminate.
  - vm_compute. discriminate.
  - exists summary, job. split; [exact HP|exact Hv].
Defined.
